(** * imgResample: bicubic and 2x box resampling of PPM images

    A shallow embedding of [imgResample.c] and the properties of its
    resampling engine.

    - C [int] values are integers of [Z]; signed overflow, which C leaves
      undefined, is written out as the 32-bit two's complement wrap-around
      ([int32]), and the properties show that it does not occur on a
      well-formed image.  [unsigned char] channels are integers reduced
      modulo 256 ([uint8]).
    - C [double] arithmetic is an interface ([Double]) with two readings:
      IEEE 754 binary64 ([float], the primitive floats, every operation
      rounded to nearest even, on which the code can be run) and the real
      numbers ([R], on which the algebra of the kernel is stated).
    - Images live in a heap of [PPMImage] objects addressed by pointers, and
      the functions that take [PPMImage *] are state transformers on that
      heap which have no result on an access outside an object's pixel
      block or on a cast whose value the target type does not hold. *)

From Stdlib Require Import ZArith Lia List String Floats Reals Lra Psatz.
From Stdlib.Strings Require Import Byte.
From stdpp Require Import base option list gmap strings.

(* ===================================================================== *)
(** ** Machine integers *)
(* ===================================================================== *)

Local Open Scope Z_scope.

Definition INT_MIN : Z := - 2 ^ 31.
Definition INT_MAX : Z := 2 ^ 31 - 1.

(** Reduction of an integer into the range of [int]. *)
Definition int32 (z : Z) : Z := (z + 2 ^ 31) mod 2 ^ 32 - 2 ^ 31.

(** Conversion to [unsigned char] / [uint8_t]. *)
Definition uint8 (z : Z) : Z := z mod 256.

(** [#define CLAMP(v, min, max) if(v < min) { v = min; } else if(v > max) { v = max; }]
    as the value left in [v]. *)
Definition CLAMP (v lo hi : Z) : Z :=
  if v <? lo then lo else if v >? hi then hi else v.

(* ===================================================================== *)
(** ** Doubles *)
(* ===================================================================== *)

(** The operations of [double] that the program uses. *)
Class Double (D : Type) := {
  d_add : D -> D -> D;
  d_sub : D -> D -> D;
  d_mul : D -> D -> D;
  d_div : D -> D -> D;
  d_neg : D -> D;
  d_ltb : D -> D -> bool;
  d_leb : D -> D -> bool;
  (** [(double)i] for an integer [i] *)
  d_of_Z : Z -> D;
  (** [floor] of math.h *)
  d_floor : D -> D;
  (** the integral part, which a cast to an integer type keeps; no value for
      a NaN or an infinity *)
  d_trunc : D -> option Z
}.

Declare Scope double_scope.
Delimit Scope double_scope with D.
Infix "+" := d_add : double_scope.
Infix "-" := d_sub : double_scope.
Infix "*" := d_mul : double_scope.
Infix "/" := d_div : double_scope.
Notation "- x" := (d_neg x) : double_scope.
Infix "<?" := d_ltb : double_scope.
Infix "<=?" := d_leb : double_scope.

(** A decimal literal [n/d], such as [0.5] (1/2) or [.1] (1/10): the division
    is correctly rounded, so this is the double nearest to the literal. *)
Definition d_lit {D} `{Double D} (n d : Z) : D := d_div (d_of_Z n) (d_of_Z d).

(** *** binary64 *)

Definition float_of_Z (z : Z) : float :=
  SF2Prim (binary_normalize prec emax z 0 false).

(** The integer [m * 2^e], rounded toward minus infinity. *)
Definition scaled_floor (m e : Z) : Z :=
  if 0 <=? e then m * 2 ^ e else m / 2 ^ (- e).

(** The integer [m * 2^e], rounded toward zero. *)
Definition scaled_trunc (m e : Z) : Z :=
  if 0 <=? e then m * 2 ^ e else Z.quot m (2 ^ (- e)).

Definition float_floor (f : float) : float :=
  match Prim2SF f with
  | S754_finite s m e =>
      if 0 <=? e then f else float_of_Z (scaled_floor (cond_Zopp s (Zpos m)) e)
  | _ => f
  end.

Definition float_trunc (f : float) : option Z :=
  match Prim2SF f with
  | S754_zero _ => Some 0
  | S754_finite s m e => Some (scaled_trunc (cond_Zopp s (Zpos m)) e)
  | _ => None
  end.

#[export] Instance float_Double : Double float := {
  d_add := PrimFloat.add;
  d_sub := PrimFloat.sub;
  d_mul := PrimFloat.mul;
  d_div := PrimFloat.div;
  d_neg := PrimFloat.opp;
  d_ltb := PrimFloat.ltb;
  d_leb := PrimFloat.leb;
  d_of_Z := float_of_Z;
  d_floor := float_floor;
  d_trunc := float_trunc
}.

(** *** The reals *)

Definition R_ltb (a b : R) : bool := if Rlt_dec a b then true else false.
Definition R_leb (a b : R) : bool := if Rle_dec a b then true else false.
Definition R_floor (a : R) : R := IZR (Zfloor a).
Definition R_trunc (a : R) : option Z :=
  Some (if Rlt_dec a 0 then - Zfloor (- a) else Zfloor a).

#[export] Instance R_Double : Double R := {
  d_add := Rplus;
  d_sub := Rminus;
  d_mul := Rmult;
  d_div := Rdiv;
  d_neg := Ropp;
  d_ltb := R_ltb;
  d_leb := R_leb;
  d_of_Z := IZR;
  d_floor := R_floor;
  d_trunc := R_trunc
}.

(** *** The value of a binary64 number

    [F2R m e] is the real number [m * 2^e]; [represents f lo hi v] says that
    the double [f] is positive and normal, with a 53-bit mantissa and an
    exponent between [lo] and [hi], and that its value is [v]. *)

Definition F2R (m : positive) (e : Z) : R := (IZR (Zpos m) * powerRZ 2 e)%R.

Definition represents (f : float) (lo hi : Z) (v : R) : Prop :=
  exists m e, Prim2SF f = S754_finite false m e /\
              Zpos (digits2_pos m) = 53 /\
              lo <= e <= hi /\
              F2R m e = v.

(** A cast to an integer type whose values are [lo..hi]: undefined (no
    result) when the integral part is outside the type. *)
Definition d_cast {D} `{Double D} (lo hi : Z) (v : D) : option Z :=
  match d_trunc v with
  | Some z => if (lo <=? z) && (z <=? hi) then Some z else None
  | None => None
  end.

(** The macro [CLAMP] applied to a double variable. *)
Definition CLAMP_d {D} `{Double D} (v lo hi : D) : D :=
  if d_ltb v lo then lo else if d_ltb hi v then hi else v.

(* ===================================================================== *)
(** ** Pixels, images and the heap *)
(* ===================================================================== *)

(** [typedef struct { unsigned char red,green,blue; } PPMPixel;] *)
Record PPMPixel : Type := { red : Z; green : Z; blue : Z }.

(** [typedef struct { int x, y; PPMPixel *data; } PPMImage;] with the block
    that [data] points to: its length is the number of pixels allocated. *)
Record PPMImage : Type := { img_x : Z; img_y : Z; img_data : list PPMPixel }.

(** [sizeof(PPMPixel)] *)
Definition sizeof_PPMPixel : Z := 3.

Definition set_red (v : Z) (p : PPMPixel) : PPMPixel :=
  {| red := uint8 v; green := green p; blue := blue p |}.
Definition set_green (v : Z) (p : PPMPixel) : PPMPixel :=
  {| red := red p; green := uint8 v; blue := blue p |}.
Definition set_blue (v : Z) (p : PPMPixel) : PPMPixel :=
  {| red := red p; green := green p; blue := uint8 v |}.

(** A [uint8_t temp[3]] array. *)
Definition uint8x3 : Type := (Z * Z * Z)%type.

(** [PPMImage *] *)
Abbreviation ptr := nat.
Abbreviation heap := (gmap nat PPMImage).

(** Computations on the heap; [None] is undefined behaviour (a null or
    dangling pointer, an index outside the block, a cast out of range). *)
Definition M (A : Type) : Type := heap -> option (A * heap).

#[export] Instance M_ret : MRet M := fun A a h => Some (a, h).
#[export] Instance M_bind : MBind M := fun A B f m h =>
  match m h with
  | Some (a, h') => f a h'
  | None => None
  end.

Definition lift {A} (o : option A) : M A := fun h =>
  match o with
  | Some a => Some (a, h)
  | None => None
  end.

(** [*p] *)
Definition deref (p : ptr) : M PPMImage := fun h =>
  match h !! p with
  | Some i => Some (i, h)
  | None => None
  end.

(** [*p = i] on an allocated object *)
Definition assign (p : ptr) (i : PPMImage) : M unit := fun h =>
  match h !! p with
  | Some _ => Some (tt, <[p := i]> h)
  | None => None
  end.

(** [p->x], [p->y] *)
Definition get_x (p : ptr) : M Z := i ← deref p; mret (img_x i).
Definition get_y (p : ptr) : M Z := i ← deref p; mret (img_y i).

(** [p->x = v], [p->y = v] *)
Definition set_x (p : ptr) (v : Z) : M unit :=
  i ← deref p;
  assign p {| img_x := v; img_y := img_y i; img_data := img_data i |}.
Definition set_y (p : ptr) (v : Z) : M unit :=
  i ← deref p;
  assign p {| img_x := img_x i; img_y := v; img_data := img_data i |}.

(** [p->data[i]] as an rvalue *)
Definition load_pixel (p : ptr) (i : Z) : M PPMPixel :=
  im ← deref p;
  if i <? 0 then lift None else lift (img_data im !! Z.to_nat i).

(** [p->data[i] = f(p->data[i])]: an update of the pixel in place. *)
Definition update_pixel (p : ptr) (i : Z) (f : PPMPixel -> PPMPixel) : M unit :=
  im ← deref p;
  px ← load_pixel p i;
  assign p {| img_x := img_x im; img_y := img_y im;
              img_data := <[Z.to_nat i := f px]> (img_data im) |}.

(** [malloc]: a pointer that is not in use. *)
Definition alloc (i : PPMImage) : M ptr := fun h =>
  let p := fresh (dom h) in Some (p, <[p := i]> h).

(** [for (i = 0; i < n; i++) body] with [body] leaving [i] and [n] alone. *)
Fixpoint for_each {A} (l : list A) (body : A -> M unit) : M unit :=
  match l with
  | [] => mret tt
  | a :: l' => body a ;; for_each l' body
  end.
Definition for_upto (n : Z) (body : Z -> M unit) : M unit :=
  for_each (seqZ 0 n) body.

(* ===================================================================== *)
(** ** The cubic kernel *)
(* ===================================================================== *)

Section Kernel.
Context {D : Type} `{Double D}.
Local Open Scope double_scope.

(** The [float] literals [2.0f], [3.0f] and [5.0f], which the arithmetic
    with a [double] converts to [double]. *)
Definition two : D := d_of_Z 2.
Definition three : D := d_of_Z 3.
Definition five : D := d_of_Z 5.

(** [double cubic_hermite(double A, double B, double C, double D, double t)] *)
Definition cubic_hermite (A B C D' t : D) : D :=
  let a := - A / two + (three * B) / two - (three * C) / two + D' / two in
  let b := A - (five * B) / two + two * C - D' / two in
  let c := - A / two + C / two in
  let d := B in
  a * t * t * t + b * t * t + c * t + d.

End Kernel.

(* ===================================================================== *)
(** ** The edge sampler *)
(* ===================================================================== *)

(** [void get_pixel_clamped(PPMImage *source_image, int x, int y, uint8_t temp[])]:
    the three bytes left in [temp]. *)
Definition get_pixel_clamped (source_image : ptr) (x y : Z) : M uint8x3 :=
  sx ← get_x source_image;
  let x := CLAMP x 0 (int32 (sx - 1)) in
  sy ← get_y source_image;
  let y := CLAMP y 0 (int32 (sy - 1)) in
  sx ← get_x source_image;
  p ← load_pixel source_image (int32 (x + int32 (sx * y)));
  mret (red p, green p, blue p).

(* ===================================================================== *)
(** ** The bicubic sampler *)
(* ===================================================================== *)

(** The elements [temp[0]], [temp[1]], [temp[2]]. *)
Definition elt0 (t : uint8x3) : Z := t.1.1.
Definition elt1 (t : uint8x3) : Z := t.1.2.
Definition elt2 (t : uint8x3) : Z := t.2.

(** One row of the 4x4 neighbourhood, left to right. *)
Definition row4 : Type := (uint8x3 * uint8x3 * uint8x3 * uint8x3)%type.

Section Bicubic.
Context {D : Type} `{Double D}.
Local Open Scope double_scope.

(** [(u * source_image->x)-0.5] *)
Definition sample_coord (u : D) (size : Z) : D :=
  u * d_of_Z size - d_lit 1 2.

(** [(int)x] *)
Definition sample_int (x : D) : option Z := d_cast INT_MIN INT_MAX x.

(** [x-floor(x)] *)
Definition sample_fract (x : D) : D := x - d_floor x.

(** [cubic_hermite(pA[i], pB[i], pC[i], pD[i], xfract)] along one row. *)
Definition hermite_row (i : uint8x3 -> Z) (r : row4) (xfract : D) : D :=
  let '(pA, pB, pC, pD) := r in
  cubic_hermite (d_of_Z (i pA)) (d_of_Z (i pB)) (d_of_Z (i pC)) (d_of_Z (i pD))
    xfract.

(** The body of the loop [for (i = 0; i < 3; i++)]: the byte stored in
    [sample[i]]. *)
Definition bicubic_channel (i : uint8x3 -> Z) (r0 r1 r2 r3 : row4)
    (xfract yfract : D) : option Z :=
  let col0 := hermite_row i r0 xfract in
  let col1 := hermite_row i r1 xfract in
  let col2 := hermite_row i r2 xfract in
  let col3 := hermite_row i r3 xfract in
  let value := cubic_hermite col0 col1 col2 col3 yfract in
  let value := CLAMP_d value (d_of_Z 0) (d_of_Z 255) in
  d_cast 0 255 value.

(** The four reads of one row of the neighbourhood. *)
Definition gather_row (source_image : ptr) (xint y : Z) : M row4 :=
  pA ← get_pixel_clamped source_image (int32 (xint - 1)) y;
  pB ← get_pixel_clamped source_image (int32 (xint + 0)) y;
  pC ← get_pixel_clamped source_image (int32 (xint + 1)) y;
  pD ← get_pixel_clamped source_image (int32 (xint + 2)) y;
  mret (pA, pB, pC, pD).

(** The part of [sample_bicubic] below the computation of the coordinates:
    the sixteen reads around [(xint, yint)] and the interpolation. *)
Definition bicubic_at (source_image : ptr) (xint : Z) (xfract : D)
    (yint : Z) (yfract : D) : M uint8x3 :=
  r0 ← gather_row source_image xint (int32 (yint - 1));
  r1 ← gather_row source_image xint (int32 (yint + 0));
  r2 ← gather_row source_image xint (int32 (yint + 1));
  r3 ← gather_row source_image xint (int32 (yint + 2));
  s0 ← lift (bicubic_channel elt0 r0 r1 r2 r3 xfract yfract);
  s1 ← lift (bicubic_channel elt1 r0 r1 r2 r3 xfract yfract);
  s2 ← lift (bicubic_channel elt2 r0 r1 r2 r3 xfract yfract);
  mret (s0, s1, s2).

(** [void sample_bicubic(PPMImage *source_image, double u, double v, uint8_t sample[])]:
    the three bytes left in [sample]. *)
Definition sample_bicubic (source_image : ptr) (u v : D) : M uint8x3 :=
  sx ← get_x source_image;
  let x := sample_coord u sx in
  xint ← lift (sample_int x);
  let xfract := sample_fract x in
  sy ← get_y source_image;
  let y := sample_coord v sy in
  yint ← lift (sample_int y);
  let yfract := sample_fract y in
  bicubic_at source_image xint xfract yint yfract.

(** [(long)((double)(source_image->x)*scale)] stored in an [int]. *)
Definition scaled_size (size : Z) (scale : D) : option Z :=
  n ← d_cast (- 2 ^ 63) (2 ^ 63 - 1) (d_of_Z size * scale);
  Some (int32 n).

(** [(double)x / (double)(destination_image->x - 1)] *)
Definition normalized (x size : Z) : D :=
  d_of_Z x / d_of_Z (int32 (size - 1)).

(** [void resize_image(PPMImage *source_image, PPMImage *destination_image, double scale)].
    The two [printf] of the dimensions, and the output under [debug], which
    is 0 throughout, leave the memory alone and are left out. *)
Definition resize_image (source_image destination_image : ptr) (scale : D)
    : M unit :=
  sx ← get_x source_image;
  dx ← lift (scaled_size sx scale);
  set_x destination_image dx ;;
  sy ← get_y source_image;
  dy ← lift (scaled_size sy scale);
  set_y destination_image dy ;;
  dy ← get_y destination_image;
  for_upto dy (fun y =>
    dy ← get_y destination_image;
    let v := normalized y dy in
    dx ← get_x destination_image;
    for_upto dx (fun x =>
      dx ← get_x destination_image;
      let u := normalized x dx in
      sample ← sample_bicubic source_image u v;
      dx ← get_x destination_image;
      update_pixel destination_image (int32 (x + int32 (dx * y)))
        (set_red (elt0 sample)) ;;
      dx ← get_x destination_image;
      update_pixel destination_image (int32 (x + int32 (dx * y)))
        (set_green (elt1 sample)) ;;
      dx ← get_x destination_image;
      update_pixel destination_image (int32 (x + int32 (dx * y)))
        (set_blue (elt2 sample)))).

End Bicubic.

(* ===================================================================== *)
(** ** Allocation of the destination and the 2x box downsample *)
(* ===================================================================== *)

Section Allocation.
Context {D : Type} `{Double D}.

(** What freshly allocated memory holds: the two [int] fields of the new
    [PPMImage] and the pixels of its block are indeterminate. *)
Variable junk_x junk_y : Z.
Variable junk_pixel : nat -> PPMPixel.

(** The argument of the second [malloc] of [init_destination_image],
    [source->x*(scale+.1)*source->y*(scale+.5)*sizeof(PPMPixel)], as the
    [size_t] that [malloc] receives. *)
Definition destination_bytes (sx sy : Z) (scale : D) : option Z :=
  d_cast 0 (2 ^ 64 - 1)
    (d_of_Z sx * (scale + d_lit 1 10) * d_of_Z sy * (scale + d_lit 1 2)
     * d_of_Z sizeof_PPMPixel)%D.

(** [static PPMImage *init_destination_image(PPMImage *source, double scale)]:
    the new image has room for as many whole pixels as the bytes requested. *)
Definition init_destination_image (source : ptr) (scale : D) : M ptr :=
  sx ← get_x source;
  sy ← get_y source;
  n ← lift (destination_bytes sx sy scale);
  alloc {| img_x := junk_x; img_y := junk_y;
           img_data := map junk_pixel (seq 0 (Z.to_nat (n / sizeof_PPMPixel))) |}.

(** The four statements of [resize2] for one channel of one destination
    pixel: an assignment and three [+=], each stored as an [unsigned char].
    [a], [b], [c], [d] are the source bytes in the order of the statements. *)
Definition box_channel (a b c d : Z) : Z :=
  let v := uint8 (Z.quot a 4) in
  let v := uint8 (v + Z.quot b 4) in
  let v := uint8 (v + Z.quot c 4) in
  uint8 (v + Z.quot d 4).

(** [destination_image->data[i].red = source_image->data[j].red/4] and the
    like: the channel [get] of the source pixel [j] assigned to, or added
    into, the destination pixel [i] through [set]. *)
Definition box_assign (destination_image source_image : ptr) (i j : Z)
    (get : PPMPixel -> Z) (set : Z -> PPMPixel -> PPMPixel) : M unit :=
  s ← load_pixel source_image j;
  update_pixel destination_image i (set (Z.quot (get s) 4)).
Definition box_add (destination_image source_image : ptr) (i j : Z)
    (get : PPMPixel -> Z) (set : Z -> PPMPixel -> PPMPixel) : M unit :=
  s ← load_pixel source_image j;
  update_pixel destination_image i (fun p => set (get p + Z.quot (get s) 4) p).

(** The four statements of one channel. *)
Definition box_statements (destination_image source_image : ptr) (x y : Z)
    (get : PPMPixel -> Z) (set : Z -> PPMPixel -> PPMPixel) : M unit :=
  dx ← get_x destination_image;
  sx ← get_x source_image;
  box_assign destination_image source_image
    (int32 (x + int32 (dx * y)))
    (int32 (int32 (2 * x) + int32 (int32 (sx * 2) * y))) get set ;;
  dx ← get_x destination_image;
  sx ← get_x source_image;
  box_add destination_image source_image
    (int32 (x + int32 (dx * y)))
    (int32 (int32 (int32 (2 * x) + 1) + int32 (int32 (sx * 2) * y))) get set ;;
  dx ← get_x destination_image;
  sx ← get_x source_image;
  box_add destination_image source_image
    (int32 (x + int32 (dx * y)))
    (int32 (int32 (2 * x) + int32 (sx * int32 (int32 (2 * y) + 1)))) get set ;;
  dx ← get_x destination_image;
  sx ← get_x source_image;
  box_add destination_image source_image
    (int32 (x + int32 (dx * y)))
    (int32 (int32 (int32 (2 * x) + 1) + int32 (sx * int32 (int32 (2 * y) + 1))))
    get set.

(** [PPMImage *resize2(PPMImage *source_image)] *)
Definition resize2 (source_image : ptr) : M ptr :=
  destination_image ← init_destination_image source_image (d_lit 1 2);
  sx ← get_x source_image;
  set_x destination_image (Z.quot sx 2) ;;
  sy ← get_y source_image;
  set_y destination_image (Z.quot sy 2) ;;
  dy ← get_y destination_image;
  for_upto dy (fun y =>
    dx ← get_x destination_image;
    for_upto dx (fun x =>
      box_statements destination_image source_image x y red set_red ;;
      box_statements destination_image source_image x y green set_green ;;
      box_statements destination_image source_image x y blue set_blue)) ;;
  mret destination_image.

End Allocation.

(* ===================================================================== *)
(** ** The driver *)
(* ===================================================================== *)

(** What the program does to the world outside its memory.  [WritePPM]
    carries what [writePPM] puts in the file: the dimensions and the first
    [x * y] pixels of the block. *)
Inductive event : Type :=
  | Printf (text : string)
  | Remove (path : string)
  | ReadPPM (path : string)
  | WritePPM (path : string) (x y : Z) (pixels : list PPMPixel).

Section Driver.
Context {D : Type} `{Double D}.

Variable junk_x junk_y : Z.
Variable junk_pixel : nat -> PPMPixel.

(** The C library and the file system, which are not part of the program:
    [atof], whether [remove] of a path returns 0, what [readPPM] decodes from
    a path (nothing when it exits with status 1), and whether [writePPM] can
    open a path for writing. *)
Variable atof : string -> D.
Variable remove_succeeds : string -> bool.
Variable readPPM : string -> option PPMImage.
Variable writable : string -> bool.

Definition usage (prog : string) : list event :=
  [ Printf "This program resamples PPM images up or down using cubic resampling";
    Printf "or a quick 2x down sample";
    Printf ("Syntax is  " ++ prog ++ " factor infile  outfile");
    Printf "    factor - '2x' or a floating point number";
    Printf ("  eg  " ++ prog ++ "  0.5  in.ppm  out.ppm");
    Printf ("      " ++ prog ++ "  2x   in.ppm  out.ppm") ]%string.

(** The resampling step of [main] on the heap: the source is the decoded
    image; the result is the destination image as [writePPM] sees it. *)
Definition resample (factor : string) (scale : D) (img : PPMImage) : M PPMImage :=
  source_image ← alloc img;
  destination_image ←
    (if String.eqb factor "2x"
     then resize2 junk_x junk_y junk_pixel source_image
     else
       d ← init_destination_image junk_x junk_y junk_pixel source_image scale;
       resize_image source_image d scale ;;
       mret d);
  deref destination_image.

(** [int main(int argc, char *argv[])]: the exit status and the events in
    order; no result when the resampling has undefined behaviour. *)
Definition main (argv : list string) : option (Z * list event) :=
  match argv with
  | [prog; factor; infile; outfile] =>
      let scale := atof factor in
      let t := [Printf "Starting..."] in
      if negb (String.eqb factor "2x") && d_leb scale (d_of_Z 0)
      then Some (99, t ++ [Printf "error scale must be positive"])
      else
        let t := t ++ [Remove outfile] ++
                 (if remove_succeeds outfile
                  then [Printf ("Deleting old image " ++ outfile ++ "...")%string]
                  else []) in
        let t := t ++ [ReadPPM infile] in
        match readPPM infile with
        | None => Some (1, t)
        | Some img =>
            let t := t ++ (if String.eqb factor "2x"
                           then [Printf "Using quick 2X downsample"] else []) in
            match resample factor scale img ∅ with
            | None => None
            | Some (out, _) =>
                if writable outfile
                then Some (0, t ++ [WritePPM outfile (img_x out) (img_y out)
                                      (take (Z.to_nat (img_x out * img_y out))
                                            (img_data out))])
                else Some (1, t)
            end
        end
  | _ => Some (99, usage (hd ""%string argv))
  end.

End Driver.

(* ===================================================================== *)
(** ** Buffers as the specification sees them *)
(* ===================================================================== *)

(** A channel value that fits its 8 bits. *)
Definition channel_ok (v : Z) : Prop := 0 <= v <= 255.

Definition pixel_ok (p : PPMPixel) : Prop :=
  channel_ok (red p) /\ channel_ok (green p) /\ channel_ok (blue p).

(** A pixel buffer: positive dimensions, one pixel per coordinate, and a
    pixel count that an [int] holds (the program computes [x * y] and the
    indices below it in [int]). *)
Record buffer_ok (i : PPMImage) : Prop := {
  buffer_x : 0 < img_x i;
  buffer_y : 0 < img_y i;
  buffer_int : img_x i * img_y i <= INT_MAX;
  buffer_length : Z.of_nat (length (img_data i)) = img_x i * img_y i
}.

(** A decoded image: a buffer whose samples are bytes. *)
Definition image_ok (i : PPMImage) : Prop :=
  buffer_ok i /\ Forall pixel_ok (img_data i).

(** The pixel at column [x] of row [y]: index [y*width + x]. *)
Definition pixel_at (i : PPMImage) (x y : Z) : option PPMPixel :=
  img_data i !! Z.to_nat (x + img_x i * y).

(** [clamp(v, lo, hi)] of the specification. *)
Definition clamp (v lo hi : Z) : Z := Z.max lo (Z.min v hi).

(** The bytes of a pixel as [get_pixel_clamped] hands them out. *)
Definition bytes_of (p : PPMPixel) : uint8x3 := (red p, green p, blue p).

(** [floor(a/4) + floor(b/4) + floor(c/4) + floor(d/4)] *)
Definition quarter_sum (a b c d : Z) : Z := a / 4 + b / 4 + c / 4 + d / 4.

(** The destination pixel that the specification of the 2x box downsample
    gives for the four source pixels under it. *)
Definition box_pixel (a b c d : PPMPixel) : PPMPixel :=
  {| red := quarter_sum (red a) (red b) (red c) (red d);
     green := quarter_sum (green a) (green b) (green c) (green d);
     blue := quarter_sum (blue a) (blue b) (blue c) (blue d) |}.

(** The block that [init_destination_image] returns has room for [pixels]
    pixels. *)
Definition destination_fits {D} `{Double D} (sx sy : Z) (scale : D)
    (pixels : Z) : Prop :=
  exists n, destination_bytes sx sy scale = Some n /\
            pixels <= n / sizeof_PPMPixel.

(** A computation changes, of the objects of the heap, only those at the
    pointers in [P]. *)
Definition changes_only {A} (P : ptr -> Prop) (m : M A) : Prop :=
  forall h a h', m h = Some (a, h') ->
  forall p, ~ P p -> h' !! p = h !! p.

(** The heap [h] with, at [p], an image of the given dimensions and block. *)
Definition with_image (h : heap) (p : ptr) (x y : Z) (pixels : list PPMPixel)
    : heap :=
  <[p := {| img_x := x; img_y := y; img_data := pixels |}]> h.

(** The pixel at a coordinate known to be in the buffer. *)
Definition pixel_of (i : PPMImage) (x y : Z) : PPMPixel :=
  default {| red := 0; green := 0; blue := 0 |} (pixel_at i x y).

(** The destination pixel [(x,y)] of the 2x box downsample of [i], by the
    specification. *)
Definition box_of (i : PPMImage) (x y : Z) : PPMPixel :=
  box_pixel (pixel_of i (2 * x) (2 * y)) (pixel_of i (2 * x + 1) (2 * y))
            (pixel_of i (2 * x) (2 * y + 1)) (pixel_of i (2 * x + 1) (2 * y + 1)).

(** A destination block of width [dw] whose first [k] pixels, in row-major
    order, are those of the 2x box downsample of [i]. *)
Definition box_filled (i : PPMImage) (dw : Z) (size : nat) (k : Z)
    (pixels : list PPMPixel) : Prop :=
  length pixels = size /\
  forall j, 0 <= j < k -> pixels !! Z.to_nat j = Some (box_of i (j mod dw) (j / dw)).

(** An event that touches a file. *)
Definition touches_file (e : event) : Prop :=
  match e with
  | Printf _ => False
  | _ => True
  end.

(** *** The buffers of the scenarios *)

Definition rgb (r g b : Z) : PPMPixel := {| red := r; green := g; blue := b |}.

(** The 4x4 buffer in which every pixel is (200,100,50). *)
Definition uniform_4x4 : PPMImage :=
  {| img_x := 4; img_y := 4; img_data := replicate 16 (rgb 200 100 50) |}.

(** The 2x2 buffer with pixels (0,0,0), (255,255,255), (255,0,0), (0,255,0). *)
Definition corners_2x2 : PPMImage :=
  {| img_x := 2; img_y := 2;
     img_data := [rgb 0 0 0; rgb 255 255 255; rgb 255 0 0; rgb 0 255 0] |}.

(** A 1x1 buffer. *)
Definition single_1x1 : PPMImage :=
  {| img_x := 1; img_y := 1; img_data := [rgb 10 20 30] |}.

(** A C library whose [atof] reads "-1" as -1 and anything else as 0, and a
    file system in which every path holds the 2x2 image and can be removed
    and written. *)
Definition atof_example (s : string) : float :=
  if String.eqb s "-1" then (-1)%float else 0%float.
Definition main_example (argv : list string) : option (Z * list event) :=
  main 0 0 (fun _ => rgb 0 0 0) atof_example (fun _ => true)
    (fun _ => Some corners_2x2) (fun _ => true) argv.

(* ===================================================================== *)
(** ** The samplers as functions of the source image *)
(* ===================================================================== *)

(** [get_pixel_clamped] read on the image that its pointer designates:
    the same clamping, index and read, without the heap. *)
Definition edge_pixel (i : PPMImage) (x y : Z) : option uint8x3 :=
  let x := CLAMP x 0 (int32 (img_x i - 1)) in
  let y := CLAMP y 0 (int32 (img_y i - 1)) in
  let k := int32 (x + int32 (img_x i * y)) in
  if k <? 0 then None else bytes_of <$> img_data i !! Z.to_nat k.

(** [gather_row] on the image. *)
Definition edge_row (i : PPMImage) (xint y : Z) : option row4 :=
  pA ← edge_pixel i (int32 (xint - 1)) y;
  pB ← edge_pixel i (int32 (xint + 0)) y;
  pC ← edge_pixel i (int32 (xint + 1)) y;
  pD ← edge_pixel i (int32 (xint + 2)) y;
  Some (pA, pB, pC, pD).

Section SamplerOfImage.
Context {D : Type} `{Double D}.

(** [bicubic_at] on the image. *)
Definition bicubic_of (i : PPMImage) (xint : Z) (xfract : D)
    (yint : Z) (yfract : D) : option uint8x3 :=
  r0 ← edge_row i xint (int32 (yint - 1));
  r1 ← edge_row i xint (int32 (yint + 0));
  r2 ← edge_row i xint (int32 (yint + 1));
  r3 ← edge_row i xint (int32 (yint + 2));
  s0 ← bicubic_channel elt0 r0 r1 r2 r3 xfract yfract;
  s1 ← bicubic_channel elt1 r0 r1 r2 r3 xfract yfract;
  s2 ← bicubic_channel elt2 r0 r1 r2 r3 xfract yfract;
  Some (s0, s1, s2).

(** [sample_bicubic] on the image. *)
Definition sample_of (i : PPMImage) (u v : D) : option uint8x3 :=
  let x := sample_coord u (img_x i) in
  xint ← sample_int x;
  let y := sample_coord v (img_y i) in
  yint ← sample_int y;
  bicubic_of i xint (sample_fract x) yint (sample_fract y).

End SamplerOfImage.

(** The pixel that [resize_image] stores from a sample. *)
Definition pixel_of_sample (s : uint8x3) : PPMPixel :=
  {| red := elt0 s; green := elt1 s; blue := elt2 s |}.

(** The pixel that [resize_image] computes for the destination index [j] of
    a [dw] by [dh] destination, in row-major order. *)
Definition resized_pixel {D} `{Double D} (i : PPMImage) (dw dh : Z) (j : Z)
    : PPMPixel :=
  pixel_of_sample
    (default (0, 0, 0)
       (sample_of i (normalized (j mod dw) dw) (normalized (j / dw) dh))).

(** A destination block, allocated as [old], whose first [k] pixels in
    row-major order are those that [resize_image] computes and whose other
    pixels are as allocated. *)
Definition resize_filled {D} `{Double D} (i : PPMImage) (dw dh : Z)
    (old : list PPMPixel) (k : Z) (pixels : list PPMPixel) : Prop :=
  length pixels = length old /\
  (forall j, 0 <= j < k ->
     pixels !! Z.to_nat j = Some (resized_pixel i dw dh j)) /\
  (forall j, k <= j -> pixels !! Z.to_nat j = old !! Z.to_nat j).

(* ===================================================================== *)
(** ** Flat neighbourhoods in binary64 *)
(* ===================================================================== *)




(** The coefficients [a], [b] and [c] of [cubic_hermite]. *)
Section Coefficients.
Context {D : Type} `{Double D}.
Local Open Scope double_scope.


End Coefficients.


(* ===================================================================== *)
(** ** PPM files: [readPPM] and [writePPM] *)
(* ===================================================================== *)

(** The contents of a file are its bytes, and a stream open for reading is
    the list of the bytes not yet read.  The characters that the two
    functions name: *)
Definition newline : byte := "010"%byte.
Definition space : byte := " "%byte.
Definition hash : byte := "#"%byte.

(** The value of a byte as an [unsigned char], and the byte that holds an
    [unsigned char]. *)
Definition Z_of_byte (b : byte) : Z := Z.of_N (Byte.to_N b).
Definition byte_of_Z (v : Z) : byte :=
  default "000"%byte (Byte.of_N (Z.to_N (uint8 v))).

(** *** The C library on a stream *)

(** [fgets(buff, n + 1, fp)]: at most [n] bytes, up to and including the
    first newline; the bytes stored and the rest of the stream. *)
Fixpoint fgets (n : nat) (s : list byte) : list byte * list byte :=
  match n, s with
  | S n', b :: s' =>
      if Byte.eqb b newline then ([b], s')
      else let '(l, r) := fgets n' s' in (b :: l, r)
  | _, _ => ([], s)
  end.

(** [while (fgetc(fp) != '\n');]: the stream after the next newline.  At the
    end of the file [fgetc] returns [EOF] at every call and the loop does not
    end: no result. *)
Fixpoint skip_line (s : list byte) : option (list byte) :=
  match s with
  | [] => None
  | b :: s' => if Byte.eqb b newline then Some s' else skip_line s'
  end.

(** [isspace] in the C locale: space, and the controls from tab to carriage
    return. *)
Definition isspace (b : byte) : bool :=
  let n := Z_of_byte b in (n =? 32) || ((9 <=? n) && (n <=? 13)).

(** A decimal digit and its value. *)
Definition isdigit (b : byte) : bool :=
  let n := Z_of_byte b in (48 <=? n) && (n <=? 57).
Definition digit_value (b : byte) : Z := Z_of_byte b - 48.

(** The white space that a conversion of [fscanf] skips. *)
Fixpoint skip_space (s : list byte) : list byte :=
  match s with
  | b :: s' => if isspace b then skip_space s' else s
  | [] => []
  end.

(** The digits of a number, read from the left. *)
Fixpoint scan_digits (v : Z) (s : list byte) : Z * list byte :=
  match s with
  | b :: s' => if isdigit b then scan_digits (10 * v + digit_value b) s' else (v, s)
  | [] => (v, [])
  end.

(** What the conversion [%d] of [fscanf] does: it stores a value and leaves
    the rest of the stream, or it fails to match, or the number read is one
    that an [int] does not hold, which is undefined. *)
Inductive scanned : Type :=
  | Scanned (v : Z) (rest : list byte)
  | NoMatch
  | Overflow.

Definition scan_sign (s : list byte) : bool * list byte :=
  match s with
  | b :: s' =>
      if Byte.eqb b "-"%byte then (true, s')
      else if Byte.eqb b "+"%byte then (false, s')
      else (false, s)
  | [] => (false, [])
  end.

Definition scan_int (s : list byte) : scanned :=
  let '(negative, s) := scan_sign (skip_space s) in
  match s with
  | b :: _ =>
      if isdigit b then
        let '(v, rest) := scan_digits 0 s in
        let v := if negative then - v else v in
        if (INT_MIN <=? v) && (v <=? INT_MAX) then Scanned v rest else Overflow
      else NoMatch
  | [] => NoMatch
  end.

(** The decimal digits of a number that is not negative, in front of [acc];
    [fuel] bounds their number. *)
Fixpoint digits (fuel : nat) (n : Z) (acc : list byte) : list byte :=
  match fuel with
  | O => acc
  | S fuel' =>
      let acc := byte_of_Z (48 + n mod 10) :: acc in
      if n <? 10 then acc else digits fuel' (n / 10) acc
  end.

(** What [fprintf] writes for [%d]: an [int] has at most ten digits. *)
Definition print_int (z : Z) : list byte :=
  if z <? 0 then "-"%byte :: digits 10 (- z) [] else digits 10 z [].

(** *** Pixels in a file *)

(** The pixels that a block filled with the bytes [s] holds. *)
Fixpoint pixels_of_bytes (s : list byte) : list PPMPixel :=
  match s with
  | r :: g :: b :: s' =>
      {| red := Z_of_byte r; green := Z_of_byte g; blue := Z_of_byte b |}
      :: pixels_of_bytes s'
  | _ => []
  end.

(** The bytes of a block of pixels. *)
Definition bytes_of_pixels (l : list PPMPixel) : list byte :=
  flat_map (fun p => [byte_of_Z (red p); byte_of_Z (green p); byte_of_Z (blue p)]) l.

(** *** [readPPM] *)

(** How a call of [readPPM] ends: it returns an image, it leaves the program
    by [exit(1)], it does not end, or its behaviour is undefined. *)
Inductive read_result : Type :=
  | Decoded (img : PPMImage)
  | Exit1
  | Hangs
  | Undefined.

(** The comments:
    [c = getc(fp); while (c == '#') { while (getc(fp) != '\n'); c = getc(fp); } ungetc(c, fp);]
    [in_comment] tells the inner loop from the outer one.  The stream that is
    left, or no result when a comment has no newline: at the end of the file
    the inner loop does not end. *)
Fixpoint skip_comments (in_comment : bool) (s : list byte) : option (list byte) :=
  match s with
  | [] => if in_comment then None else Some []
  | b :: s' =>
      if in_comment
      then skip_comments (negb (Byte.eqb b newline)) s'
      else if Byte.eqb b hash then skip_comments true s' else Some s
  end.

(** The allocation of the block and the [fread] of the rows:
    [malloc(img->x * img->y * sizeof(PPMPixel))] and
    [fread(img->data, 3 * img->x, img->y, fp) != img->y].  The products are
    computed in [int]; a negative dimension becomes a huge [size_t].  With a
    size or a count of zero [fread] reads nothing and returns 0. *)
Definition read_pixels (x y : Z) (s : list byte) : read_result :=
  if (x <? 0) || (y <? 0) then Undefined
  else if (INT_MAX <? x * y) || (INT_MAX <? 3 * x) then Undefined
  else if (x =? 0) || (y =? 0) then
    if y =? 0 then Decoded {| img_x := x; img_y := y; img_data := [] |} else Exit1
  else if Z.of_nat (length s) <? 3 * x * y then Exit1
  else Decoded {| img_x := x; img_y := y;
                  img_data := pixels_of_bytes (take (Z.to_nat (3 * x * y)) s) |}.

(** The part of [readPPM] below the check of the format. *)
Definition read_header (s : list byte) : read_result :=
  match skip_comments false s with
  | None => Hangs
  | Some s =>
      match scan_int s with
      | NoMatch => Exit1
      | Overflow => Undefined
      | Scanned x s =>
          match scan_int s with
          | NoMatch => Exit1
          | Overflow => Undefined
          | Scanned y s =>
              match scan_int s with
              | NoMatch => Exit1
              | Overflow => Undefined
              | Scanned rgb_comp_color s =>
                  if negb (rgb_comp_color =? 255) then Exit1
                  else
                    match skip_line s with
                    | None => Hangs
                    | Some s => read_pixels x y s
                    end
              end
          end
      end
  end.

(** [static PPMImage *readPPM(const char *filename)] on the bytes of the
    file.  [fgets] stores at most 255 bytes of the first line and a NUL after
    them. *)
Definition readPPM_bytes (s : list byte) : read_result :=
  let '(buff, s) := fgets 255 s in
  match buff ++ ["000"%byte] with
  | [_] => Exit1
  | b0 :: b1 :: _ =>
      if negb (Byte.eqb b0 "P"%byte) || negb (Byte.eqb b1 "6"%byte) then Exit1
      else read_header s
  | [] => Exit1
  end.

(** *** [writePPM] *)

(** [fwrite(img->data, 3 * img->x, img->y, fp)]: nothing with a size or a
    count of zero, and no result when the rows are more than the block
    holds. *)
Definition fwrite_pixels (img : PPMImage) : option (list byte) :=
  let x := img_x img in
  let y := img_y img in
  if (3 * x <? INT_MIN) || (INT_MAX <? 3 * x) then None
  else if (x =? 0) || (y =? 0) then Some []
  else if (x <? 0) || (y <? 0) then None
  else if Z.of_nat (length (img_data img)) <? x * y then None
  else Some (bytes_of_pixels (take (Z.to_nat (x * y)) (img_data img))).

(** The four [fprintf] of the header, for the dimensions [x] and [y] and the
    maximum [maxval], and the pixel data after them. *)
Definition ppm_magic : list byte := list_byte_of_string "P6" ++ [newline].
Definition ppm_creator : list byte :=
  list_byte_of_string "# Created by FELIXKLEMM" ++ [newline].
Definition ppm_file (x y maxval : Z) (data : list byte) : list byte :=
  ppm_magic ++ ppm_creator
  ++ print_int x ++ [space] ++ print_int y ++ [newline]
  ++ print_int maxval ++ [newline]
  ++ data.

(** [void writePPM(const char *filename, PPMImage *img)]: the bytes of the
    file that it leaves. *)
Definition writePPM_bytes (img : PPMImage) : option (list byte) :=
  ppm_file (img_x img) (img_y img) 255 <$> fwrite_pixels img.

(** A stream that does not begin with a digit, and a stretch of bytes
    without a newline. *)
Definition no_digit_ahead (s : list byte) : Prop :=
  match s with
  | b :: _ => isdigit b = false
  | [] => True
  end.
Definition no_newline (s : list byte) : Prop :=
  Forall (fun b => Byte.eqb b newline = false) s.

(* ===================================================================== *)
(** ** The driver on a file system *)
(* ===================================================================== *)

(** The files, by path, with their contents: a path names one file, and
    different paths name different files. *)
Abbreviation files := (gmap string (list byte)).

(** [readPPM(filename)]: [fopen] fails on a path that names no file. *)
Definition readPPM (fs : files) (filename : string) : read_result :=
  match fs !! filename with
  | None => Exit1
  | Some s => readPPM_bytes s
  end.

(** [writePPM(filename, img)] on a path that can be opened for writing: the
    file system that it leaves. *)
Definition writePPM (fs : files) (filename : string) (img : PPMImage)
    : option files :=
  s ← writePPM_bytes img; Some (<[filename := s]> fs).

(** How a run of the program ends: it returns or exits with a status, it
    does not end, or its behaviour is undefined. *)
Inductive outcome : Type :=
  | Exits (status : Z) (fs : files)
  | NoReturn (fs : files)
  | Undef.

Section DriverFiles.
Context {D : Type} `{Double D}.

Variable junk_x junk_y : Z.
Variable junk_pixel : nat -> PPMPixel.
Variable atof : string -> D.
Variable writable : string -> bool.

(** [main] with [remove], [readPPM] and [writePPM] acting on the files;
    what it prints is left out. *)
Definition main_files (fs : files) (argv : list string) : outcome :=
  match argv with
  | [prog; factor; infile; outfile] =>
      let scale := atof factor in
      if negb (String.eqb factor "2x") && d_leb scale (d_of_Z 0)
      then Exits 99 fs
      else
        let fs := delete outfile fs in
        match readPPM fs infile with
        | Exit1 => Exits 1 fs
        | Hangs => NoReturn fs
        | Undefined => Undef
        | Decoded img =>
            match resample junk_x junk_y junk_pixel factor scale img ∅ with
            | None => Undef
            | Some (out, _) =>
                if writable outfile
                then match writePPM fs outfile out with
                     | Some fs => Exits 0 fs
                     | None => Undef
                     end
                else Exits 1 fs
            end
        end
  | _ => Exits 99 fs
  end.

End DriverFiles.

(** The 2x box downsample of an image, by the specification: half the
    dimensions, and the box pixels in row-major order. *)
Definition box_image (i : PPMImage) : PPMImage :=
  let dw := img_x i / 2 in
  let dh := img_y i / 2 in
  {| img_x := dw; img_y := dh;
     img_data := (fun j => box_of i (j mod dw) (j / dw)) <$> seqZ 0 (dw * dh) |}.

(** Comment lines: each a [#], text without a newline, and a newline. *)
Definition comment_lines (lines : list (list byte)) : list byte :=
  concat ((fun text => hash :: text ++ [newline]) <$> lines).

(** A stretch of white space. *)
Definition white (s : list byte) : Prop := Forall (fun b => isspace b = true) s.

(* ===================================================================== *)
(** ** Properties of the kernel and of the coordinates *)
(* ===================================================================== *)


(** C1 (the code departs from the claim). At [u = 0] on a source two pixels
    wide the fractional coordinate is [x = -0.5]; its floor is [-1] and the
    fractional offset [x - floor(x)] is [0.5], but the base index
    [(int)x] is [0]: the cast rounds toward zero, so the neighbourhood is not
    anchored at the floor of a negative coordinate. *)
Theorem sample_int_truncates :
  let x := sample_coord 0%float 2 in
  x = (-0.5)%float /\
  sample_int x = Some 0 /\
  d_floor x = (-1)%float /\
  sample_fract x = 0.5%float.
Proof. vm_compute. repeat split; reflexivity. Qed.

(** In binary64 the fractional offset can round up to [1]: with [u] the
    double just below [0.5] and a source one pixel wide, [x] is [-2^-54],
    [floor(x)] is [-1], and [x - floor(x)] rounds to [1]. *)
Lemma sample_fract_rounds_to_one :
  let x := sample_coord (PrimFloat.next_down 0.5%float) 1 in
  PrimFloat.ltb x 0%float = true /\
  d_floor x = (-1)%float /\
  sample_fract x = 1%float.
Proof. vm_compute. repeat split; reflexivity. Qed.

(** C4 (the code departs from the claim). With a destination dimension of 1
    the normalized coordinate of its only pixel is [0.0 / 0.0], a NaN:
    nothing special-cases the dimension.  The cast [(int)x] of the sampler
    then has no defined value, so that resizing a 1x1 image by the factor 1
    has no defined result. *)
Theorem normalized_single_is_nan :
  PrimFloat.is_nan (normalized 0 1) = true /\
  d_of_Z (D:=float) (int32 (1 - 1)) = 0%float /\
  sample_int (sample_coord (normalized (D:=float) 0 1) 1) = None /\
  forall junk_x junk_y junk_pixel,
    resample junk_x junk_y junk_pixel "1.0" 1%float single_1x1 ∅ = None.
Proof. vm_compute. repeat split; reflexivity. Qed.

(** C3 (the code departs from the claim). Resizing the 2x2 image of the
    scenario by the factor 1.0 gives a 2x2 destination, but of its four
    pixels only the last one, (0,255,0), is the source pixel: the first
    three are (127,127,63), (127,255,135) and (127,127,0).  Anchored at the
    floor of the coordinates, that is at [-1] where the code uses [0], the
    same interpolation returns the four source pixels. *)
Theorem resize_corners_factor_one :
  (forall junk_x junk_y junk_pixel,
     fst <$> resample junk_x junk_y junk_pixel "1.0" 1%float corners_2x2 ∅ =
     Some {| img_x := 2; img_y := 2;
             img_data := [rgb 127 127 63; rgb 127 255 135;
                          rgb 127 127 0; rgb 0 255 0;
                          junk_pixel 4%nat; junk_pixel 5%nat] |}) /\
  (let h : heap := {[ 0%nat := corners_2x2 ]} in
   fst <$> bicubic_at 0%nat (-1) 0.5%float (-1) 0.5%float h = Some (0, 0, 0) /\
   fst <$> bicubic_at 0%nat 1 0.5%float (-1) 0.5%float h = Some (255, 255, 255) /\
   fst <$> bicubic_at 0%nat (-1) 0.5%float 1 0.5%float h = Some (255, 0, 0) /\
   fst <$> bicubic_at 0%nat 1 0.5%float 1 0.5%float h = Some (0, 255, 0)).
Proof. split; [intros; vm_compute; reflexivity |]. vm_compute. repeat split; reflexivity. Qed.

(* ===================================================================== *)
(** ** The driver rejects a factor that is not positive *)
(* ===================================================================== *)

Section DriverFacts.
Context {D : Type} `{Double D}.
Variable junk_x junk_y : Z.
Variable junk_pixel : nat -> PPMPixel.
Variable atof : string -> D.
Variable remove_succeeds : string -> bool.
Variable readPPM : string -> option PPMImage.
Variable writable : string -> bool.

(** C8. When the scale argument is not "2x" and [atof] reads it as a value
    [<= 0], [main] prints the error, returns the status 99, and has done
    nothing but print: no file was removed, read or written. *)
Theorem main_rejects_nonpositive_scale (prog factor infile outfile : string) :
  factor <> "2x"%string ->
  d_leb (atof factor) (d_of_Z 0) = true ->
  main junk_x junk_y junk_pixel atof remove_succeeds readPPM writable
    [prog; factor; infile; outfile]
  = Some (99, [Printf "Starting..."; Printf "error scale must be positive"]) /\
  Forall (fun e => ~ touches_file e)
    [Printf "Starting..."; Printf "error scale must be positive"].
Proof.
  intros Hne Hle. split.
  - unfold main. destruct (String.eqb factor "2x") eqn:E.
    + apply String.eqb_eq in E. contradiction.
    + cbn. rewrite Hle. reflexivity.
  - repeat constructor; cbn; tauto.
Qed.

End DriverFacts.

(** The arguments "-1" and "0" are rejected in this way. *)
Lemma main_rejects_minus_one :
  ("-1" <> "2x")%string /\
  d_leb (atof_example "-1") (d_of_Z 0) = true /\
  main_example ["imgResample"; "-1"; "in.ppm"; "out.ppm"]%string
  = Some (99, [Printf "Starting..."; Printf "error scale must be positive"]).
Proof.
  assert (Hne : ("-1" <> "2x")%string) by discriminate.
  assert (Hle : d_leb (atof_example "-1") (d_of_Z 0) = true) by reflexivity.
  split; [exact Hne | split; [exact Hle |]].
  exact (proj1 (main_rejects_nonpositive_scale 0 0 (fun _ => rgb 0 0 0)
                  atof_example (fun _ => true) (fun _ => Some corners_2x2)
                  (fun _ => true) "imgResample" "-1" "in.ppm" "out.ppm"
                  Hne Hle)).
Defined.

(* ===================================================================== *)
(** ** Integers and the steps of the heap monad *)
(* ===================================================================== *)

Lemma int32_id (z : Z) : INT_MIN <= z <= INT_MAX -> int32 z = z.
Proof.
  unfold INT_MIN, INT_MAX, int32. intros Hz.
  rewrite Z.mod_small; lia.
Qed.

Lemma CLAMP_clamp (v lo hi : Z) : lo <= hi -> CLAMP v lo hi = clamp v lo hi.
Proof.
  unfold CLAMP, clamp. intros Hle.
  destruct (Z.ltb_spec v lo); [lia |].
  destruct (Z.gtb_spec v hi); lia.
Qed.

Lemma clamp_range (v lo hi : Z) : lo <= hi -> lo <= clamp v lo hi <= hi.
Proof. unfold clamp. lia. Qed.

Lemma bind_run {A B} (m : M A) (f : A -> M B) (h : heap) :
  (m ≫= f) h = match m h with Some (a, h') => f a h' | None => None end.
Proof. reflexivity. Qed.

Lemma ret_run {A} (a : A) (h : heap) : mret (M:=M) a h = Some (a, h).
Proof. reflexivity. Qed.

Lemma deref_run (p : ptr) (i : PPMImage) (h : heap) :
  h !! p = Some i -> deref p h = Some (i, h).
Proof. unfold deref. intros ->. reflexivity. Qed.

Lemma get_x_run (p : ptr) (i : PPMImage) (h : heap) :
  h !! p = Some i -> get_x p h = Some (img_x i, h).
Proof. intros Hp. unfold get_x. rewrite bind_run, (deref_run _ _ _ Hp). reflexivity. Qed.

Lemma get_y_run (p : ptr) (i : PPMImage) (h : heap) :
  h !! p = Some i -> get_y p h = Some (img_y i, h).
Proof. intros Hp. unfold get_y. rewrite bind_run, (deref_run _ _ _ Hp). reflexivity. Qed.

Lemma load_pixel_run (p : ptr) (i : PPMImage) (h : heap) (k : Z) (px : PPMPixel) :
  h !! p = Some i -> 0 <= k -> img_data i !! Z.to_nat k = Some px ->
  load_pixel p k h = Some (px, h).
Proof.
  intros Hp Hk Hpx. unfold load_pixel.
  rewrite bind_run, (deref_run _ _ _ Hp).
  destruct (Z.ltb_spec k 0); [lia |].
  rewrite Hpx. reflexivity.
Qed.

(** In a buffer, every coordinate within the dimensions has its pixel, at
    an index that an [int] holds. *)
Lemma buffer_index (i : PPMImage) (x y : Z) :
  buffer_ok i -> 0 <= x < img_x i -> 0 <= y < img_y i ->
  0 <= x + img_x i * y < img_x i * img_y i /\
  0 <= img_x i * y <= INT_MAX /\
  is_Some (pixel_at i x y).
Proof.
  intros [Hx Hy Hint Hlen] Hxr Hyr.
  assert (0 <= x + img_x i * y < img_x i * img_y i) by nia.
  split; [assumption |]. split; [nia |].
  unfold pixel_at. apply lookup_lt_is_Some. lia.
Qed.

(* ===================================================================== *)
(** ** The edge sampler *)
(* ===================================================================== *)

(** C6. On a pixel buffer, for all integers [x] and [y], the edge sampler
    returns, and leaves the heap as it was; what it returns are the bytes of
    the pixel stored at index [clamp(x,0,width-1) + width*clamp(y,0,height-1)],
    an index inside the buffer. *)
Theorem get_pixel_clamped_in_bounds (h : heap) (p : ptr) (i : PPMImage) (x y : Z) :
  h !! p = Some i ->
  buffer_ok i ->
  let k := clamp x 0 (img_x i - 1) + img_x i * clamp y 0 (img_y i - 1) in
  0 <= k < Z.of_nat (length (img_data i)) /\
  exists px, img_data i !! Z.to_nat k = Some px /\
             get_pixel_clamped p x y h = Some (bytes_of px, h).
Proof.
  intros Hp Hok k.
  pose proof Hok as [Hx Hy Hint Hlen].
  assert (Hcx := clamp_range x 0 (img_x i - 1) ltac:(lia)).
  assert (Hcy := clamp_range y 0 (img_y i - 1) ltac:(lia)).
  destruct (buffer_index i _ _ Hok
              ltac:(instantiate (1 := clamp x 0 (img_x i - 1)); lia)
              ltac:(instantiate (1 := clamp y 0 (img_y i - 1)); lia))
    as (Hk & Hrow & [px Hpx]).
  fold k in Hk. unfold pixel_at in Hpx. fold k in Hpx.
  assert (Hxy : img_x i <= img_x i * img_y i /\ img_y i <= img_x i * img_y i) by nia.
  split; [lia |].
  exists px. split; [exact Hpx |].
  unfold get_pixel_clamped.
  rewrite bind_run, (get_x_run _ _ _ Hp).
  rewrite bind_run, (get_y_run _ _ _ Hp).
  rewrite bind_run, (get_x_run _ _ _ Hp).
  rewrite !(int32_id (_ - 1)) by (unfold INT_MIN, INT_MAX in *; lia).
  rewrite !CLAMP_clamp by lia.
  rewrite (int32_id (img_x i * _)) by (unfold INT_MIN, INT_MAX in *; lia).
  rewrite int32_id by (unfold INT_MIN, INT_MAX in *; lia).
  fold k.
  rewrite bind_run, (load_pixel_run _ _ _ _ _ Hp (proj1 Hk) Hpx).
  reflexivity.
Qed.

(** A 2x2 buffer read far outside on both sides. *)
Lemma get_pixel_clamped_example :
  let h : heap := {[ 0%nat := corners_2x2 ]} in
  get_pixel_clamped 0%nat (-7) 100 h = Some ((255, 0, 0), h).
Proof.
  intros h.
  assert (Hp : h !! 0%nat = Some corners_2x2) by reflexivity.
  assert (Hok : buffer_ok corners_2x2)
    by (split; cbn; unfold INT_MAX; lia).
  destruct (get_pixel_clamped_in_bounds h 0%nat corners_2x2 (-7) 100 Hp Hok)
    as (_ & px & Hpx & Hrun).
  cbn in Hpx. injection Hpx as <-. exact Hrun.
Defined.

(* ===================================================================== *)
(** ** What the resamplers write *)
(* ===================================================================== *)

Create HintDb frame.

Lemma changes_only_ret {A} (P : ptr -> Prop) (a : A) : changes_only P (mret a).
Proof. intros h a' h' Hrun p _. injection Hrun as _ <-. reflexivity. Qed.

Lemma changes_only_lift {A} (P : ptr -> Prop) (o : option A) :
  changes_only P (lift o).
Proof.
  intros h a h' Hrun p _. unfold lift in Hrun.
  destruct o; [injection Hrun as _ <-; reflexivity | discriminate].
Qed.

Lemma changes_only_bind {A B} (P : ptr -> Prop) (m : M A) (f : A -> M B) :
  changes_only P m -> (forall a, changes_only P (f a)) ->
  changes_only P (m ≫= f).
Proof.
  intros Hm Hf h b h' Hrun p Hp. rewrite bind_run in Hrun.
  destruct (m h) as [[a h1] |] eqn:Em; [| discriminate].
  rewrite (Hf a _ _ _ Hrun p Hp). exact (Hm _ _ _ Em p Hp).
Qed.

Lemma changes_only_deref (P : ptr -> Prop) (q : ptr) : changes_only P (deref q).
Proof.
  intros h a h' Hrun p _. unfold deref in Hrun.
  destruct (h !! q); [injection Hrun as _ <-; reflexivity | discriminate].
Qed.

Lemma changes_only_assign (P : ptr -> Prop) (q : ptr) (i : PPMImage) :
  P q -> changes_only P (assign q i).
Proof.
  intros Hq h a h' Hrun p Hp. unfold assign in Hrun.
  destruct (h !! q); [| discriminate].
  injection Hrun as _ <-. apply lookup_insert_ne. intros ->. contradiction.
Qed.

Lemma changes_only_for_each {A} (P : ptr -> Prop) (l : list A) (body : A -> M unit) :
  (forall a, changes_only P (body a)) -> changes_only P (for_each l body).
Proof.
  intros Hbody. induction l as [| a l IH]; cbn [for_each].
  - apply changes_only_ret.
  - apply changes_only_bind; [apply Hbody | intros _; exact IH].
Qed.

#[local] Hint Resolve changes_only_ret changes_only_lift changes_only_deref : frame.

(** Breaks a computation into its steps. *)
Ltac frame :=
  repeat first
    [ apply changes_only_bind; [| intros ? ]
    | apply changes_only_for_each; intros ?
    | solve [ eauto with frame ]
    | match goal with |- changes_only _ (if ?b then _ else _) => destruct b end ].

Lemma changes_only_get_x (P : ptr -> Prop) (q : ptr) : changes_only P (get_x q).
Proof. unfold get_x. frame. Qed.

Lemma changes_only_get_y (P : ptr -> Prop) (q : ptr) : changes_only P (get_y q).
Proof. unfold get_y. frame. Qed.

Lemma changes_only_load_pixel (P : ptr -> Prop) (q : ptr) (k : Z) :
  changes_only P (load_pixel q k).
Proof. unfold load_pixel. frame. Qed.

#[local] Hint Resolve changes_only_get_x changes_only_get_y
  changes_only_load_pixel changes_only_assign : frame.

Lemma changes_only_set_x (P : ptr -> Prop) (q : ptr) (v : Z) :
  P q -> changes_only P (set_x q v).
Proof. intros Hq. unfold set_x. frame. Qed.

Lemma changes_only_set_y (P : ptr -> Prop) (q : ptr) (v : Z) :
  P q -> changes_only P (set_y q v).
Proof. intros Hq. unfold set_y. frame. Qed.

Lemma changes_only_update_pixel (P : ptr -> Prop) (q : ptr) (k : Z)
    (f : PPMPixel -> PPMPixel) :
  P q -> changes_only P (update_pixel q k f).
Proof. intros Hq. unfold update_pixel. frame. Qed.

#[local] Hint Resolve changes_only_set_x changes_only_set_y
  changes_only_update_pixel : frame.

(** The edge sampler only reads. *)
Lemma changes_only_get_pixel_clamped (P : ptr -> Prop) (q : ptr) (x y : Z) :
  changes_only P (get_pixel_clamped q x y).
Proof. unfold get_pixel_clamped. frame. Qed.

#[local] Hint Resolve changes_only_get_pixel_clamped : frame.

Section Frames.
Context {D : Type} `{Double D}.
Variable junk_x junk_y : Z.
Variable junk_pixel : nat -> PPMPixel.

(** The bicubic sampler only reads. *)
Lemma changes_only_sample_bicubic (P : ptr -> Prop) (q : ptr) (u v : D) :
  changes_only P (sample_bicubic q u v).
Proof. unfold sample_bicubic, bicubic_at, gather_row. frame. Qed.

(** [resize_image] writes to its destination only. *)
Lemma changes_only_resize_image (src dst : ptr) (scale : D) :
  changes_only (eq dst) (resize_image src dst scale).
Proof.
  pose proof changes_only_sample_bicubic.
  unfold resize_image, for_upto. frame.
Qed.

(** What [init_destination_image] does when it returns. *)
Lemma init_destination_image_run (src d : ptr) (scale : D) (h h1 : heap) :
  init_destination_image junk_x junk_y junk_pixel src scale h = Some (d, h1) ->
  exists simg n,
    h !! src = Some simg /\
    destination_bytes (img_x simg) (img_y simg) scale = Some n /\
    d = fresh (dom h) /\
    h1 = <[d := {| img_x := junk_x; img_y := junk_y;
                   img_data := map junk_pixel
                                 (seq 0 (Z.to_nat (n / sizeof_PPMPixel))) |}]> h.
Proof.
  unfold init_destination_image. intros Hrun.
  destruct (h !! src) as [simg |] eqn:Hsrc.
  - rewrite bind_run, (get_x_run _ _ _ Hsrc) in Hrun.
    rewrite bind_run, (get_y_run _ _ _ Hsrc) in Hrun.
    rewrite bind_run in Hrun. unfold lift at 1 in Hrun.
    destruct (destination_bytes (img_x simg) (img_y simg) scale) as [n |] eqn:Hn;
      [| discriminate].
    unfold alloc in Hrun. injection Hrun as <- <-.
    exists simg, n. auto.
  - rewrite bind_run in Hrun. unfold get_x in Hrun.
    rewrite bind_run in Hrun. unfold deref in Hrun. rewrite Hsrc in Hrun.
    discriminate.
Qed.

(** The statements of [resize2] write to the destination only. *)
Lemma changes_only_box_statements (dst src : ptr) (x y : Z)
    (get : PPMPixel -> Z) (set : Z -> PPMPixel -> PPMPixel) :
  changes_only (eq dst) (box_statements dst src x y get set).
Proof. unfold box_statements, box_assign, box_add. frame. Qed.

(** The part of [resize2] after the allocation. *)
Lemma resize2_fill_run (src d dst2 : ptr) (h0 h2 : heap) :
  (sx ← get_x src; set_x d (Z.quot sx 2) ;;
   sy ← get_y src; set_y d (Z.quot sy 2) ;;
   dy ← get_y d;
   for_upto dy (fun y =>
     dx ← get_x d;
     for_upto dx (fun x =>
       box_statements d src x y red set_red ;;
       box_statements d src x y green set_green ;;
       box_statements d src x y blue set_blue)) ;;
   mret d) h0 = Some (dst2, h2) ->
  dst2 = d /\ forall p, p <> d -> h2 !! p = h0 !! p.
Proof.
  intros Hrun. split.
  - repeat (rewrite bind_run in Hrun;
            match type of Hrun with
            | match ?m with _ => _ end = _ =>
                destruct m as [[? ?] |]; [| discriminate]
            end).
    injection Hrun as <- _. reflexivity.
  - intros p Hp. revert Hrun.
    match goal with |- ?m h0 = _ -> _ =>
      assert (Hfr : changes_only (eq d) m)
    end.
    { pose proof changes_only_box_statements. unfold for_upto. frame. }
    intros Hrun. apply (Hfr _ _ _ Hrun). congruence.
Qed.

(** [alloc] returns a pointer that was not in use. *)
Lemma alloc_run (i : PPMImage) (h : heap) :
  alloc i h = Some (fresh (dom h), <[fresh (dom h) := i]> h) /\
  h !! fresh (dom h) = None.
Proof.
  split; [reflexivity |]. apply not_elem_of_dom. apply is_fresh.
Qed.

(** C10. Both resampling operations leave the source image as it was, its
    dimensions and every pixel: [resize_image] when its destination is
    another object than its source, [resize2], which allocates its
    destination itself, and with them the resampling step of [main], after
    which the heap still holds the decoded image at the pointer that
    [readPPM] returned. *)
Theorem resamplers_keep_source (h : heap) (src dst : ptr) (scale : D)
    (h1 : heap) (dst2 : ptr) (h2 : heap)
    (factor : string) (img out : PPMImage) (h3 : heap) :
  (src <> dst ->
   resize_image src dst scale h = Some (tt, h1) ->
   h1 !! src = h !! src) /\
  (resize2 junk_x junk_y junk_pixel src h = Some (dst2, h2) ->
   dst2 <> src /\ h2 !! src = h !! src) /\
  (resample junk_x junk_y junk_pixel factor scale img ∅ = Some (out, h3) ->
   h3 !! fresh (dom (∅ : heap)) = Some img).
Proof.
  assert (Hresize2 : forall h src dst2 h2,
            resize2 junk_x junk_y junk_pixel src h = Some (dst2, h2) ->
            dst2 <> src /\ h2 !! src = h !! src).
  { clear. intros h src dst2 h2. unfold resize2. intros Hrun.
    rewrite bind_run in Hrun.
    destruct (init_destination_image _ _ _ src _ h) as [[d h0] |] eqn:Hinit;
      [| discriminate].
    destruct (init_destination_image_run _ _ _ _ _ Hinit)
      as (simg & n & Hsrc & _ & Hd & Hh0).
    assert (Hne : d <> src).
    { intros ->. apply (is_fresh (dom h)). rewrite <- Hd.
      apply elem_of_dom. eauto. }
    destruct (resize2_fill_run _ _ _ _ _ Hrun) as [-> Hkeep].
    split; [exact Hne |].
    rewrite (Hkeep src) by congruence.
    rewrite Hh0. apply lookup_insert_ne. exact Hne. }
  split; [| split].
  - intros Hne Hrun.
    apply (changes_only_resize_image src dst scale h tt h1 Hrun). congruence.
  - apply Hresize2.
  - unfold resample. intros Hrun. rewrite bind_run in Hrun.
    destruct (alloc_run img ∅) as [Halloc _]. rewrite Halloc in Hrun.
    set (s := fresh (dom (∅ : heap))) in *.
    set (h0 := <[s := img]> (∅ : heap)) in *.
    assert (Hs : h0 !! s = Some img) by apply lookup_insert_eq.
    rewrite bind_run in Hrun.
    destruct (String.eqb factor "2x").
    + destruct (resize2 junk_x junk_y junk_pixel s h0) as [[d h'] |] eqn:E;
        [| discriminate].
      destruct (Hresize2 _ _ _ _ E) as [_ Hkeep].
      unfold deref in Hrun. destruct (h' !! d); [| discriminate].
      injection Hrun as _ <-. rewrite Hkeep. exact Hs.
    + rewrite bind_run in Hrun.
      destruct (init_destination_image junk_x junk_y junk_pixel s scale h0)
        as [[d h'] |] eqn:Hinit; [| discriminate].
      destruct (init_destination_image_run _ _ _ _ _ Hinit)
        as (simg & n & Hsrc & _ & Hd & Hh').
      assert (Hne : d <> s).
      { intros Heq. apply (is_fresh (dom h0)). rewrite <- Hd, Heq.
        apply elem_of_dom. eauto. }
      rewrite bind_run in Hrun.
      destruct (resize_image s d scale h') as [[[] h''] |] eqn:E; [| discriminate].
      rewrite ret_run in Hrun.
      unfold deref in Hrun. destruct (h'' !! d); [| discriminate].
      injection Hrun as _ <-.
      rewrite (changes_only_resize_image s d scale h' tt h'' E) by congruence.
      rewrite Hh'. rewrite lookup_insert_ne by exact Hne. exact Hs.
Qed.

End Frames.

(* ===================================================================== *)
(** ** The 2x box downsample *)
(* ===================================================================== *)

(** A loop that keeps an invariant indexed by its counter runs to its end. *)
Lemma for_each_seqZ_inv (I : Z -> heap -> Prop) (body : Z -> M unit) (len : nat) :
  forall (m : Z) (h : heap),
  (forall k h, m <= k < m + Z.of_nat len -> I k h ->
               exists h', body k h = Some (tt, h') /\ I (k + 1) h') ->
  I m h ->
  exists h', for_each (seqZ m (Z.of_nat len)) body h = Some (tt, h') /\
             I (m + Z.of_nat len) h'.
Proof.
  induction len as [| len IH]; intros m h Hbody Hm.
  - exists h. rewrite seqZ_nil by lia. split; [reflexivity |].
    replace (m + Z.of_nat 0) with m by lia. exact Hm.
  - rewrite seqZ_cons by lia.
    replace (Z.pred (Z.of_nat (S len))) with (Z.of_nat len) by lia.
    cbn [for_each]. rewrite bind_run.
    destruct (Hbody m h ltac:(lia) Hm) as (h1 & -> & H1).
    destruct (IH (Z.succ m) h1) as (h2 & Hrun & H2).
    + intros k h' Hk. apply Hbody. lia.
    + replace (Z.succ m) with (m + 1) by lia. exact H1.
    + exists h2. split; [exact Hrun |].
      replace (m + Z.of_nat (S len)) with (Z.succ m + Z.of_nat len) by lia.
      exact H2.
Qed.

Lemma for_upto_inv (I : Z -> heap -> Prop) (body : Z -> M unit) (n : Z) (h : heap) :
  0 <= n ->
  (forall k h, 0 <= k < n -> I k h ->
               exists h', body k h = Some (tt, h') /\ I (k + 1) h') ->
  I 0 h ->
  exists h', for_upto n body h = Some (tt, h') /\ I n h'.
Proof.
  intros Hn Hbody H0. unfold for_upto.
  destruct (for_each_seqZ_inv I body (Z.to_nat n) 0 h) as (h' & Hrun & Hn').
  - intros k h1 Hk. apply Hbody. lia.
  - exact H0.
  - rewrite Z2Nat.id in Hrun, Hn' by lia. exists h'. split; assumption.
Qed.

Lemma update_pixel_run (p : ptr) (i : PPMImage) (h : heap) (k : Z)
    (f : PPMPixel -> PPMPixel) (px : PPMPixel) :
  h !! p = Some i -> 0 <= k -> img_data i !! Z.to_nat k = Some px ->
  update_pixel p k f h =
    Some (tt, with_image h p (img_x i) (img_y i)
                (<[Z.to_nat k := f px]> (img_data i))).
Proof.
  intros Hp Hk Hpx. unfold update_pixel.
  rewrite bind_run, (deref_run _ _ _ Hp).
  rewrite bind_run, (load_pixel_run _ _ _ _ _ Hp Hk Hpx).
  unfold assign. rewrite Hp. reflexivity.
Qed.

(** The running 8-bit sum of the four quarters of bytes is their sum: no
    partial sum leaves the range of a byte, and the total is at most 252. *)
Lemma box_channel_quarter_sum (a b c d : Z) :
  channel_ok a -> channel_ok b -> channel_ok c -> channel_ok d ->
  box_channel a b c d = quarter_sum a b c d /\
  0 <= a / 4 <= 63 /\
  0 <= a / 4 + b / 4 <= 126 /\
  0 <= a / 4 + b / 4 + c / 4 <= 189 /\
  0 <= quarter_sum a b c d <= 252.
Proof.
  unfold channel_ok, box_channel, quarter_sum, uint8. intros Ha Hb Hc Hd.
  rewrite !Z.quot_div_nonneg by lia.
  assert (0 <= a / 4 <= 63) by (Z.to_euclidean_division_equations; lia).
  assert (0 <= b / 4 <= 63) by (Z.to_euclidean_division_equations; lia).
  assert (0 <= c / 4 <= 63) by (Z.to_euclidean_division_equations; lia).
  assert (0 <= d / 4 <= 63) by (Z.to_euclidean_division_equations; lia).
  rewrite (Z.mod_small (a / 4)) by lia.
  rewrite (Z.mod_small (a / 4 + b / 4)) by lia.
  rewrite (Z.mod_small (a / 4 + b / 4 + c / 4)) by lia.
  rewrite Z.mod_small by lia.
  lia.
Qed.

(** Strips [int32] from values that an [int] holds, innermost first. *)
Ltac int32_simpl :=
  repeat match goal with
    | |- context [int32 ?z] =>
        lazymatch z with
        | context [int32 _] => fail
        | _ => rewrite (int32_id z) by (unfold INT_MIN, INT_MAX in *; nia)
        end
    end.

Lemma index_div_mod (dw x y : Z) :
  0 <= x < dw -> (x + dw * y) mod dw = x /\ (x + dw * y) / dw = y.
Proof.
  intros Hx. split.
  - rewrite Z.mul_comm, Z_mod_plus_full. apply Z.mod_small. lia.
  - rewrite Z.mul_comm, Z_div_plus_full by lia. rewrite Z.div_small; lia.
Qed.

Lemma uint8_twice (v : Z) : uint8 (uint8 v) = uint8 v.
Proof. unfold uint8. apply Z.mod_mod. lia. Qed.

Lemma red_set_red (v : Z) (q : PPMPixel) : red (set_red v q) = uint8 v.
Proof. reflexivity. Qed.
Lemma set_red_twice (v v' : Z) (q : PPMPixel) : set_red v (set_red v' q) = set_red v q.
Proof. reflexivity. Qed.
Lemma set_red_uint8 (v : Z) (q : PPMPixel) : set_red (uint8 v) q = set_red v q.
Proof. unfold set_red. rewrite uint8_twice. reflexivity. Qed.

Lemma green_set_green (v : Z) (q : PPMPixel) : green (set_green v q) = uint8 v.
Proof. reflexivity. Qed.
Lemma set_green_twice (v v' : Z) (q : PPMPixel) :
  set_green v (set_green v' q) = set_green v q.
Proof. reflexivity. Qed.
Lemma set_green_uint8 (v : Z) (q : PPMPixel) : set_green (uint8 v) q = set_green v q.
Proof. unfold set_green. rewrite uint8_twice. reflexivity. Qed.

Lemma blue_set_blue (v : Z) (q : PPMPixel) : blue (set_blue v q) = uint8 v.
Proof. reflexivity. Qed.
Lemma set_blue_twice (v v' : Z) (q : PPMPixel) : set_blue v (set_blue v' q) = set_blue v q.
Proof. reflexivity. Qed.
Lemma set_blue_uint8 (v : Z) (q : PPMPixel) : set_blue (uint8 v) q = set_blue v q.
Proof. unfold set_blue. rewrite uint8_twice. reflexivity. Qed.

(** Half the dimensions of a buffer. *)
Lemma half_dims (i : PPMImage) :
  buffer_ok i ->
  0 < img_x i /\ 0 < img_y i /\ img_x i * img_y i <= INT_MAX /\
  0 <= img_x i / 2 /\ 0 <= img_y i / 2 /\
  2 * (img_x i / 2) <= img_x i /\ 2 * (img_y i / 2) <= img_y i.
Proof.
  intros [Hx Hy Hint _].
  repeat split; try assumption; Z.to_euclidean_division_equations; lia.
Qed.

(** A coordinate within a buffer has its pixel. *)
Lemma pixel_at_pixel_of (i : PPMImage) (x y : Z) :
  buffer_ok i -> 0 <= x < img_x i -> 0 <= y < img_y i ->
  pixel_at i x y = Some (pixel_of i x y).
Proof.
  intros Hbuf Hx Hy.
  destruct (buffer_index i x y Hbuf Hx Hy) as (_ & _ & [p Hp]).
  unfold pixel_of. rewrite Hp. reflexivity.
Qed.

(** The four source pixels under a destination pixel. *)
Lemma source_quad (i : PPMImage) (x y : Z) :
  buffer_ok i ->
  0 <= x < img_x i / 2 -> 0 <= y < img_y i / 2 ->
  pixel_at i (2 * x) (2 * y) = Some (pixel_of i (2 * x) (2 * y)) /\
  pixel_at i (2 * x + 1) (2 * y) = Some (pixel_of i (2 * x + 1) (2 * y)) /\
  pixel_at i (2 * x) (2 * y + 1) = Some (pixel_of i (2 * x) (2 * y + 1)) /\
  pixel_at i (2 * x + 1) (2 * y + 1) = Some (pixel_of i (2 * x + 1) (2 * y + 1)).
Proof.
  intros Hbuf Hx Hy. pose proof (half_dims i Hbuf) as (? & ? & ? & ? & ? & ? & ?).
  repeat split; apply pixel_at_pixel_of; try assumption; lia.
Qed.

Lemma pixel_of_ok (i : PPMImage) (x y : Z) :
  image_ok i -> 0 <= x < img_x i -> 0 <= y < img_y i -> pixel_ok (pixel_of i x y).
Proof.
  intros [Hbuf Hall] Hx Hy.
  pose proof (pixel_at_pixel_of i x y Hbuf Hx Hy) as Hp.
  unfold pixel_at in Hp. exact (Forall_lookup_1 _ _ _ _ Hall Hp).
Qed.

Section Box.
Variable junk_x junk_y : Z.

(** The source [simg] at [src], and a destination at another pointer [d]
    with [size] pixels allocated, which hold the [dw] by [dh] result. *)
Variable h : heap.
Variable src d : ptr.
Variable simg : PPMImage.
Variable size : nat.
Hypothesis Hsrc : h !! src = Some simg.
Hypothesis Hne : d <> src.
Hypothesis Hok : image_ok simg.

Let sx : Z := img_x simg.
Let sy : Z := img_y simg.
Let dw : Z := sx / 2.
Let dh : Z := sy / 2.
Hypothesis Hsize : dw * dh <= Z.of_nat size.

Let st (pixels : list PPMPixel) : heap := with_image h d dw dh pixels.

Lemma st_src (pixels : list PPMPixel) : st pixels !! src = Some simg.
Proof. unfold st, with_image. rewrite lookup_insert_ne by exact Hne. exact Hsrc. Qed.

Lemma st_dst (pixels : list PPMPixel) :
  st pixels !! d = Some {| img_x := dw; img_y := dh; img_data := pixels |}.
Proof. unfold st, with_image. apply lookup_insert_eq. Qed.

Lemma st_update (pixels pixels' : list PPMPixel) :
  with_image (st pixels) d dw dh pixels' = st pixels'.
Proof. unfold st, with_image. apply insert_insert_eq. Qed.

Lemma half_dims_st : 0 < sx /\ 0 < sy /\ sx * sy <= INT_MAX /\
                     0 <= dw /\ 0 <= dh /\ 2 * dw <= sx /\ 2 * dh <= sy.
Proof. exact (half_dims simg (proj1 Hok)). Qed.

Lemma box_assign_run (get : PPMPixel -> Z) (set : Z -> PPMPixel -> PPMPixel)
    (pixels : list PPMPixel) (i j : Z) (p s : PPMPixel) :
  0 <= i -> 0 <= j ->
  pixels !! Z.to_nat i = Some p ->
  img_data simg !! Z.to_nat j = Some s ->
  box_assign d src i j get set (st pixels) =
    Some (tt, st (<[Z.to_nat i := set (Z.quot (get s) 4) p]> pixels)).
Proof.
  intros Hi Hj Hp Hs. unfold box_assign.
  rewrite bind_run, (load_pixel_run _ _ _ _ _ (st_src _) Hj Hs).
  rewrite (update_pixel_run _ _ _ _ _ _ (st_dst _) Hi Hp).
  cbn [img_x img_y img_data]. rewrite st_update. reflexivity.
Qed.

Lemma box_add_run (get : PPMPixel -> Z) (set : Z -> PPMPixel -> PPMPixel)
    (pixels : list PPMPixel) (i j : Z) (p s : PPMPixel) :
  0 <= i -> 0 <= j ->
  pixels !! Z.to_nat i = Some p ->
  img_data simg !! Z.to_nat j = Some s ->
  box_add d src i j get set (st pixels) =
    Some (tt, st (<[Z.to_nat i := set (get p + Z.quot (get s) 4) p]> pixels)).
Proof.
  intros Hi Hj Hp Hs. unfold box_add.
  rewrite bind_run, (load_pixel_run _ _ _ _ _ (st_src _) Hj Hs).
  rewrite (update_pixel_run _ _ _ _ _ _ (st_dst _) Hi Hp).
  cbn [img_x img_y img_data]. rewrite st_update. reflexivity.
Qed.

(** Reads [destination_image->x] and [source_image->x] at the head of a
    statement. *)
Ltac read_widths :=
  rewrite bind_run, (get_x_run _ _ _ (st_dst _)); cbn [img_x];
  rewrite bind_run, (get_x_run _ _ _ (st_src _)); fold sx.

(** The four statements of one channel, for accessors [get] and [set] of
    that channel. *)
Lemma box_statements_run (get : PPMPixel -> Z) (set : Z -> PPMPixel -> PPMPixel)
    (pixels : list PPMPixel) (x y : Z) (p : PPMPixel) :
  (forall v q, get (set v q) = uint8 v) ->
  (forall v v' q, set v (set v' q) = set v q) ->
  (forall v q, set (uint8 v) q = set v q) ->
  0 <= x < dw -> 0 <= y < dh ->
  pixels !! Z.to_nat (x + dw * y) = Some p ->
  box_statements d src x y get set (st pixels) =
    Some (tt, st (<[Z.to_nat (x + dw * y) :=
                     set (box_channel (get (pixel_of simg (2 * x) (2 * y)))
                                      (get (pixel_of simg (2 * x + 1) (2 * y)))
                                      (get (pixel_of simg (2 * x) (2 * y + 1)))
                                      (get (pixel_of simg (2 * x + 1) (2 * y + 1))))
                         p]> pixels)).
Proof.
  intros Hgs Hss Hsu Hx Hy Hp.
  pose proof half_dims_st as (? & ? & ? & ? & ? & ? & ?).
  destruct (source_quad simg x y (proj1 Hok) Hx Hy) as (Ha & Hb & Hc & Hd).
  unfold pixel_at in Ha, Hb, Hc, Hd. fold sx in Ha, Hb, Hc, Hd.
  assert (Hi : 0 <= x + dw * y < dw * dh) by nia.
  assert (Hlt : (Z.to_nat (x + dw * y) < length pixels)%nat)
    by (apply lookup_lt_is_Some; eauto).
  assert (Hrow : sx * 2 * y = sx * (2 * y)) by ring.
  assert (Hja : 0 <= 2 * x + sx * (2 * y)) by nia.
  assert (Hjb : 0 <= 2 * x + 1 + sx * (2 * y)) by nia.
  assert (Hjc : 0 <= 2 * x + sx * (2 * y + 1)) by nia.
  assert (Hjd : 0 <= 2 * x + 1 + sx * (2 * y + 1)) by nia.
  unfold box_statements.
  read_widths. int32_simpl. rewrite Hrow.
  rewrite bind_run, (box_assign_run _ _ _ _ _ _ _ (proj1 Hi) Hja Hp Ha).
  read_widths. int32_simpl. rewrite Hrow.
  rewrite bind_run,
    (box_add_run _ _ _ _ _ _ _ (proj1 Hi) Hjb (list_lookup_insert_eq _ _ _ Hlt) Hb).
  rewrite list_insert_insert_eq, Hgs, Hss.
  read_widths. int32_simpl.
  rewrite bind_run,
    (box_add_run _ _ _ _ _ _ _ (proj1 Hi) Hjc (list_lookup_insert_eq _ _ _ Hlt) Hc).
  rewrite list_insert_insert_eq, Hgs, Hss.
  read_widths. int32_simpl.
  rewrite
    (box_add_run _ _ _ _ _ _ _ (proj1 Hi) Hjd (list_lookup_insert_eq _ _ _ Hlt) Hd).
  rewrite list_insert_insert_eq, Hgs, Hss.
  unfold box_channel. rewrite Hsu. reflexivity.
Qed.

(** The twelve statements for one destination pixel. *)
Lemma box_pixel_run (pixels : list PPMPixel) (x y : Z) (p : PPMPixel) :
  0 <= x < dw -> 0 <= y < dh ->
  pixels !! Z.to_nat (x + dw * y) = Some p ->
  (box_statements d src x y red set_red ;;
   box_statements d src x y green set_green ;;
   box_statements d src x y blue set_blue) (st pixels) =
    Some (tt, st (<[Z.to_nat (x + dw * y) := box_of simg x y]> pixels)).
Proof.
  intros Hx Hy Hp.
  pose proof half_dims_st as (? & ? & ? & ? & ? & ? & ?).
  assert (Hlt : (Z.to_nat (x + dw * y) < length pixels)%nat)
    by (apply lookup_lt_is_Some; eauto).
  rewrite bind_run,
    (box_statements_run red set_red pixels x y p
       red_set_red set_red_twice set_red_uint8 Hx Hy Hp).
  match goal with |- context [st (<[?i := ?q]> pixels)] =>
    set (p1 := q); set (px1 := <[i := p1]> pixels)
  end.
  assert (Hp1 : px1 !! Z.to_nat (x + dw * y) = Some p1)
    by (apply list_lookup_insert_eq; exact Hlt).
  rewrite bind_run,
    (box_statements_run green set_green px1 x y p1
       green_set_green set_green_twice set_green_uint8 Hx Hy Hp1).
  match goal with |- context [st (<[?i := ?q]> px1)] =>
    set (p2 := q); set (px2 := <[i := p2]> px1)
  end.
  assert (Hp2 : px2 !! Z.to_nat (x + dw * y) = Some p2)
    by (apply list_lookup_insert_eq; unfold px1; rewrite length_insert; exact Hlt).
  rewrite
    (box_statements_run blue set_blue px2 x y p2
       blue_set_blue set_blue_twice set_blue_uint8 Hx Hy Hp2).
  unfold px2, px1, p2, p1.
  rewrite !list_insert_insert_eq.
  do 3 f_equal.
  destruct (pixel_of_ok simg (2 * x) (2 * y) Hok) as (? & ? & ?); [lia | lia |].
  destruct (pixel_of_ok simg (2 * x + 1) (2 * y) Hok) as (? & ? & ?); [lia | lia |].
  destruct (pixel_of_ok simg (2 * x) (2 * y + 1) Hok) as (? & ? & ?); [lia | lia |].
  destruct (pixel_of_ok simg (2 * x + 1) (2 * y + 1) Hok) as (? & ? & ?); [lia | lia |].
  unfold box_of, box_pixel, set_blue, set_green, set_red. cbn.
  repeat match goal with
    | |- context [box_channel ?a ?b ?c ?e] =>
        let Hq := fresh "Hq" in
        destruct (box_channel_quarter_sum a b c e) as (Hq & _ & _ & _ & ?);
        [assumption .. |]; rewrite Hq; clear Hq
    end.
  unfold uint8. rewrite !Z.mod_small by lia. reflexivity.
Qed.

(** Writing the next pixel extends the filled part of the block by one. *)
Lemma box_filled_next (pixels : list PPMPixel) (x y : Z) :
  0 <= x < dw -> 0 <= y < dh ->
  box_filled simg dw size (x + dw * y) pixels ->
  box_filled simg dw size (x + dw * y + 1)
    (<[Z.to_nat (x + dw * y) := box_of simg x y]> pixels).
Proof.
  intros Hx Hy [Hlen Hfill].
  assert (Hi : 0 <= x + dw * y < dw * dh) by nia.
  split; [rewrite length_insert; exact Hlen |].
  intros j Hj. destruct (Z.eq_dec j (x + dw * y)) as [-> | Hneq].
  - destruct (index_div_mod dw x y Hx) as [-> ->].
    apply list_lookup_insert_eq. lia.
  - rewrite list_lookup_insert_ne by lia. apply Hfill. lia.
Qed.

(** One row of the destination. *)
Lemma box_row_run (pixels : list PPMPixel) (y : Z) :
  0 <= y < dh ->
  box_filled simg dw size (dw * y) pixels ->
  exists pixels',
    for_upto dw (fun x =>
      box_statements d src x y red set_red ;;
      box_statements d src x y green set_green ;;
      box_statements d src x y blue set_blue) (st pixels) =
      Some (tt, st pixels') /\
    box_filled simg dw size (dw * (y + 1)) pixels'.
Proof.
  intros Hy Hfill.
  pose proof half_dims_st as (? & ? & ? & ? & ? & ? & ?).
  destruct (for_upto_inv
              (fun k hp => exists px, hp = st px /\
                                      box_filled simg dw size (k + dw * y) px)
              (fun x =>
                 box_statements d src x y red set_red ;;
                 box_statements d src x y green set_green ;;
                 box_statements d src x y blue set_blue)
              dw (st pixels)) as (h' & Hrun & pixels' & -> & Hfill').
  - lia.
  - intros k hp Hk (px & -> & Hpx).
    assert (Hi : 0 <= k + dw * y < dw * dh) by nia.
    destruct (lookup_lt_is_Some_2 px (Z.to_nat (k + dw * y))) as [p Hp].
    { destruct Hpx as [-> _]. lia. }
    eexists. split; [apply (box_pixel_run px k y p Hk Hy Hp) |].
    eexists. split; [reflexivity |].
    replace (k + 1 + dw * y) with (k + dw * y + 1) by lia.
    apply box_filled_next; assumption.
  - exists pixels. split; [reflexivity |].
    replace (0 + dw * y) with (dw * y) by lia. exact Hfill.
  - exists pixels'. split; [exact Hrun |].
    replace (dw * (y + 1)) with (dw + dw * y) by lia. exact Hfill'.
Qed.

Lemma set_x_run (p : ptr) (i : PPMImage) (hp : heap) (v : Z) :
  hp !! p = Some i ->
  set_x p v hp = Some (tt, with_image hp p v (img_y i) (img_data i)).
Proof.
  intros Hp. unfold set_x. rewrite bind_run, (deref_run _ _ _ Hp).
  unfold assign. rewrite Hp. reflexivity.
Qed.

Lemma set_y_run (p : ptr) (i : PPMImage) (hp : heap) (v : Z) :
  hp !! p = Some i ->
  set_y p v hp = Some (tt, with_image hp p (img_x i) v (img_data i)).
Proof.
  intros Hp. unfold set_y. rewrite bind_run, (deref_run _ _ _ Hp).
  unfold assign. rewrite Hp. reflexivity.
Qed.

(** [resize2] below its allocation: from a destination whose fields and
    pixels are indeterminate to the downsampled image. *)
Lemma resize2_fill (pixels0 : list PPMPixel) :
  length pixels0 = size ->
  exists pixels,
    (sx ← get_x src; set_x d (Z.quot sx 2) ;;
     sy ← get_y src; set_y d (Z.quot sy 2) ;;
     dy ← get_y d;
     for_upto dy (fun y =>
       dx ← get_x d;
       for_upto dx (fun x =>
         box_statements d src x y red set_red ;;
         box_statements d src x y green set_green ;;
         box_statements d src x y blue set_blue)) ;;
     mret d) (with_image h d junk_x junk_y pixels0) = Some (d, st pixels) /\
    box_filled simg dw size (dw * dh) pixels.
Proof.
  intros Hlen.
  pose proof half_dims_st as (? & ? & ? & ? & ? & ? & ?).
  assert (Hsrc0 : forall a b px, with_image h d a b px !! src = Some simg).
  { intros. unfold with_image. rewrite lookup_insert_ne by exact Hne. exact Hsrc. }
  assert (Hdst0 : forall a b px, with_image h d a b px !! d =
                    Some {| img_x := a; img_y := b; img_data := px |}).
  { intros. unfold with_image. apply lookup_insert_eq. }
  assert (Hupd : forall a b px a' b' px',
            with_image (with_image h d a b px) d a' b' px' = with_image h d a' b' px').
  { intros. unfold with_image. apply insert_insert_eq. }
  rewrite bind_run, (get_x_run _ _ _ (Hsrc0 _ _ _)).
  rewrite bind_run, (set_x_run _ _ _ _ (Hdst0 _ _ _)), Hupd. cbn [img_y img_data].
  rewrite bind_run, (get_y_run _ _ _ (Hsrc0 _ _ _)).
  rewrite bind_run, (set_y_run _ _ _ _ (Hdst0 _ _ _)), Hupd. cbn [img_x img_data].
  rewrite !Z.quot_div_nonneg by lia. fold sx sy dw dh. fold (st pixels0).
  rewrite bind_run, (get_y_run _ _ _ (st_dst _)). cbn [img_y].
  rewrite bind_run.
  destruct (for_upto_inv
              (fun k hp => exists px, hp = st px /\
                                      box_filled simg dw size (dw * k) px)
              (fun y =>
                 dx ← get_x d;
                 for_upto dx (fun x =>
                   box_statements d src x y red set_red ;;
                   box_statements d src x y green set_green ;;
                   box_statements d src x y blue set_blue))
              dh (st pixels0)) as (h' & Hrun & pixels' & -> & Hfill').
  - lia.
  - intros k hp Hk (px & -> & Hpx).
    rewrite bind_run, (get_x_run _ _ _ (st_dst _)). cbn [img_x].
    destruct (box_row_run px k Hk Hpx) as (px' & Hrow & Hpx').
    exists (st px'). split; [exact Hrow |]. exists px'. split; [reflexivity | exact Hpx'].
  - exists pixels0. split; [reflexivity |]. split; [exact Hlen |]. intros j Hj. lia.
  - rewrite Hrun. exists pixels'. split; [reflexivity | exact Hfill'].
Qed.

End Box.

(* ===================================================================== *)
(** ** Rounding in binary64 *)
(* ===================================================================== *)

(** The size that [init_destination_image] passes to [malloc] is a product
    of doubles.  What follows bounds the rounding error of such products
    from the specification of binary64 multiplication, to show that the
    block allocated by [resize2] always holds its destination. *)

Lemma digits2_pos_spec (p : positive) :
  2 ^ (Zpos (digits2_pos p) - 1) <= Zpos p < 2 ^ Zpos (digits2_pos p).
Proof.
  induction p as [p IH | p IH |]; cbn [digits2_pos].
  - rewrite Pos2Z.inj_succ.
    replace (Z.succ (Zpos (digits2_pos p)) - 1) with (Z.succ (Zpos (digits2_pos p) - 1)) by lia.
    rewrite !Z.pow_succ_r by lia. lia.
  - rewrite Pos2Z.inj_succ.
    replace (Z.succ (Zpos (digits2_pos p)) - 1) with (Z.succ (Zpos (digits2_pos p) - 1)) by lia.
    rewrite !Z.pow_succ_r by lia. lia.
  - cbn. lia.
Qed.

Lemma digits2_pos_unique (p : positive) (d : Z) :
  2 ^ (d - 1) <= Zpos p < 2 ^ d -> Zpos (digits2_pos p) = d.
Proof.
  intros [Hlo Hhi]. pose proof (digits2_pos_spec p) as [Hlo' Hhi'].
  set (d' := Zpos (digits2_pos p)) in *.
  assert (0 < d') by (unfold d'; lia).
  assert (0 < d).
  { destruct (Z.lt_trichotomy d 0) as [Hn | [-> | Hp]]; [| cbn in Hhi; lia | lia].
    rewrite Z.pow_neg_r in Hhi by lia. lia. }
  destruct (Z.lt_trichotomy d' d) as [Hlt | [Heq | Hgt]]; [| exact Heq |].
  - assert (2 ^ d' <= 2 ^ (d - 1)) by (apply Z.pow_le_mono_r; lia). lia.
  - assert (2 ^ d <= 2 ^ (d' - 1)) by (apply Z.pow_le_mono_r; lia). lia.
Qed.

Lemma shr_1_m (r : shr_record) : 0 <= shr_m r -> shr_m (shr_1 r) = shr_m r / 2.
Proof.
  destruct r as [m r s]. cbn [shr_m]. intros Hm. unfold shr_1.
  destruct m as [| [p | p |] | p]; cbn [shr_m]; try lia;
    try reflexivity; Z.to_euclidean_division_equations; lia.
Qed.

Lemma pow2_xO (n : positive) : 2 ^ Zpos n~0 = 2 ^ Zpos n * 2 ^ Zpos n.
Proof.
  replace (Zpos n~0) with (Zpos n + Zpos n) by lia.
  apply Z.pow_add_r; lia.
Qed.

Lemma pow2_xI (n : positive) : 2 ^ Zpos n~1 = 2 * (2 ^ Zpos n * 2 ^ Zpos n).
Proof.
  replace (Zpos n~1) with (Z.succ (Zpos n + Zpos n)) by lia.
  rewrite Z.pow_succ_r, Z.pow_add_r by lia. reflexivity.
Qed.

Lemma iter_shr_m (n : positive) :
  forall r, 0 <= shr_m r ->
  shr_m (SpecFloat.iter_pos shr_1 n r) = shr_m r / 2 ^ Zpos n.
Proof.
  induction n as [n IH | n IH |]; intros r Hr; cbn [SpecFloat.iter_pos].
  - assert (H1 : 0 <= shr_m (shr_1 r)) by (rewrite shr_1_m by lia; apply Z.div_pos; lia).
    assert (H2 : 0 <= shr_m (SpecFloat.iter_pos shr_1 n (shr_1 r)))
      by (rewrite IH by lia; apply Z.div_pos; lia).
    rewrite IH, IH, shr_1_m by lia.
    rewrite !Z.div_div by lia. rewrite pow2_xI. reflexivity.
  - assert (H2 : 0 <= shr_m (SpecFloat.iter_pos shr_1 n r))
      by (rewrite IH by lia; apply Z.div_pos; lia).
    rewrite IH, IH by lia.
    rewrite !Z.div_div by lia. rewrite pow2_xO. reflexivity.
  - rewrite shr_1_m by lia. reflexivity.
Qed.

Lemma round_nearest_even_bounds (m : Z) (l : location) :
  m <= round_nearest_even m l <= m + 1.
Proof.
  unfold round_nearest_even. destruct l as [| []]; try lia.
  destruct (Z.even m); lia.
Qed.

Lemma shr_fexp_normal (q : positive) (e : Z) (l : location) :
  let n := Zpos (digits2_pos q) - 53 in
  0 <= n -> -1074 <= e + n ->
  shr_fexp prec emax (Zpos q) e l = shr (shr_record_of_loc (Zpos q) l) e n.
Proof.
  intros n Hn Hlo. unfold shr_fexp. cbn [Zdigits2]. f_equal.
  unfold fexp, emin, prec, emax, n. lia.
Qed.

Lemma shr_m_of_loc (m : Z) (l : location) : shr_m (shr_record_of_loc m l) = m.
Proof. destruct l as [| []]; reflexivity. Qed.

Lemma pow2_53 : 2 ^ 53 = 9007199254740992.
Proof. reflexivity. Qed.
Lemma pow2_52 : 2 ^ 52 = 4503599627370496.
Proof. reflexivity. Qed.

(** Rounding a positive mantissa of at least 53 bits, away from the
    subnormal and the overflow ranges. *)
Lemma binary_round_aux_normal (p : positive) (e : Z) :
  let n := Zpos (digits2_pos p) - 53 in
  0 <= n -> -1074 <= e + n -> e + n + 1 <= 971 ->
  exists m' e',
    binary_round_aux prec emax false (Zpos p) e loc_Exact = S754_finite false m' e' /\
    Zpos (digits2_pos m') = 53 /\
    (n = 0 -> m' = p /\ e' = e) /\
    ((e' = e + n /\ Zpos p / 2 ^ n <= Zpos m' <= Zpos p / 2 ^ n + 1) \/
     (e' = e + n + 1 /\ 2 * Zpos m' = Zpos p / 2 ^ n + 1)).
Proof.
  intros n Hn Hlo Hhi.
  pose proof (digits2_pos_spec p) as [Hd1 Hd2].
  pose proof (shr_fexp_normal p e loc_Exact Hn Hlo) as Hshr.
  assert (Hdn : Zpos (digits2_pos p) = 53 + n) by (unfold n; lia).
  change (Zpos (digits2_pos p) - 53) with n in Hshr.
  clearbody n.
  unfold binary_round_aux. rewrite Hshr.
  destruct (Z.eq_dec n 0) as [Hz | Hnz].
  - (* no shift: the mantissa has 53 bits *)
    rewrite Hz in *. cbn [shr shr_record_of_loc shr_m loc_of_shr_record round_nearest_even].
    rewrite Hshr.
    cbn [shr shr_record_of_loc shr_m].
    replace (e <=? emax - prec) with true
      by (symmetry; apply Z.leb_le; unfold emax, prec; lia).
    exists p, e. split; [reflexivity |]. split; [lia |].
    split; [auto |]. left. rewrite Z.pow_0_r, Z.div_1_r. lia.
  - destruct n as [| np | np] eqn:En; [lia | | lia].
    cbn [shr].
    set (r1 := SpecFloat.iter_pos shr_1 np (shr_record_of_loc (Zpos p) loc_Exact)).
    assert (Hm1 : shr_m r1 = Zpos p / 2 ^ Zpos np)
      by (unfold r1; rewrite iter_shr_m; cbn [shr_record_of_loc shr_m]; [reflexivity | lia]).
    assert (Hpow : 2 ^ Zpos (digits2_pos p) = 2 ^ 53 * 2 ^ Zpos np)
      by (rewrite <- Z.pow_add_r by lia; f_equal; lia).
    assert (Hpow' : 2 ^ (Zpos (digits2_pos p) - 1) = 2 ^ 52 * 2 ^ Zpos np)
      by (rewrite <- Z.pow_add_r by lia; f_equal; lia).
    assert (Hnp : 0 < 2 ^ Zpos np) by (apply Z.pow_pos_nonneg; lia).
    assert (Hb1 : 2 ^ 52 <= shr_m r1 < 2 ^ 53).
    { rewrite Hm1. split.
      - apply Z.div_le_lower_bound; lia.
      - apply Z.div_lt_upper_bound; lia. }
    pose proof (round_nearest_even_bounds (shr_m r1) (loc_of_shr_record r1)) as Hr.
    set (m1r := round_nearest_even (shr_m r1) (loc_of_shr_record r1)) in *.
    rewrite pow2_52, pow2_53 in Hb1.
    destruct m1r as [| q | q] eqn:Eq; [lia | | lia].
    destruct (Z.eq_dec (Zpos q) (2 ^ 53)) as [Hcarry | Hnocarry].
    + (* the rounded mantissa is 2^53: one more shift *)
      assert (Hdq : Zpos (digits2_pos q) = 54)
        by (apply digits2_pos_unique; rewrite Hcarry; cbn; lia).
      rewrite (shr_fexp_normal q (e + Zpos np) loc_Exact) by lia.
      rewrite Hdq. change (54 - 53) with 1.
      cbn [shr SpecFloat.iter_pos shr_record_of_loc].
      rewrite shr_1_m by (cbn [shr_m]; lia). cbn [shr_m].
      rewrite Hcarry. change (2 ^ 53 / 2) with (Zpos 4503599627370496).
      cbv iota beta.
      replace (e + Zpos np + 1 <=? emax - prec) with true
        by (symmetry; apply Z.leb_le; unfold emax, prec; lia).
      exists 4503599627370496%positive, (e + Zpos np + 1).
      split; [reflexivity |]. split; [reflexivity |]. split; [lia |].
      right. split; [reflexivity |]. rewrite <- Hm1. rewrite pow2_53 in Hcarry. lia.
    + assert (Hdq : Zpos (digits2_pos q) = 53)
        by (apply digits2_pos_unique; rewrite pow2_53 in *; cbn; lia).
      rewrite (shr_fexp_normal q (e + Zpos np) loc_Exact) by lia.
      rewrite Hdq. change (53 - 53) with 0. cbn [shr shr_record_of_loc shr_m].
      replace (e + Zpos np <=? emax - prec) with true
        by (symmetry; apply Z.leb_le; unfold emax, prec; lia).
      exists q, (e + Zpos np).
      split; [reflexivity |]. split; [exact Hdq |]. split; [lia |].
      left. split; [reflexivity |]. rewrite <- Hm1. lia.
Qed.

Lemma iter_xO (p k : positive) : Zpos (Pos.iter xO p k) = Zpos p * 2 ^ Zpos k.
Proof.
  induction k as [| k IH] using Pos.peano_ind.
  - cbn [Pos.iter]. lia.
  - rewrite Pos.iter_succ, Pos2Z.inj_xO, IH, Pos2Z.inj_succ, Z.pow_succ_r by lia. lia.
Qed.

(** An integer below [2^53] converts to binary64 exactly, as a 53-bit
    mantissa. *)
Lemma float_of_Z_exact (z : Z) :
  0 < z < 2 ^ 53 ->
  exists m e,
    Prim2SF (float_of_Z z) = S754_finite false m e /\
    Zpos (digits2_pos m) = 53 /\
    - 52 <= e <= 0 /\
    Zpos m = z * 2 ^ (- e).
Proof.
  intros Hz. destruct z as [| pz | pz]; [lia | | lia].
  pose proof (digits2_pos_spec pz) as [Hd1 Hd2].
  set (d := Zpos (digits2_pos pz)) in *.
  assert (Hd : 1 <= d <= 53).
  { split; [unfold d; lia |].
    destruct (Z_le_gt_dec d 53) as [Hle | Hgt]; [exact Hle |].
    assert (2 ^ 53 <= 2 ^ (d - 1)) by (apply Z.pow_le_mono_r; lia). lia. }
  assert (Hnorm : exists m,
            binary_normalize prec emax (Zpos pz) 0 false = S754_finite false m (d - 53) /\
            Zpos (digits2_pos m) = 53 /\ Zpos m = Zpos pz * 2 ^ (53 - d)).
  { unfold binary_normalize, binary_round.
    replace (fexp prec emax (Zpos (digits2_pos pz) + 0)) with (d - 53)
      by (unfold fexp, emin, prec, emax; fold d; lia).
    unfold shl_align. rewrite Z.sub_0_r.
    destruct (d - 53) as [| k | k] eqn:Ek; [| lia |].
    - (* 53 bits already *)
      destruct (binary_round_aux_normal pz 0) as (m' & e' & Hr & Hm' & Hex & _);
        fold d; try lia.
      destruct (Hex ltac:(lia)) as [-> ->].
      exists pz. rewrite Hr. split; [reflexivity |]. split; [fold d; lia |].
      replace (53 - d) with 0 by lia. lia.
    - set (mz := Pos.iter xO pz k).
      assert (Hmz : Zpos mz = Zpos pz * 2 ^ Zpos k) by apply iter_xO.
      assert (Hk : Zpos k = 53 - d) by lia.
      assert (Hpow : 2 ^ (d - 1) * 2 ^ Zpos k = 2 ^ 52)
        by (rewrite <- Z.pow_add_r by lia; f_equal; lia).
      assert (Hpow' : 2 ^ d * 2 ^ Zpos k = 2 ^ 53)
        by (rewrite <- Z.pow_add_r by lia; f_equal; lia).
      assert (Hkp : 0 < 2 ^ Zpos k) by (apply Z.pow_pos_nonneg; lia).
      assert (Hdm : Zpos (digits2_pos mz) = 53)
        by (apply digits2_pos_unique; change (53 - 1) with 52; nia).
      destruct (binary_round_aux_normal mz (Zneg k)) as (m' & e' & Hr & Hm' & Hex & _);
        rewrite ?Hdm; try lia.
      destruct (Hex ltac:(lia)) as [-> ->].
      exists mz. rewrite Hr. split; [reflexivity |]. split; [exact Hdm |].
      rewrite Hmz, Hk. reflexivity. }
  destruct Hnorm as (m & Hnorm & Hdm & Hm).
  exists m, (d - 53). split; [| split; [exact Hdm | split; [lia |]]].
  - unfold float_of_Z. rewrite Hnorm. apply Prim2SF_SF2Prim.
    unfold valid_binary, SpecFloat.bounded, SpecFloat.canonical_mantissa. rewrite Hdm.
    apply andb_true_intro. split.
    + apply Z.eqb_eq. unfold fexp, emin, prec, emax. lia.
    + apply Z.leb_le. unfold emax, prec. lia.
  - rewrite Hm. f_equal. f_equal. lia.
Qed.

(** The product of two positive binary64 numbers with 53-bit mantissas, away
    from the subnormal and overflow ranges: a 53-bit mantissa again, within
    a relative error of [2^-52]. *)
Lemma SFmul_normal (mx my : positive) (ex ey : Z) :
  Zpos (digits2_pos mx) = 53 -> Zpos (digits2_pos my) = 53 ->
  - 1000 <= ex + ey -> ex + ey <= 900 ->
  exists m' e',
    SFmul prec emax (S754_finite false mx ex) (S754_finite false my ey)
      = S754_finite false m' e' /\
    Zpos (digits2_pos m') = 53 /\
    ex + ey + 52 <= e' <= ex + ey + 54 /\
    (2 ^ 52 - 1) * (Zpos mx * Zpos my)
      <= 2 ^ 52 * (Zpos m' * 2 ^ (e' - (ex + ey)))
      <= (2 ^ 52 + 1) * (Zpos mx * Zpos my).
Proof.
  intros Hdx Hdy Hlo Hhi.
  pose proof (digits2_pos_spec mx) as Hx. rewrite Hdx in Hx.
  pose proof (digits2_pos_spec my) as Hy. rewrite Hdy in Hy.
  change (53 - 1) with 52 in Hx, Hy.
  set (p := (mx * my)%positive).
  assert (Hp : Zpos p = Zpos mx * Zpos my) by (unfold p; lia).
  assert (Hp1 : 2 ^ 104 <= Zpos p < 2 ^ 106).
  { rewrite Hp. change (2 ^ 104) with (2 ^ 52 * 2 ^ 52).
    change (2 ^ 106) with (2 ^ 53 * 2 ^ 53). nia. }
  pose proof (digits2_pos_spec p) as [Hd1 Hd2].
  assert (Hd : Zpos (digits2_pos p) = 105 \/ Zpos (digits2_pos p) = 106).
  { set (d := Zpos (digits2_pos p)) in *.
    destruct (Z_le_gt_dec d 104) as [Hle | Hgt].
    - assert (2 ^ d <= 2 ^ 104) by (apply Z.pow_le_mono_r; lia). lia.
    - destruct (Z_le_gt_dec 107 d) as [Hge | Hlt]; [| lia].
      assert (2 ^ 106 <= 2 ^ (d - 1)) by (apply Z.pow_le_mono_r; lia). lia. }
  unfold SFmul. cbn [xorb]. fold p.
  destruct (binary_round_aux_normal p (ex + ey)) as (m' & e' & Hr & Hm' & _ & Hcases);
    try (destruct Hd as [-> | ->]; lia).
  exists m', e'. split; [exact Hr |]. split; [exact Hm' |].
  rewrite <- Hp.
  destruct Hd as [Hd | Hd]; rewrite Hd in *.
  - change (105 - 53) with 52 in Hcases. change (105 - 1) with 104 in Hd1.
    destruct Hcases as [[-> Hb] | [-> Hb]].
    + split; [lia |]. replace (ex + ey + 52 - (ex + ey)) with 52 by lia.
      change (2 ^ 52) with 4503599627370496 in *.
      change (2 ^ 104) with 20282409603651670423947251286016 in *.
      Z.to_euclidean_division_equations; lia.
    + split; [lia |]. replace (ex + ey + 52 + 1 - (ex + ey)) with 53 by lia.
      change (2 ^ 52) with 4503599627370496 in *.
      change (2 ^ 53) with 9007199254740992 in *.
      change (2 ^ 104) with 20282409603651670423947251286016 in *.
      Z.to_euclidean_division_equations; lia.
  - change (106 - 53) with 53 in Hcases. change (106 - 1) with 105 in Hd1.
    destruct Hcases as [[-> Hb] | [-> Hb]].
    + split; [lia |]. replace (ex + ey + 53 - (ex + ey)) with 53 by lia.
      change (2 ^ 52) with 4503599627370496 in *.
      change (2 ^ 53) with 9007199254740992 in *.
      change (2 ^ 105) with 40564819207303340847894502572032 in *.
      Z.to_euclidean_division_equations; lia.
    + split; [lia |]. replace (ex + ey + 53 + 1 - (ex + ey)) with 54 by lia.
      change (2 ^ 52) with 4503599627370496 in *.
      change (2 ^ 53) with 9007199254740992 in *.
      change (2 ^ 54) with 18014398509481984 in *.
      change (2 ^ 105) with 40564819207303340847894502572032 in *.
      Z.to_euclidean_division_equations; lia.
Qed.

Section Binary64Reals.
Local Open Scope R_scope.

Lemma IZR_pow2 (k : Z) : (0 <= k)%Z -> IZR (2 ^ k) = powerRZ 2 k.
Proof.
  intros Hk. rewrite <- (Z2Nat.id k Hk) at 2.
  rewrite <- pow_powerRZ, pow_IZR, Z2Nat.id by exact Hk. reflexivity.
Qed.

Lemma powerRZ_2_pos (e : Z) : 0 < powerRZ 2 e.
Proof. apply powerRZ_lt. lra. Qed.

Lemma F2R_pos (m : positive) (e : Z) : 0 < F2R m e.
Proof.
  unfold F2R. apply Rmult_lt_0_compat; [apply IZR_lt; lia | apply powerRZ_2_pos].
Qed.

Lemma F2R_shift (m : positive) (e k : Z) :
  (0 <= k)%Z -> IZR (Zpos m * 2 ^ k) * powerRZ 2 e = F2R m (e + k).
Proof.
  intros Hk. unfold F2R. rewrite mult_IZR, IZR_pow2 by exact Hk.
  rewrite powerRZ_add by lra. ring.
Qed.

Lemma F2R_mul (mx my : positive) (ex ey : Z) :
  F2R mx ex * F2R my ey = IZR (Zpos mx * Zpos my) * powerRZ 2 (ex + ey).
Proof. unfold F2R. rewrite mult_IZR, powerRZ_add by lra. ring. Qed.

(** The relative error of a binary64 product, as a factor. *)
Lemma mul_represents (f g : float) (a b c d : Z) (vf vg : R) :
  represents f a b vf -> represents g c d vg ->
  (- 1000 <= a + c)%Z -> (b + d <= 900)%Z ->
  exists v, represents (f * g)%float (a + c + 52) (b + d + 54) v /\
            (1 - / 4503599627370496) * (vf * vg) <= v
              <= (1 + / 4503599627370496) * (vf * vg).
Proof.
  intros (mx & ex & Hf & Hdx & Hex & <-) (my & ey & Hg & Hdy & Hey & <-) Hlo Hhi.
  assert (Hlo' : (- 1000 <= ex + ey)%Z) by lia.
  assert (Hhi' : (ex + ey <= 900)%Z) by lia.
  destruct (SFmul_normal mx my ex ey Hdx Hdy Hlo' Hhi')
    as (m' & e' & Hmul & Hd' & He' & Hb1 & Hb2).
  exists (F2R m' e'). split.
  - exists m', e'. rewrite mul_spec, Hf, Hg. unfold SF64mul. rewrite Hmul.
    split; [reflexivity |]. split; [exact Hd' |]. split; [lia | reflexivity].
  - rewrite F2R_mul.
    replace (F2R m' e') with (IZR (Zpos m' * 2 ^ (e' - (ex + ey))) * powerRZ 2 (ex + ey))
      by (rewrite F2R_shift by lia; f_equal; lia).
    set (A := IZR (Zpos mx * Zpos my)).
    set (T := IZR (Zpos m' * 2 ^ (e' - (ex + ey)))).
    assert (Hr1 : (4503599627370496 - 1) * A <= 4503599627370496 * T).
    { unfold A, T. rewrite <- minus_IZR, <- !mult_IZR. apply IZR_le. exact Hb1. }
    assert (Hr2 : 4503599627370496 * T <= (4503599627370496 + 1) * A).
    { unfold A, T. rewrite <- plus_IZR, <- !mult_IZR. apply IZR_le. exact Hb2. }
    pose proof (powerRZ_2_pos (ex + ey)) as Hw.
    set (w := powerRZ 2 (ex + ey)) in *.
    assert (H1 : (1 - / 4503599627370496) * A <= T) by lra.
    assert (H2 : T <= (1 + / 4503599627370496) * A) by lra.
    split.
    + replace ((1 - / 4503599627370496) * (A * w))
        with ((1 - / 4503599627370496) * A * w) by ring.
      apply Rmult_le_compat_r; lra.
    + replace ((1 + / 4503599627370496) * (A * w))
        with ((1 + / 4503599627370496) * A * w) by ring.
      apply Rmult_le_compat_r; lra.
Qed.

(** The cast of a positive binary64 number to an integer is its floor. *)
Lemma trunc_represents (f : float) (lo hi : Z) (v : R) :
  represents f lo hi v -> float_trunc f = Some (Zfloor v).
Proof.
  intros (m & e & Hf & _ & _ & <-). unfold float_trunc. rewrite Hf. f_equal.
  symmetry. apply Zfloor_eq. unfold scaled_trunc. cbn [cond_Zopp].
  destruct (Z.leb_spec 0 e) as [He | He].
  - assert (Heq : F2R m e = IZR (Zpos m * 2 ^ e))
      by (unfold F2R; rewrite mult_IZR, IZR_pow2 by lia; reflexivity).
    rewrite Heq. lra.
  - set (k := (- e)%Z). assert (Hk : (0 < k)%Z) by (unfold k; lia).
    assert (HP : (0 < 2 ^ k)%Z) by (apply Z.pow_pos_nonneg; lia).
    rewrite Z.quot_div_nonneg by lia.
    pose proof (Z.mul_div_le (Zpos m) (2 ^ k) HP) as Hq1.
    pose proof (Z.mul_succ_div_gt (Zpos m) (2 ^ k) HP) as Hq2.
    set (z := (Zpos m / 2 ^ k)%Z) in *.
    apply IZR_le in Hq1. apply IZR_lt in Hq2.
    rewrite mult_IZR in Hq1, Hq2. rewrite succ_IZR in Hq2.
    rewrite IZR_pow2 in Hq1, Hq2 by lia.
    unfold F2R. replace e with (- k)%Z by (unfold k; lia).
    rewrite powerRZ_neg'.
    pose proof (powerRZ_2_pos k) as Hw.
    set (w := powerRZ 2 k) in *.
    split.
    + apply (Rmult_le_reg_r w); [exact Hw |].
      replace (IZR (Zpos m) * / w * w) with (IZR (Zpos m)) by (field; lra). lra.
    + apply (Rmult_lt_reg_r w); [exact Hw |].
      replace (IZR (Zpos m) * / w * w) with (IZR (Zpos m)) by (field; lra). lra.
Qed.

Lemma float_of_Z_represents (z : Z) :
  (0 < z <= 2147483647)%Z -> represents (float_of_Z z) (- 52) (- 22) (IZR z).
Proof.
  intros Hz.
  destruct (float_of_Z_exact z) as (m & e & Hf & Hd & He & Hm).
  { change (2 ^ 53)%Z with 9007199254740992%Z. lia. }
  exists m, e. split; [exact Hf |]. split; [exact Hd |]. split.
  - split; [lia |].
    (* m = z * 2^(-e) has 53 bits and z has at most 31 *)
    pose proof (digits2_pos_spec m) as [Hm1 _]. rewrite Hd in Hm1.
    change (2 ^ (53 - 1))%Z with (2 ^ 52)%Z in Hm1.
    destruct (Z_le_gt_dec e (- 22)) as [Hle | Hgt]; [exact Hle |].
    assert (2 ^ (- e) <= 2 ^ 21)%Z by (apply Z.pow_le_mono_r; lia).
    assert (0 < 2 ^ (- e))%Z by (apply Z.pow_pos_nonneg; lia).
    change (2 ^ 52)%Z with (2147483648 * 2 ^ 21)%Z in Hm1. nia.
  - replace (F2R m e) with (IZR (Zpos m) * powerRZ 2 e) by reflexivity.
    rewrite Hm, mult_IZR, IZR_pow2 by lia.
    rewrite Rmult_assoc, <- powerRZ_add by lra.
    replace (- e + e)%Z with 0%Z by lia. rewrite powerRZ_O. ring.
Qed.

(** The constants of the size expression of [resize2]. *)
Lemma scale_plus_tenth : (d_lit 1 2 + d_lit 1 10)%D = 0x1.3333333333333p-1%float.
Proof. vm_compute. reflexivity. Qed.

Lemma scale_plus_half : (d_lit 1 2 + d_lit 1 2)%D = 1%float.
Proof. vm_compute. reflexivity. Qed.

Lemma represents_scale_plus_tenth :
  represents 0x1.3333333333333p-1%float (- 53) (- 53)
    (5404319552844595 / 9007199254740992).
Proof.
  exists 5404319552844595%positive, (- 53)%Z.
  split; [vm_compute; reflexivity |]. split; [reflexivity |]. split; [lia |].
  unfold F2R. change (- 53)%Z with (Z.opp 53).
  rewrite powerRZ_neg', <- IZR_pow2 by lia.
  change (2 ^ 53)%Z with 9007199254740992%Z. reflexivity.
Qed.

Lemma represents_one : represents 1%float (- 52) (- 52) 1.
Proof.
  exists 4503599627370496%positive, (- 52)%Z.
  split; [vm_compute; reflexivity |]. split; [reflexivity |]. split; [lia |].
  unfold F2R. change (- 52)%Z with (Z.opp 52).
  rewrite powerRZ_neg', <- IZR_pow2 by lia.
  change (2 ^ 52)%Z with 4503599627370496%Z. field.
Qed.

(** In binary64 the block that [resize2] allocates holds its destination,
    for every source whose pixel count an [int] holds. *)
Lemma destination_fits_binary64 (sx sy : Z) :
  (0 < sx)%Z -> (0 < sy)%Z -> (sx * sy <= INT_MAX)%Z ->
  destination_fits (D:=float) sx sy (d_lit 1 2) (sx / 2 * (sy / 2)).
Proof.
  intros Hsx Hsy Hint. unfold INT_MAX in Hint.
  change (2 ^ 31 - 1)%Z with 2147483647%Z in Hint.
  assert (Hsx' : (0 < sx <= 2147483647)%Z) by nia.
  assert (Hsy' : (0 < sy <= 2147483647)%Z) by nia.
  pose proof (float_of_Z_represents sx Hsx') as Rx.
  pose proof (float_of_Z_represents sy Hsy') as Ry.
  pose proof (float_of_Z_represents 3 ltac:(lia)) as R3.
  destruct (mul_represents _ _ _ _ _ _ _ _ Rx represents_scale_plus_tenth
              ltac:(lia) ltac:(lia)) as (v1 & R1 & B1).
  destruct (mul_represents _ _ _ _ _ _ _ _ R1 Ry ltac:(lia) ltac:(lia))
    as (v2 & R2 & B2).
  destruct (mul_represents _ _ _ _ _ _ _ _ R2 represents_one ltac:(lia) ltac:(lia))
    as (v3 & R3' & B3).
  destruct (mul_represents _ _ _ _ _ _ _ _ R3' R3 ltac:(lia) ltac:(lia))
    as (v4 & R4 & B4).
  set (X := IZR sx) in *. set (Y := IZR sy) in *.
  assert (HX : 1 <= X) by (apply (IZR_le 1); lia).
  assert (HY : 1 <= Y) by (apply (IZR_le 1); lia).
  assert (HS : X * Y <= 2147483647).
  { unfold X, Y. rewrite <- mult_IZR. apply IZR_le. exact Hint. }
  assert (HS1 : 1 <= X * Y) by nra.
  assert (H1 : 0.59 * X <= v1 <= 0.61 * X) by lra.
  assert (H1Y : 0.59 * (X * Y) <= v1 * Y <= 0.61 * (X * Y)) by nra.
  assert (H2 : 0.58 * (X * Y) <= v2 <= 0.62 * (X * Y)) by lra.
  assert (H3 : 0.57 * (X * Y) <= v3 <= 0.63 * (X * Y)) by lra.
  assert (H4 : 1.7 * (X * Y) <= v4 <= 1.9 * (X * Y)) by lra.
  pose proof (Zfloor_bound v4) as [Hn1 Hn2].
  assert (Hn0 : (0 <= Zfloor v4)%Z) by (apply Zfloor_lub; lra).
  assert (Hnmax : (Zfloor v4 <= 4294967296)%Z) by (apply le_IZR; lra).
  assert (Hq : (4 * (sx / 2 * (sy / 2)) <= sx * sy)%Z).
  { assert (0 <= sx / 2 /\ 2 * (sx / 2) <= sx)%Z by (Z.to_euclidean_division_equations; lia).
    assert (0 <= sy / 2 /\ 2 * (sy / 2) <= sy)%Z by (Z.to_euclidean_division_equations; lia).
    nia. }
  assert (Hq' : 4 * IZR (sx / 2 * (sy / 2)) <= X * Y).
  { unfold X, Y. rewrite <- !mult_IZR. apply IZR_le. exact Hq. }
  exists (Zfloor v4). split.
  - pose proof (trunc_represents _ _ _ _ R4) as Htr.
    unfold destination_bytes. rewrite scale_plus_tenth, scale_plus_half.
    unfold d_cast.
    match goal with
    | |- context [d_trunc ?f] =>
        change (d_trunc f)
          with (float_trunc (float_of_Z sx * 0x1.3333333333333p-1 * float_of_Z sy
                             * 1 * float_of_Z 3)%float)
    end.
    rewrite Htr.
    replace (0 <=? Zfloor v4)%Z with true by (symmetry; apply Z.leb_le; lia).
    replace (Zfloor v4 <=? 2 ^ 64 - 1)%Z with true
      by (symmetry; apply Z.leb_le; change (2 ^ 64 - 1)%Z with 18446744073709551615%Z; lia).
    reflexivity.
  - change sizeof_PPMPixel with 3%Z. apply Z.div_le_lower_bound; [lia |].
    assert (IZR (3 * (sx / 2 * (sy / 2))) < IZR (Zfloor v4 + 1)); [| apply lt_IZR in H; lia].
    rewrite mult_IZR, plus_IZR. lra.
Qed.

End Binary64Reals.

Section BoxClaims.
Context {D : Type} `{Double D}.
Variable junk_x junk_y : Z.
Variable junk_pixel : nat -> PPMPixel.

(** [resize2] on a decoded image, when the block it allocates holds the
    destination: it returns a new image of half the dimensions whose pixels
    are the box pixels of the specification. *)
Lemma resize2_run (h : heap) (src : ptr) (simg : PPMImage) :
  h !! src = Some simg ->
  image_ok simg ->
  destination_fits (img_x simg) (img_y simg) (d_lit 1 2)
    (img_x simg / 2 * (img_y simg / 2)) ->
  exists dst pixels,
    resize2 junk_x junk_y junk_pixel src h =
      Some (dst, with_image h dst (img_x simg / 2) (img_y simg / 2) pixels) /\
    dst <> src /\
    forall x y, 0 <= x < img_x simg / 2 -> 0 <= y < img_y simg / 2 ->
      pixels !! Z.to_nat (x + img_x simg / 2 * y) = Some (box_of simg x y).
Proof.
  intros Hsrc Hok (n & Hn & Hfit).
  set (d := fresh (dom h)).
  assert (Hne : d <> src).
  { intros Heq. apply (is_fresh (dom h)). fold d. rewrite Heq.
    apply elem_of_dom. eauto. }
  set (size := Z.to_nat (n / sizeof_PPMPixel)).
  destruct (resize2_fill junk_x junk_y h src d simg size Hsrc Hne Hok
              ltac:(unfold size; lia) (map junk_pixel (seq 0 size)))
    as (pixels & Hrun & _ & Hfill).
  { rewrite length_map, length_seq. reflexivity. }
  exists d, pixels. split; [| split; [exact Hne |]].
  - unfold resize2. rewrite bind_run. unfold init_destination_image.
    rewrite bind_run, (get_x_run _ _ _ Hsrc).
    rewrite bind_run, (get_y_run _ _ _ Hsrc).
    rewrite bind_run, Hn. cbn [lift]. unfold alloc. cbv zeta.
    exact Hrun.
  - intros x y Hx Hy.
    destruct (index_div_mod (img_x simg / 2) x y Hx) as [Hm Hd].
    rewrite <- Hm at 2. rewrite <- Hd at 3. apply Hfill. nia.
Qed.

End BoxClaims.

(** [resize2] in binary64: the allocation always suffices. *)
Lemma resize2_run_binary64 (junk_x junk_y : Z) (junk_pixel : nat -> PPMPixel)
    (h : heap) (src : ptr) (simg : PPMImage) :
  h !! src = Some simg ->
  image_ok simg ->
  exists dst pixels,
    resize2 (D:=float) junk_x junk_y junk_pixel src h =
      Some (dst, with_image h dst (img_x simg / 2) (img_y simg / 2) pixels) /\
    dst <> src /\
    forall x y, 0 <= x < img_x simg / 2 -> 0 <= y < img_y simg / 2 ->
      pixels !! Z.to_nat (x + img_x simg / 2 * y) = Some (box_of simg x y).
Proof.
  intros Hsrc Hok. apply resize2_run; try assumption.
  destruct Hok as [[Hx Hy Hint _] _].
  apply destination_fits_binary64; assumption.
Qed.

(** C5. On every decoded image the 2x box downsample returns a new image of
    dimensions [floor(width/2)] by [floor(height/2)], and each channel of
    its pixel [(x,y)] is [floor(a/4) + floor(b/4) + floor(c/4) + floor(d/4)]
    for the source samples [a], [b], [c], [d] of that channel at [(2x,2y)],
    [(2x+1,2y)], [(2x,2y+1)], [(2x+1,2y+1)].  (For a width or height of 1 the
    result has no pixel.) *)
Theorem resize2_quarter_sums (junk_x junk_y : Z) (junk_pixel : nat -> PPMPixel)
    (h : heap) (src : ptr) (simg : PPMImage) :
  h !! src = Some simg ->
  image_ok simg ->
  exists dst dimg h',
    resize2 (D:=float) junk_x junk_y junk_pixel src h = Some (dst, h') /\
    h' !! dst = Some dimg /\
    img_x dimg = img_x simg / 2 /\
    img_y dimg = img_y simg / 2 /\
    forall x y, 0 <= x < img_x dimg -> 0 <= y < img_y dimg ->
      exists a b c e,
        pixel_at simg (2 * x) (2 * y) = Some a /\
        pixel_at simg (2 * x + 1) (2 * y) = Some b /\
        pixel_at simg (2 * x) (2 * y + 1) = Some c /\
        pixel_at simg (2 * x + 1) (2 * y + 1) = Some e /\
        pixel_at dimg x y =
          Some {| red := red a / 4 + red b / 4 + red c / 4 + red e / 4;
                  green := green a / 4 + green b / 4 + green c / 4 + green e / 4;
                  blue := blue a / 4 + blue b / 4 + blue c / 4 + blue e / 4 |}.
Proof.
  intros Hsrc Hok.
  destruct (resize2_run_binary64 junk_x junk_y junk_pixel h src simg Hsrc Hok)
    as (dst & pixels & Hrun & _ & Hpx).
  eexists dst, _, _. split; [exact Hrun |].
  split; [apply lookup_insert_eq |]. cbn [img_x img_y].
  split; [reflexivity |]. split; [reflexivity |].
  intros x y Hx Hy.
  destruct (source_quad simg x y (proj1 Hok) Hx Hy) as (Ha & Hb & Hc & Hd).
  eexists _, _, _, _. repeat (split; [eassumption |]).
  unfold pixel_at. cbn [img_x img_data]. rewrite (Hpx x y Hx Hy). reflexivity.
Qed.

(** C9. On every decoded image every channel of every pixel of the result
    of the 2x box downsample lies in [0, 252]; and for any four bytes the
    8-bit value that the four statements accumulate is at most 63, 126, 189
    and 252 after the first, second, third and fourth quarter, so that it is
    their sum and never wraps. *)
Theorem resize2_channel_bound (junk_x junk_y : Z) (junk_pixel : nat -> PPMPixel)
    (h : heap) (src : ptr) (simg : PPMImage) :
  h !! src = Some simg ->
  image_ok simg ->
  (exists dst dimg h',
     resize2 (D:=float) junk_x junk_y junk_pixel src h = Some (dst, h') /\
     h' !! dst = Some dimg /\
     forall x y, 0 <= x < img_x dimg -> 0 <= y < img_y dimg ->
       exists p, pixel_at dimg x y = Some p /\
                 0 <= red p <= 252 /\ 0 <= green p <= 252 /\ 0 <= blue p <= 252) /\
  (forall a b c e,
     channel_ok a -> channel_ok b -> channel_ok c -> channel_ok e ->
     uint8 (Z.quot a 4) = a / 4 /\ a / 4 <= 63 /\
     uint8 (a / 4 + Z.quot b 4) = a / 4 + b / 4 /\ a / 4 + b / 4 <= 126 /\
     uint8 (a / 4 + b / 4 + Z.quot c 4) = a / 4 + b / 4 + c / 4 /\
     a / 4 + b / 4 + c / 4 <= 189 /\
     box_channel a b c e = a / 4 + b / 4 + c / 4 + e / 4 /\
     a / 4 + b / 4 + c / 4 + e / 4 <= 252).
Proof.
  intros Hsrc Hok. split.
  - destruct (resize2_run_binary64 junk_x junk_y junk_pixel h src simg Hsrc Hok)
      as (dst & pixels & Hrun & _ & Hpx).
    eexists dst, _, _. split; [exact Hrun |].
    split; [apply lookup_insert_eq |]. cbn [img_x img_y].
    intros x y Hx Hy. exists (box_of simg x y).
    split; [unfold pixel_at; cbn [img_x img_data]; exact (Hpx x y Hx Hy) |].
    pose proof (half_dims simg (proj1 Hok)) as (? & ? & ? & ? & ? & ? & ?).
    destruct (pixel_of_ok simg (2 * x) (2 * y) Hok) as (? & ? & ?); [lia | lia |].
    destruct (pixel_of_ok simg (2 * x + 1) (2 * y) Hok) as (? & ? & ?); [lia | lia |].
    destruct (pixel_of_ok simg (2 * x) (2 * y + 1) Hok) as (? & ? & ?); [lia | lia |].
    destruct (pixel_of_ok simg (2 * x + 1) (2 * y + 1) Hok) as (? & ? & ?); [lia | lia |].
    unfold box_of, box_pixel. cbn [red green blue].
    repeat split;
      match goal with
      | |- context [quarter_sum ?a ?b ?c ?e] =>
          destruct (box_channel_quarter_sum a b c e) as (_ & _ & _ & _ & ?);
          [assumption .. | lia]
      end.
  - intros a b c e Ha Hb Hc He.
    destruct (box_channel_quarter_sum a b c e Ha Hb Hc He)
      as (Hsum & H1 & H2 & H3 & H4).
    unfold quarter_sum in *. unfold channel_ok in *.
    rewrite !Z.quot_div_nonneg by lia.
    unfold uint8. rewrite !Z.mod_small by lia.
    repeat split; lia.
Qed.


(* ===================================================================== *)
(** ** The scenarios of the 2x box downsample *)
(* ===================================================================== *)

Lemma uniform_4x4_ok : image_ok uniform_4x4.
Proof.
  split.
  - split; cbn; unfold INT_MAX; lia.
  - cbn. repeat (constructor; [unfold pixel_ok, channel_ok; cbn; lia |]).
    constructor.
Qed.

Lemma uniform_4x4_fits :
  destination_fits (D:=float) (img_x uniform_4x4) (img_y uniform_4x4) (d_lit 1 2)
    (img_x uniform_4x4 / 2 * (img_y uniform_4x4 / 2)).
Proof. exists 28. split; [vm_compute; reflexivity | vm_compute; discriminate]. Qed.

(** A heap that holds the uniform 4x4 image and nothing else. *)
Lemma uniform_heap_lookup :
  ({[ 0%nat := uniform_4x4 ]} : heap) !! 0%nat = Some uniform_4x4.
Proof. reflexivity. Qed.

(** C2 (as the code has it). The 2x box downsample of the 4x4 image in which
    every pixel is (200,100,50) returns a 2x2 image in which every pixel is
    (200,100,48): each quarter of the blue sample, 50/4, is truncated to 12
    before the four are added. *)
Theorem resize2_uniform (junk_x junk_y : Z) (junk_pixel : nat -> PPMPixel)
    (h : heap) (src : ptr) :
  h !! src = Some uniform_4x4 ->
  exists dst dimg h',
    resize2 (D:=float) junk_x junk_y junk_pixel src h = Some (dst, h') /\
    h' !! dst = Some dimg /\
    img_x dimg = 2 /\ img_y dimg = 2 /\
    forall x y, 0 <= x < 2 -> 0 <= y < 2 ->
      pixel_at dimg x y = Some (rgb 200 100 48).
Proof.
  intros Hsrc.
  destruct (resize2_run junk_x junk_y junk_pixel h src uniform_4x4 Hsrc
              uniform_4x4_ok uniform_4x4_fits)
    as (dst & pixels & Hrun & _ & Hpx).
  eexists dst, _, _. split; [exact Hrun |].
  split; [apply lookup_insert_eq |]. cbn [img_x img_y].
  split; [reflexivity |]. split; [reflexivity |].
  intros x y Hx Hy. unfold pixel_at. cbn [img_x img_data].
  change (img_x uniform_4x4 / 2) with 2 in *.
  change (img_y uniform_4x4 / 2) with 2 in *.
  rewrite (Hpx x y Hx Hy).
  assert (Hxy : (x = 0 \/ x = 1) /\ (y = 0 \/ y = 1)) by lia.
  destruct Hxy as [[-> | ->] [-> | ->]]; reflexivity.
Qed.

Lemma resize2_uniform_example :
  exists dst dimg h',
    resize2 (D:=float) 0 0 (fun _ => rgb 0 0 0) 0%nat {[ 0%nat := uniform_4x4 ]}
      = Some (dst, h') /\
    h' !! dst = Some dimg /\
    img_x dimg = 2 /\ img_y dimg = 2 /\
    forall x y, 0 <= x < 2 -> 0 <= y < 2 ->
      pixel_at dimg x y = Some (rgb 200 100 48).
Proof.
  exact (resize2_uniform 0 0 (fun _ => rgb 0 0 0) {[ 0%nat := uniform_4x4 ]} 0%nat
           uniform_heap_lookup).
Defined.

(** The claim as the specification states it, with (200,100,50) in the
    result, does not hold: the first pixel of the result is (200,100,48). *)
Lemma resize2_uniform_not_50 :
  ~ (exists dst dimg h',
       resize2 (D:=float) 0 0 (fun _ => rgb 0 0 0) 0%nat {[ 0%nat := uniform_4x4 ]}
         = Some (dst, h') /\
       h' !! dst = Some dimg /\
       forall x y, 0 <= x < 2 -> 0 <= y < 2 ->
         pixel_at dimg x y = Some (rgb 200 100 50)).
Proof.
  intros (dst & dimg & h' & Hrun & Hdst & Hall).
  destruct (resize2_run 0 0 (fun _ => rgb 0 0 0) {[ 0%nat := uniform_4x4 ]} 0%nat
              uniform_4x4 uniform_heap_lookup uniform_4x4_ok uniform_4x4_fits)
    as (dst' & pixels & Hrun' & _ & Hpx).
  rewrite Hrun' in Hrun. injection Hrun as <- <-.
  unfold with_image in Hdst. rewrite lookup_insert_eq in Hdst.
  injection Hdst as <-.
  specialize (Hall 0 0 ltac:(lia) ltac:(lia)).
  unfold pixel_at in Hall. cbn [img_x img_data] in Hall.
  change (img_x uniform_4x4 / 2) with 2 in Hpx.
  change (img_y uniform_4x4 / 2) with 2 in Hpx.
  change (4 / 2) with 2 in Hall.
  specialize (Hpx 0 0 ltac:(lia) ltac:(lia)).
  rewrite Hpx in Hall. discriminate Hall.
Qed.

(** The hypotheses of C5 and C9 at the uniform image. *)
Lemma resize2_quarter_sums_example :
  exists dst dimg h',
    resize2 (D:=float) 0 0 (fun _ => rgb 0 0 0) 0%nat {[ 0%nat := uniform_4x4 ]}
      = Some (dst, h') /\
    h' !! dst = Some dimg /\
    img_x dimg = 2 /\
    img_y dimg = 2 /\
    forall x y, 0 <= x < img_x dimg -> 0 <= y < img_y dimg ->
      exists a b c e,
        pixel_at uniform_4x4 (2 * x) (2 * y) = Some a /\
        pixel_at uniform_4x4 (2 * x + 1) (2 * y) = Some b /\
        pixel_at uniform_4x4 (2 * x) (2 * y + 1) = Some c /\
        pixel_at uniform_4x4 (2 * x + 1) (2 * y + 1) = Some e /\
        pixel_at dimg x y =
          Some {| red := red a / 4 + red b / 4 + red c / 4 + red e / 4;
                  green := green a / 4 + green b / 4 + green c / 4 + green e / 4;
                  blue := blue a / 4 + blue b / 4 + blue c / 4 + blue e / 4 |}.
Proof.
  exact (resize2_quarter_sums 0 0 (fun _ => rgb 0 0 0) {[ 0%nat := uniform_4x4 ]}
           0%nat uniform_4x4 uniform_heap_lookup uniform_4x4_ok).
Defined.

Lemma resize2_channel_bound_example :
  exists dst dimg h',
    resize2 (D:=float) 0 0 (fun _ => rgb 0 0 0) 0%nat {[ 0%nat := uniform_4x4 ]}
      = Some (dst, h') /\
    h' !! dst = Some dimg /\
    forall x y, 0 <= x < img_x dimg -> 0 <= y < img_y dimg ->
      exists p, pixel_at dimg x y = Some p /\
                0 <= red p <= 252 /\ 0 <= green p <= 252 /\ 0 <= blue p <= 252.
Proof.
  exact (proj1 (resize2_channel_bound 0 0 (fun _ => rgb 0 0 0)
                  {[ 0%nat := uniform_4x4 ]} 0%nat uniform_4x4
                  uniform_heap_lookup uniform_4x4_ok)).
Defined.

(** The hypotheses of C10 on a heap with the uniform image and a block of
    nine pixels for the destination of [resize_image], and in the resampling
    step of [main] on the uniform image. *)
Lemma resamplers_keep_source_example :
  let h : heap :=
    {[ 0%nat := uniform_4x4;
       1%nat := {| img_x := 0; img_y := 0;
                   img_data := replicate 9 (rgb 0 0 0) |} ]} in
  (exists h1, resize_image 0%nat 1%nat 0.5%float h = Some (tt, h1) /\
              h1 !! 0%nat = Some uniform_4x4) /\
  (exists dst2 h2,
     resize2 (D:=float) 0 0 (fun _ => rgb 0 0 0) 0%nat h = Some (dst2, h2) /\
     h2 !! 0%nat = Some uniform_4x4) /\
  (exists out h3,
     resample 0 0 (fun _ => rgb 0 0 0) "0.5" 0.5%float uniform_4x4 ∅
       = Some (out, h3) /\
     h3 !! 0%nat = Some uniform_4x4).
Proof.
  intros h.
  destruct (resize_image 0%nat 1%nat 0.5%float h) as [[[] h1] |] eqn:E1;
    [| vm_compute in E1; discriminate E1].
  destruct (resize2 (D:=float) 0 0 (fun _ => rgb 0 0 0) 0%nat h)
    as [[dst2 h2] |] eqn:E2; [| vm_compute in E2; discriminate E2].
  destruct (resample 0 0 (fun _ => rgb 0 0 0) "0.5" 0.5%float uniform_4x4 ∅)
    as [[out h3] |] eqn:E3; [| vm_compute in E3; discriminate E3].
  destruct (resamplers_keep_source 0 0 (fun _ => rgb 0 0 0) h 0%nat 1%nat
              0.5%float h1 dst2 h2 "0.5" uniform_4x4 out h3) as (K1 & K2 & K3).
  split; [| split].
  - exists h1. split; [reflexivity |]. rewrite (K1 ltac:(discriminate) E1). reflexivity.
  - exists dst2, h2. split; [reflexivity |].
    destruct (K2 E2) as [_ ->]. reflexivity.
  - exists out, h3. split; [reflexivity |]. exact (K3 E3).
Defined.

(* ===================================================================== *)
(** ** The coordinates over the reals *)
(* ===================================================================== *)

Section RealCoordinates.
Local Open Scope R_scope.

(** Over the reals the fractional offset [x - floor(x)] lies in [0,1). *)
Lemma sample_fract_real_range (x : R) : 0 <= sample_fract x < 1.
Proof.
  unfold sample_fract. cbn [d_sub d_floor R_Double]. unfold R_floor.
  pose proof (Zfloor_bound x). lra.
Qed.



(** Over the reals, too, the block that [resize2] allocates holds its
    destination. *)
Lemma destination_fits_real (sx sy : Z) :
  (0 < sx)%Z -> (0 < sy)%Z -> (sx * sy <= INT_MAX)%Z ->
  destination_fits (D:=R) sx sy (d_lit 1 2) (sx / 2 * (sy / 2)).
Proof.
  intros Hsx Hsy Hint. unfold INT_MAX in Hint.
  change (2 ^ 31 - 1)%Z with 2147483647%Z in Hint.
  set (v := IZR sx * (1 / 2 + 1 / 10) * IZR sy * (1 / 2 + 1 / 2) * 3).
  assert (HS : 1 <= IZR sx * IZR sy <= 2147483647).
  { rewrite <- mult_IZR. split; [apply (IZR_le 1); nia | apply IZR_le; exact Hint]. }
  assert (Hv : v = 9 / 5 * (IZR sx * IZR sy)) by (unfold v; field).
  pose proof (Zfloor_bound v) as [Hn1 Hn2].
  assert (Hn0 : (0 <= Zfloor v)%Z) by (apply Zfloor_lub; lra).
  assert (Hnmax : (Zfloor v <= 4294967296)%Z) by (apply le_IZR; lra).
  assert (Hq : (4 * (sx / 2 * (sy / 2)) <= sx * sy)%Z).
  { assert (0 <= sx / 2 /\ 2 * (sx / 2) <= sx)%Z by (Z.to_euclidean_division_equations; lia).
    assert (0 <= sy / 2 /\ 2 * (sy / 2) <= sy)%Z by (Z.to_euclidean_division_equations; lia).
    nia. }
  assert (Hq' : 4 * IZR (sx / 2 * (sy / 2)) <= IZR sx * IZR sy).
  { rewrite <- !mult_IZR. apply IZR_le. exact Hq. }
  exists (Zfloor v). split.
  - unfold destination_bytes, d_cast, d_lit.
    cbn [d_mul d_add d_div d_of_Z d_trunc R_Double]. unfold R_trunc.
    change sizeof_PPMPixel with 3%Z. fold v.
    destruct (Rlt_dec v 0) as [Hneg | _]; [lra |].
    replace (0 <=? Zfloor v)%Z with true by (symmetry; apply Z.leb_le; lia).
    replace (Zfloor v <=? 2 ^ 64 - 1)%Z with true
      by (symmetry; apply Z.leb_le; change (2 ^ 64 - 1)%Z with 18446744073709551615%Z; lia).
    reflexivity.
  - change sizeof_PPMPixel with 3%Z. apply Z.div_le_lower_bound; [lia |].
    assert (IZR (3 * (sx / 2 * (sy / 2))) < IZR (Zfloor v + 1)); [| apply lt_IZR in H; lia].
    rewrite mult_IZR, plus_IZR. lra.
Qed.

End RealCoordinates.

(* ===================================================================== *)
(** ** The samplers read the source and nothing else *)
(* ===================================================================== *)

Lemma load_pixel_pure (h : heap) (p : ptr) (i : PPMImage) (k : Z) :
  h !! p = Some i ->
  load_pixel p k h =
    (fun r => (r, h)) <$> (if k <? 0 then None else img_data i !! Z.to_nat k).
Proof.
  intros Hp. unfold load_pixel. rewrite bind_run, (deref_run _ _ _ Hp).
  destruct (k <? 0); [reflexivity |].
  unfold lift. destruct (img_data i !! Z.to_nat k); reflexivity.
Qed.

Lemma get_pixel_clamped_pure (h : heap) (p : ptr) (i : PPMImage) (x y : Z) :
  h !! p = Some i ->
  get_pixel_clamped p x y h = (fun r => (r, h)) <$> edge_pixel i x y.
Proof.
  intros Hp. unfold get_pixel_clamped, edge_pixel.
  rewrite bind_run, (get_x_run _ _ _ Hp).
  rewrite bind_run, (get_y_run _ _ _ Hp).
  rewrite bind_run, (get_x_run _ _ _ Hp).
  rewrite bind_run, (load_pixel_pure _ _ _ _ Hp).
  destruct (_ <? 0); [reflexivity |].
  destruct (img_data i !! _); reflexivity.
Qed.

Lemma gather_row_pure (h : heap) (p : ptr) (i : PPMImage) (xint y : Z) :
  h !! p = Some i ->
  gather_row p xint y h = (fun r => (r, h)) <$> edge_row i xint y.
Proof.
  intros Hp. unfold gather_row, edge_row.
  repeat (rewrite bind_run, (get_pixel_clamped_pure _ _ _ _ _ Hp);
          destruct (edge_pixel i _ y); cbn; [| reflexivity]).
  reflexivity.
Qed.

Section SamplerFacts.
Context {D : Type} `{Double D}.

Lemma bicubic_at_pure (h : heap) (p : ptr) (i : PPMImage)
    (xint : Z) (xfract : D) (yint : Z) (yfract : D) :
  h !! p = Some i ->
  bicubic_at p xint xfract yint yfract h =
    (fun r => (r, h)) <$> bicubic_of i xint xfract yint yfract.
Proof.
  intros Hp. unfold bicubic_at, bicubic_of.
  repeat (rewrite bind_run, (gather_row_pure _ _ _ _ _ Hp);
          destruct (edge_row i xint _); cbn; [| reflexivity]).
  repeat (rewrite bind_run; unfold lift at 1;
          destruct (bicubic_channel _ _ _ _ _ _ _); cbn; [| reflexivity]).
  reflexivity.
Qed.

Lemma sample_bicubic_pure (h : heap) (p : ptr) (i : PPMImage) (u v : D) :
  h !! p = Some i ->
  sample_bicubic p u v h = (fun r => (r, h)) <$> sample_of i u v.
Proof.
  intros Hp. unfold sample_bicubic, sample_of.
  rewrite bind_run, (get_x_run _ _ _ Hp).
  rewrite bind_run. unfold lift at 1.
  destruct (sample_int (sample_coord u (img_x i))) as [xint |]; cbn; [| reflexivity].
  rewrite bind_run, (get_y_run _ _ _ Hp).
  rewrite bind_run. unfold lift at 1.
  destruct (sample_int (sample_coord v (img_y i))) as [yint |]; cbn; [| reflexivity].
  apply bicubic_at_pure. exact Hp.
Qed.

End SamplerFacts.

(* ===================================================================== *)
(** ** The loop of [resize_image] *)
(* ===================================================================== *)

Section SampleBytes.
Context {D : Type} `{Double D}.

Lemma d_cast_range (lo hi : Z) (v : D) (z : Z) :
  d_cast lo hi v = Some z -> lo <= z <= hi.
Proof.
  unfold d_cast. destruct (d_trunc v) as [z' |]; [| discriminate].
  destruct (Z.leb_spec lo z'); destruct (Z.leb_spec z' hi); cbn; try discriminate.
  intros [= <-]. lia.
Qed.

Lemma bicubic_of_bytes (i : PPMImage) (xint : Z) (xfract : D) (yint : Z)
    (yfract : D) (s : uint8x3) :
  bicubic_of i xint xfract yint yfract = Some s ->
  pixel_ok (pixel_of_sample s).
Proof.
  unfold bicubic_of. intros Hs.
  apply bind_Some in Hs as (r0 & _ & Hs). apply bind_Some in Hs as (r1 & _ & Hs).
  apply bind_Some in Hs as (r2 & _ & Hs). apply bind_Some in Hs as (r3 & _ & Hs).
  apply bind_Some in Hs as (s0 & E0 & Hs). apply bind_Some in Hs as (s1 & E1 & Hs).
  apply bind_Some in Hs as (s2 & E2 & Hs).
  apply d_cast_range in E0, E1, E2.
  injection Hs as <-. repeat split; cbn; lia.
Qed.

Lemma sample_of_bytes (i : PPMImage) (u v : D) (s : uint8x3) :
  sample_of i u v = Some s -> pixel_ok (pixel_of_sample s).
Proof.
  unfold sample_of. intros Hs.
  apply bind_Some in Hs as (xint & _ & Hs). apply bind_Some in Hs as (yint & _ & Hs).
  exact (bicubic_of_bytes _ _ _ _ _ _ Hs).
Qed.

End SampleBytes.

Section ResizeLoop.
Context {D : Type} `{Double D}.
Variable h : heap.
Variable src dst : ptr.
Variable simg dimg : PPMImage.
Variable scale : D.
Variable dw dh : Z.
Hypothesis Hsrc : h !! src = Some simg.
Hypothesis Hdst : h !! dst = Some dimg.
Hypothesis Hne : dst <> src.
Hypothesis Hdw : scaled_size (img_x simg) scale = Some dw.
Hypothesis Hdh : scaled_size (img_y simg) scale = Some dh.
Hypothesis Hdw0 : 0 <= dw.
Hypothesis Hdh0 : 0 <= dh.
Hypothesis Hcap : dw * dh <= Z.of_nat (length (img_data dimg)).
Hypothesis Hint : dw * dh <= INT_MAX.
Hypothesis Hsamples : forall x y, 0 <= x < dw -> 0 <= y < dh ->
  is_Some (sample_of simg (normalized x dw) (normalized y dh)).

Let rst (pixels : list PPMPixel) : heap := with_image h dst dw dh pixels.

Lemma rst_src (pixels : list PPMPixel) : rst pixels !! src = Some simg.
Proof. unfold rst, with_image. rewrite lookup_insert_ne by exact Hne. exact Hsrc. Qed.

Lemma rst_dst (pixels : list PPMPixel) :
  rst pixels !! dst = Some {| img_x := dw; img_y := dh; img_data := pixels |}.
Proof. unfold rst, with_image. apply lookup_insert_eq. Qed.

Lemma rst_update (pixels pixels' : list PPMPixel) :
  with_image (rst pixels) dst dw dh pixels' = rst pixels'.
Proof. unfold rst, with_image. apply insert_insert_eq. Qed.

(** The statements for one destination pixel. *)
Lemma resize_pixel_run (pixels : list PPMPixel) (x y : Z) (p : PPMPixel) :
  0 <= x < dw -> 0 <= y < dh ->
  pixels !! Z.to_nat (x + dw * y) = Some p ->
  (dx ← get_x dst;
   let u := normalized x dx in
   sample ← sample_bicubic src u (normalized y dh);
   dx ← get_x dst;
   update_pixel dst (int32 (x + int32 (dx * y))) (set_red (elt0 sample)) ;;
   dx ← get_x dst;
   update_pixel dst (int32 (x + int32 (dx * y))) (set_green (elt1 sample)) ;;
   dx ← get_x dst;
   update_pixel dst (int32 (x + int32 (dx * y))) (set_blue (elt2 sample)))
    (rst pixels) =
  Some (tt, rst (<[Z.to_nat (x + dw * y) := resized_pixel simg dw dh (x + dw * y)]>
                   pixels)).
Proof.
  intros Hx Hy Hp.
  assert (Hi : 0 <= x + dw * y < dw * dh) by nia.
  assert (Hlt : (Z.to_nat (x + dw * y) < length pixels)%nat)
    by (apply lookup_lt_is_Some; eauto).
  destruct (Hsamples x y Hx Hy) as [s Hs].
  pose proof (sample_of_bytes _ _ _ _ Hs) as (Hr & Hg & Hb).
  unfold pixel_of_sample, channel_ok in Hr, Hg, Hb. cbn [red green blue] in Hr, Hg, Hb.
  unfold resized_pixel. destruct (index_div_mod dw x y Hx) as [-> ->]. rewrite Hs.
  cbn [default].
  rewrite bind_run, (get_x_run _ _ _ (rst_dst _)). cbn [img_x].
  rewrite bind_run, (sample_bicubic_pure _ _ _ _ _ (rst_src _)), Hs. cbn [fmap option_fmap option_map].
  rewrite bind_run, (get_x_run _ _ _ (rst_dst _)). cbn [img_x].
  int32_simpl.
  rewrite bind_run, (update_pixel_run _ _ _ _ _ _ (rst_dst _) (proj1 Hi) Hp).
  cbn [img_x img_y img_data]. rewrite rst_update.
  rewrite bind_run, (get_x_run _ _ _ (rst_dst _)). cbn [img_x].
  int32_simpl.
  rewrite bind_run,
    (update_pixel_run _ _ _ _ _ _ (rst_dst _) (proj1 Hi) (list_lookup_insert_eq _ _ _ Hlt)).
  cbn [img_x img_y img_data]. rewrite rst_update, list_insert_insert_eq.
  rewrite bind_run, (get_x_run _ _ _ (rst_dst _)). cbn [img_x].
  int32_simpl.
  rewrite
    (update_pixel_run _ _ _ _ _ _ (rst_dst _) (proj1 Hi) (list_lookup_insert_eq _ _ _ Hlt)).
  cbn [img_x img_y img_data]. rewrite rst_update, list_insert_insert_eq.
  do 3 f_equal. unfold set_blue, set_green, set_red, pixel_of_sample, uint8.
  cbn [red green blue]. rewrite !Z.mod_small by lia. reflexivity.
Qed.

Lemma resize_filled_next (pixels : list PPMPixel) (x y : Z) :
  0 <= x < dw -> 0 <= y < dh ->
  resize_filled simg dw dh (img_data dimg) (x + dw * y) pixels ->
  resize_filled simg dw dh (img_data dimg) (x + dw * y + 1)
    (<[Z.to_nat (x + dw * y) := resized_pixel simg dw dh (x + dw * y)]> pixels).
Proof.
  intros Hx Hy (Hlen & Hfill & Hrest).
  assert (Hi : 0 <= x + dw * y < dw * dh) by nia.
  split; [rewrite length_insert; exact Hlen |]. split.
  - intros j Hj. destruct (Z.eq_dec j (x + dw * y)) as [-> | Hneq].
    + apply list_lookup_insert_eq. lia.
    + rewrite list_lookup_insert_ne by lia. apply Hfill. lia.
  - intros j Hj. rewrite list_lookup_insert_ne by lia. apply Hrest. lia.
Qed.

(** One row of the destination. *)
Lemma resize_row_run (pixels : list PPMPixel) (y : Z) :
  0 <= y < dh ->
  resize_filled simg dw dh (img_data dimg) (dw * y) pixels ->
  exists pixels',
    for_upto dw (fun x =>
      dx ← get_x dst;
      let u := normalized x dx in
      sample ← sample_bicubic src u (normalized y dh);
      dx ← get_x dst;
      update_pixel dst (int32 (x + int32 (dx * y))) (set_red (elt0 sample)) ;;
      dx ← get_x dst;
      update_pixel dst (int32 (x + int32 (dx * y))) (set_green (elt1 sample)) ;;
      dx ← get_x dst;
      update_pixel dst (int32 (x + int32 (dx * y))) (set_blue (elt2 sample)))
      (rst pixels) = Some (tt, rst pixels') /\
    resize_filled simg dw dh (img_data dimg) (dw * (y + 1)) pixels'.
Proof.
  intros Hy Hfill.
  match goal with |- exists _, for_upto dw ?body _ = _ /\ _ =>
    destruct (for_upto_inv
                (fun k hp => exists px, hp = rst px /\
                   resize_filled simg dw dh (img_data dimg) (k + dw * y) px)
                body dw (rst pixels)) as (h' & Hrun & pixels' & -> & Hfill')
  end.
  - exact Hdw0.
  - intros k hp Hk (px & -> & Hpx).
    assert (Hi : 0 <= k + dw * y < dw * dh) by nia.
    destruct (lookup_lt_is_Some_2 px (Z.to_nat (k + dw * y))) as [p Hp].
    { destruct Hpx as [-> _]. lia. }
    eexists. split; [apply (resize_pixel_run px k y p Hk Hy Hp) |].
    eexists. split; [reflexivity |].
    replace (k + 1 + dw * y) with (k + dw * y + 1) by lia.
    apply resize_filled_next; assumption.
  - exists pixels. split; [reflexivity |].
    replace (0 + dw * y) with (dw * y) by lia. exact Hfill.
  - exists pixels'. split; [exact Hrun |].
    replace (dw * (y + 1)) with (dw + dw * y) by lia. exact Hfill'.
Qed.

(** [resize_image] on a source whose samples are all defined, with a
    destination block that holds the result. *)
Lemma resize_image_run :
  exists pixels,
    resize_image src dst scale h = Some (tt, rst pixels) /\
    resize_filled simg dw dh (img_data dimg) (dw * dh) pixels.
Proof.
  assert (Hupd : forall a b px a' b' px',
            with_image (with_image h dst a b px) dst a' b' px' = with_image h dst a' b' px').
  { intros. unfold with_image. apply insert_insert_eq. }
  assert (Hsrc0 : forall a b px, with_image h dst a b px !! src = Some simg).
  { intros. unfold with_image. rewrite lookup_insert_ne by exact Hne. exact Hsrc. }
  assert (Hdst0 : forall a b px, with_image h dst a b px !! dst =
                    Some {| img_x := a; img_y := b; img_data := px |}).
  { intros. unfold with_image. apply lookup_insert_eq. }
  unfold resize_image.
  rewrite bind_run, (get_x_run _ _ _ Hsrc).
  rewrite bind_run, Hdw. cbn [lift].
  rewrite bind_run, (set_x_run _ _ _ _ Hdst).
  rewrite bind_run, (get_y_run _ _ _ (Hsrc0 _ _ _)).
  rewrite bind_run, Hdh. cbn [lift].
  rewrite bind_run, (set_y_run _ _ _ _ (Hdst0 _ _ _)), Hupd. cbn [img_x img_data].
  fold (rst (img_data dimg)).
  rewrite bind_run, (get_y_run _ _ _ (rst_dst _)). cbn [img_y].
  match goal with |- exists _, for_upto dh ?body _ = _ /\ _ =>
    destruct (for_upto_inv
                (fun k hp => exists px, hp = rst px /\
                   resize_filled simg dw dh (img_data dimg) (dw * k) px)
                body dh (rst (img_data dimg))) as (h' & Hrun & pixels' & -> & Hfill')
  end.
  - exact Hdh0.
  - intros k hp Hk (px & -> & Hpx).
    rewrite bind_run, (get_y_run _ _ _ (rst_dst _)). cbn [img_y].
    rewrite bind_run, (get_x_run _ _ _ (rst_dst _)). cbn [img_x].
    destruct (resize_row_run px k Hk Hpx) as (px' & Hrow & Hpx').
    exists (rst px'). split; [exact Hrow |]. exists px'. split; [reflexivity | exact Hpx'].
  - exists (img_data dimg). split; [reflexivity |].
    split; [reflexivity |]. split; [intros j Hj; lia | reflexivity].
  - exists pixels'. split; [exact Hrun | exact Hfill'].
Qed.

End ResizeLoop.

(** X1. [resize_image], run on a heap in which every call of
    [sample_bicubic] that it makes returns, with a destination other than
    the source whose block has room for [dw * dh] pixels, [dw] and [dh]
    being the scaled dimensions: it returns, leaves [dw] and [dh] in the
    destination and, in its block, at index [x + dw * y], the three bytes
    that [sample_bicubic] returns for [u = x / (dw - 1)] and
    [v = y / (dh - 1)] on the source; the pixels of the block from index
    [dw * dh] on are as they were, and the block keeps its length. *)
Theorem resize_image_samples {D} `{Double D} (h : heap) (src dst : ptr)
    (simg dimg : PPMImage) (scale : D) (dw dh : Z) :
  h !! src = Some simg ->
  h !! dst = Some dimg ->
  dst <> src ->
  scaled_size (img_x simg) scale = Some dw ->
  scaled_size (img_y simg) scale = Some dh ->
  0 <= dw -> 0 <= dh ->
  dw * dh <= Z.of_nat (length (img_data dimg)) ->
  dw * dh <= INT_MAX ->
  (forall x y, 0 <= x < dw -> 0 <= y < dh ->
     is_Some (sample_bicubic src (normalized x dw) (normalized y dh) h)) ->
  exists pixels,
    resize_image src dst scale h = Some (tt, with_image h dst dw dh pixels) /\
    length pixels = length (img_data dimg) /\
    (forall x y, 0 <= x < dw -> 0 <= y < dh ->
       exists s,
         sample_bicubic src (normalized x dw) (normalized y dh) h = Some (s, h) /\
         pixels !! Z.to_nat (x + dw * y) =
           Some {| red := elt0 s; green := elt1 s; blue := elt2 s |}) /\
    (forall j, dw * dh <= j -> pixels !! Z.to_nat j = img_data dimg !! Z.to_nat j).
Proof.
  intros Hsrc Hdst Hne Hdw Hdh Hdw0 Hdh0 Hcap Hint Hsamples.
  assert (Hs : forall x y, 0 <= x < dw -> 0 <= y < dh ->
            is_Some (sample_of simg (normalized x dw) (normalized y dh))).
  { intros x y Hx Hy. destruct (Hsamples x y Hx Hy) as [r Hr].
    rewrite (sample_bicubic_pure _ _ _ _ _ Hsrc) in Hr.
    destruct (sample_of simg _ _); [eauto | discriminate]. }
  destruct (resize_image_run h src dst simg dimg scale dw dh Hsrc Hdst Hne Hdw Hdh
              Hdw0 Hdh0 Hcap Hint Hs) as (pixels & Hrun & Hlen & Hfill & Hrest).
  exists pixels. split; [exact Hrun |]. split; [exact Hlen |]. split; [| exact Hrest].
  intros x y Hx Hy.
  destruct (Hs x y Hx Hy) as [s Hsxy]. exists s. split.
  - rewrite (sample_bicubic_pure _ _ _ _ _ Hsrc), Hsxy. reflexivity.
  - rewrite (Hfill (x + dw * y)) by nia. unfold resized_pixel.
    destruct (index_div_mod dw x y Hx) as [-> ->]. rewrite Hsxy. reflexivity.
Qed.

(** The 2x2 image resized by the factor 1.0 into a block of six pixels:
    the four destination pixels are the samples, the last two pixels of the
    block are as they were. *)
Lemma resize_image_samples_example :
  let h : heap :=
    {[ 0%nat := corners_2x2;
       1%nat := {| img_x := 0; img_y := 0;
                   img_data := replicate 6 (rgb 1 2 3) |} ]} in
  exists pixels,
    resize_image 0%nat 1%nat 1%float h = Some (tt, with_image h 1%nat 2 2 pixels) /\
    length pixels = 6%nat /\
    (forall x y, 0 <= x < 2 -> 0 <= y < 2 ->
       exists s,
         sample_bicubic 0%nat (normalized (D:=float) x 2) (normalized y 2) h
           = Some (s, h) /\
         pixels !! Z.to_nat (x + 2 * y) =
           Some {| red := elt0 s; green := elt1 s; blue := elt2 s |}) /\
    (forall j, 2 * 2 <= j -> pixels !! Z.to_nat j =
       replicate 6 (rgb 1 2 3) !! Z.to_nat j).
Proof.
  intros h.
  refine (resize_image_samples h 0%nat 1%nat corners_2x2
            {| img_x := 0; img_y := 0; img_data := replicate 6 (rgb 1 2 3) |}
            1%float 2 2 _ _ _ _ _ _ _ _ _ _).
  - reflexivity.
  - reflexivity.
  - discriminate.
  - vm_compute. reflexivity.
  - vm_compute. reflexivity.
  - lia.
  - lia.
  - cbn. lia.
  - unfold INT_MAX. lia.
  - intros x y Hx Hy.
    assert (Hxy : (x = 0 \/ x = 1) /\ (y = 0 \/ y = 1)) by lia.
    destruct Hxy as [[-> | ->] [-> | ->]]; vm_compute; eexists; reflexivity.
Defined.

(* ===================================================================== *)
(** ** The kernel over the reals: interpolation and overshoot *)
(* ===================================================================== *)

Section KernelReal.
Local Open Scope R_scope.





End KernelReal.

(* ===================================================================== *)
(** ** Flat images under the bicubic sampler, in binary64 *)
(* ===================================================================== *)













(* ===================================================================== *)
(** ** PPM files: numbers and pixels *)
(* ===================================================================== *)

Lemma Z_of_byte_range (b : byte) : 0 <= Z_of_byte b <= 255.
Proof.
  unfold Z_of_byte. pose proof (Byte.to_N_bounded b). lia.
Qed.

Lemma Z_of_byte_of_Z (v : Z) : 0 <= v <= 255 -> Z_of_byte (byte_of_Z v) = v.
Proof.
  intros Hv. unfold Z_of_byte, byte_of_Z, uint8. rewrite Z.mod_small by lia.
  destruct (Byte.of_N (Z.to_N v)) as [b |] eqn:E.
  - cbn. rewrite (Byte.to_of_N _ E). lia.
  - apply Byte.of_N_None_iff in E. lia.
Qed.

Lemma byte_of_Z_of_byte (b : byte) : byte_of_Z (Z_of_byte b) = b.
Proof.
  pose proof (Z_of_byte_range b) as Hb.
  unfold byte_of_Z, Z_of_byte in *. unfold uint8. rewrite Z.mod_small by lia.
  rewrite N2Z.id, Byte.of_to_N. reflexivity.
Qed.

Lemma digit_byte (r : Z) :
  0 <= r <= 9 ->
  isdigit (byte_of_Z (48 + r)) = true /\ digit_value (byte_of_Z (48 + r)) = r /\
  isspace (byte_of_Z (48 + r)) = false /\
  Byte.eqb (byte_of_Z (48 + r)) hash = false /\
  Byte.eqb (byte_of_Z (48 + r)) "-"%byte = false /\
  Byte.eqb (byte_of_Z (48 + r)) "+"%byte = false /\
  Byte.eqb (byte_of_Z (48 + r)) newline = false.
Proof.
  intros Hr.
  assert (H : r = 0 \/ r = 1 \/ r = 2 \/ r = 3 \/ r = 4 \/ r = 5 \/ r = 6 \/
              r = 7 \/ r = 8 \/ r = 9) by lia.
  repeat destruct H as [-> | H]; try subst r; vm_compute; repeat split; reflexivity.
Qed.

Lemma digits_app (fuel : nat) (n : Z) (acc rest : list byte) :
  digits fuel n acc ++ rest = digits fuel n (acc ++ rest).
Proof.
  revert n acc. induction fuel as [| fuel IH]; intros n acc; cbn; [reflexivity |].
  destruct (n <? 10); [reflexivity |]. apply IH.
Qed.

(** The digits that [%d] prints are digits, and read back they are the
    number. *)
Lemma digits_scan (fuel : nat) (n : Z) (acc : list byte) :
  (0 < fuel)%nat -> 0 <= n < 10 ^ Z.of_nat fuel ->
  (exists d rest, digits fuel n acc = d :: rest /\ isdigit d = true) /\
  exists k, 0 <= k /\ forall v,
    scan_digits v (digits fuel n acc) = scan_digits (v * 10 ^ k + n) acc.
Proof.
  revert n acc. induction fuel as [| fuel IH]; intros n acc Hf Hn; [lia |].
  cbn [digits].
  assert (Hr : 0 <= n mod 10 <= 9) by (pose proof (Z.mod_pos_bound n 10); lia).
  destruct (digit_byte (n mod 10) Hr) as (Hd & Hv & _).
  destruct (Z.ltb_spec n 10) as [Hlt | Hge].
  - split; [eauto |]. exists 1. split; [lia |]. intros v. cbn [scan_digits].
    rewrite Hd, Hv. rewrite Z.mod_small by lia. f_equal. lia.
  - assert (Hf' : (0 < fuel)%nat).
    { destruct fuel; [| lia]. cbn in Hn. lia. }
    assert (Hn' : 0 <= n / 10 < 10 ^ Z.of_nat fuel).
    { rewrite Nat2Z.inj_succ, Z.pow_succ_r in Hn by lia.
      split; [apply Z.div_pos; lia | apply Z.div_lt_upper_bound; lia]. }
    destruct (IH (n / 10) (byte_of_Z (48 + n mod 10) :: acc) Hf' Hn')
      as [Hhead (k & Hk0 & Hk)].
    split; [exact Hhead |]. exists (k + 1). split; [lia |]. intros v.
    rewrite Hk. cbn [scan_digits]. rewrite Hd, Hv. f_equal.
    rewrite Z.pow_add_r by lia. pose proof (Z.div_mod n 10). lia.
Qed.

Lemma isdigit_plain (d : byte) :
  isdigit d = true ->
  isspace d = false /\ Byte.eqb d hash = false /\ Byte.eqb d "-"%byte = false /\
  Byte.eqb d "+"%byte = false /\ Byte.eqb d newline = false.
Proof.
  destruct d; intros Hd; try discriminate Hd; vm_compute; repeat split; reflexivity.
Qed.

Lemma scan_digits_stop (v : Z) (s : list byte) :
  no_digit_ahead s -> scan_digits v s = (v, s).
Proof.
  destruct s as [| b s]; cbn; [reflexivity |]. intros ->. reflexivity.
Qed.

(** What [%d] prints for a number that is not negative begins with a digit. *)
Lemma print_int_head (n : Z) (rest : list byte) :
  0 <= n <= INT_MAX ->
  exists d tl, print_int n ++ rest = d :: tl /\ isdigit d = true.
Proof.
  intros Hn. unfold INT_MAX in Hn. unfold print_int.
  destruct (Z.ltb_spec n 0); [lia |].
  rewrite digits_app.
  destruct (digits_scan 10 n ([] ++ rest)) as [Hhead _]; [lia | | exact Hhead].
  change (10 ^ Z.of_nat 10) with 10000000000. change (2 ^ 31 - 1) with 2147483647 in Hn.
  lia.
Qed.

(** [%d] reads back what [%d] printed, after any white space. *)
Lemma scan_int_print (sp : list byte) (n : Z) (rest : list byte) :
  Forall (fun b => isspace b = true) sp ->
  0 <= n <= INT_MAX -> no_digit_ahead rest ->
  scan_int (sp ++ print_int n ++ rest) = Scanned n rest.
Proof.
  intros Hsp Hn Hrest.
  destruct (print_int_head n rest Hn) as (d & tl & Hd & Hdig).
  destruct (isdigit_plain d Hdig) as (Hs & _ & Hm & Hp & _).
  unfold scan_int.
  assert (Hskip : skip_space (sp ++ print_int n ++ rest) = print_int n ++ rest).
  { induction Hsp as [| b sp Hb _ IH]; cbn [app skip_space].
    - rewrite Hd. cbn [skip_space]. rewrite Hs. reflexivity.
    - rewrite Hb. exact IH. }
  rewrite Hskip, Hd. cbn [scan_sign]. rewrite Hm, Hp, Hdig. rewrite <- Hd.
  unfold print_int. destruct (Z.ltb_spec n 0); [lia |].
  rewrite digits_app.
  destruct (digits_scan 10 n ([] ++ rest)) as [_ (k & _ & Hk)]; [lia | |].
  { unfold INT_MAX in Hn. change (10 ^ Z.of_nat 10) with 10000000000.
    change (2 ^ 31 - 1) with 2147483647 in Hn. lia. }
  rewrite Hk. cbn [app]. rewrite Z.mul_0_l, Z.add_0_l.
  rewrite (scan_digits_stop n rest Hrest).
  destruct (Z.leb_spec INT_MIN n); [| unfold INT_MIN in *; lia].
  destruct (Z.leb_spec n INT_MAX); [| lia]. reflexivity.
Qed.

Lemma pixels_of_bytes_of_pixels (l : list PPMPixel) :
  Forall pixel_ok l -> pixels_of_bytes (bytes_of_pixels l) = l.
Proof.
  induction 1 as [| p l (Hr & Hg & Hb) _ IH]; [reflexivity |].
  cbn. rewrite !Z_of_byte_of_Z by assumption. fold (bytes_of_pixels l).
  rewrite IH. destruct p; reflexivity.
Qed.

Lemma length_bytes_of_pixels (l : list PPMPixel) :
  length (bytes_of_pixels l) = (3 * length l)%nat.
Proof.
  induction l as [| p l IH]; [reflexivity |].
  cbn. fold (bytes_of_pixels l). rewrite IH. lia.
Qed.

Lemma pixels_of_bytes_ok (s : list byte) : Forall pixel_ok (pixels_of_bytes s).
Proof.
  assert (H : forall n s, (length s <= n)%nat -> Forall pixel_ok (pixels_of_bytes s)).
  { clear s. induction n as [| n IH]; intros s Hn.
    - destruct s; [constructor | cbn in Hn; lia].
    - destruct s as [| r [| g [| b s]]]; try constructor.
      + repeat split; cbn; apply Z_of_byte_range.
      + apply IH. cbn in Hn. lia. }
  exact (H (length s) s (le_n _)).
Qed.

(** [fgets] on a first line that the buffer holds. *)
Lemma fgets_line (n : nat) (l rest : list byte) :
  no_newline l -> (length l < n)%nat ->
  fgets n (l ++ newline :: rest) = (l ++ [newline], rest).
Proof.
  revert n. induction l as [| b l IH]; intros n Hl Hn.
  - destruct n; [lia |]. reflexivity.
  - destruct n; [cbn in Hn; lia |]. inversion Hl as [| ? ? Hb Hl']; subst.
    cbn [app fgets]. rewrite Hb. rewrite (IH n Hl') by (cbn in Hn; lia).
    reflexivity.
Qed.

Lemma skip_line_no_newline (l : list byte) : no_newline l -> skip_line l = None.
Proof.
  induction 1 as [| b l Hb _ IH]; [reflexivity |]. cbn. rewrite Hb. exact IH.
Qed.

Lemma skip_line_app (l rest : list byte) :
  no_newline l -> skip_line (l ++ newline :: rest) = Some rest.
Proof.
  induction 1 as [| b l Hb _ IH]; [reflexivity |]. cbn. rewrite Hb. exact IH.
Qed.

Lemma skip_comment_no_newline (l : list byte) :
  no_newline l -> skip_comments true l = None.
Proof.
  induction 1 as [| b l Hb _ IH]; [reflexivity |]. cbn. rewrite Hb. exact IH.
Qed.

(* ===================================================================== *)
(** ** PPM files: the header *)
(* ===================================================================== *)

Lemma readPPM_magic (rest : list byte) :
  readPPM_bytes (ppm_magic ++ rest) = read_header rest.
Proof. reflexivity. Qed.

Lemma skip_comments_digit (s : list byte) :
  (exists d tl, s = d :: tl /\ isdigit d = true) ->
  skip_comments false s = Some s.
Proof.
  intros (d & tl & -> & Hd). destruct (isdigit_plain d Hd) as (_ & Hh & _).
  cbn. rewrite Hh. reflexivity.
Qed.

Lemma skip_comments_creator (s : list byte) :
  skip_comments false (ppm_creator ++ s) = skip_comments false s.
Proof. reflexivity. Qed.

Lemma no_digit_ahead_space (s : list byte) : no_digit_ahead (space :: s).
Proof. reflexivity. Qed.

Lemma no_digit_ahead_newline (s : list byte) : no_digit_ahead (newline :: s).
Proof. reflexivity. Qed.

(** The three numbers of a header, read by [read_header]: what follows the
    maximum, up to the next newline, is skipped. *)
Lemma read_header_fields (x y m : Z) (rest : list byte) :
  0 <= x <= INT_MAX -> 0 <= y <= INT_MAX -> 0 <= m <= INT_MAX ->
  no_digit_ahead rest ->
  read_header (print_int x ++ [space] ++ print_int y ++ [newline]
               ++ print_int m ++ rest) =
    if m =? 255
    then match skip_line rest with
         | None => Hangs
         | Some data => read_pixels x y data
         end
    else Exit1.
Proof.
  intros Hx Hy Hm Hrest. unfold read_header.
  rewrite skip_comments_digit by (apply print_int_head; exact Hx).
  cbn [app].
  pose proof (scan_int_print [] x
                (space :: print_int y ++ newline :: print_int m ++ rest)
                ltac:(constructor) Hx (no_digit_ahead_space _)) as Ex.
  cbn [app] in Ex. rewrite Ex.
  pose proof (scan_int_print [space] y
                (newline :: print_int m ++ rest)
                ltac:(repeat constructor) Hy (no_digit_ahead_newline _)) as Ey.
  cbn [app] in Ey. rewrite Ey.
  pose proof (scan_int_print [newline] m rest
                ltac:(repeat constructor) Hm Hrest) as Em.
  cbn [app] in Em. rewrite Em.
  destruct (m =? 255); reflexivity.
Qed.

(** The header that [writePPM] lays out, read by [read_header]. *)
Lemma read_header_numbers (x y m : Z) (data : list byte) :
  0 <= x <= INT_MAX -> 0 <= y <= INT_MAX -> 0 <= m <= INT_MAX ->
  read_header (print_int x ++ [space] ++ print_int y ++ [newline]
               ++ print_int m ++ [newline] ++ data) =
    if m =? 255 then read_pixels x y data else Exit1.
Proof.
  intros Hx Hy Hm.
  exact (read_header_fields x y m (newline :: data) Hx Hy Hm
           (no_digit_ahead_newline _)).
Qed.

Lemma readPPM_ppm_file (x y m : Z) (data : list byte) :
  0 <= x <= INT_MAX -> 0 <= y <= INT_MAX -> 0 <= m <= INT_MAX ->
  readPPM_bytes (ppm_file x y m data) =
    if m =? 255 then read_pixels x y data else Exit1.
Proof.
  intros Hx Hy Hm. unfold ppm_file. rewrite readPPM_magic.
  unfold read_header at 1. rewrite skip_comments_creator.
  exact (read_header_numbers x y m data Hx Hy Hm).
Qed.

(* ===================================================================== *)
(** ** PPM files: what [readPPM] accepts *)
(* ===================================================================== *)

Lemma read_pixels_rows (x y : Z) (data : list byte) :
  0 < x -> 0 < y -> x * y <= INT_MAX -> 3 * x <= INT_MAX ->
  read_pixels x y data =
    if Z.of_nat (length data) <? 3 * x * y then Exit1
    else Decoded {| img_x := x; img_y := y;
                    img_data := pixels_of_bytes (take (Z.to_nat (3 * x * y)) data) |}.
Proof.
  intros Hx Hy Hxy H3. unfold read_pixels.
  destruct (Z.ltb_spec x 0); [lia |]. destruct (Z.ltb_spec y 0); [lia |].
  destruct (Z.ltb_spec INT_MAX (x * y)); [lia |].
  destruct (Z.ltb_spec INT_MAX (3 * x)); [lia |].
  destruct (Z.eqb_spec x 0); [lia |]. destruct (Z.eqb_spec y 0); [lia |].
  reflexivity.
Qed.

(** The file that [writePPM] lays out for a block of [x * y] pixels, read
    back. *)
Lemma readPPM_written (x y : Z) (pixels : list PPMPixel) :
  0 < x -> 0 < y -> x * y <= INT_MAX -> 3 * x <= INT_MAX ->
  Z.of_nat (length pixels) = x * y -> Forall pixel_ok pixels ->
  readPPM_bytes (ppm_file x y 255 (bytes_of_pixels pixels)) =
    Decoded {| img_x := x; img_y := y; img_data := pixels |}.
Proof.
  intros Hx Hy Hxy H3 Hlen Hok.
  assert (Hi : 0 <= x <= INT_MAX /\ 0 <= y <= INT_MAX) by nia.
  rewrite readPPM_ppm_file by (unfold INT_MAX in *; lia). cbn [Z.eqb Pos.eqb].
  rewrite read_pixels_rows by assumption.
  rewrite length_bytes_of_pixels.
  destruct (Z.ltb_spec (Z.of_nat (3 * length pixels)) (3 * x * y)); [lia |].
  rewrite take_ge by (rewrite length_bytes_of_pixels; lia).
  rewrite pixels_of_bytes_of_pixels by exact Hok. reflexivity.
Qed.

(** What [fwrite] writes of a block that holds the rows. *)
Lemma fwrite_pixels_rows (img : PPMImage) :
  0 < img_x img -> 0 < img_y img -> 3 * img_x img <= INT_MAX ->
  img_x img * img_y img <= Z.of_nat (length (img_data img)) ->
  fwrite_pixels img =
    Some (bytes_of_pixels (take (Z.to_nat (img_x img * img_y img)) (img_data img))).
Proof.
  intros Hx Hy H3 Hlen. unfold fwrite_pixels.
  destruct (Z.ltb_spec (3 * img_x img) INT_MIN); [unfold INT_MIN in *; lia |].
  destruct (Z.ltb_spec INT_MAX (3 * img_x img)); [lia |].
  destruct (Z.eqb_spec (img_x img) 0); [lia |].
  destruct (Z.eqb_spec (img_y img) 0); [lia |].
  destruct (Z.ltb_spec (img_x img) 0); [lia |].
  destruct (Z.ltb_spec (img_y img) 0); [lia |].
  destruct (Z.ltb_spec (Z.of_nat (length (img_data img))) (img_x img * img_y img));
    [lia |].
  reflexivity.
Qed.

(** A header with the width 0 and a height that is not 0. *)
Lemma readPPM_zero_width (y : Z) (data : list byte) :
  0 < y <= INT_MAX -> readPPM_bytes (ppm_file 0 y 255 data) = Exit1.
Proof.
  intros Hy. rewrite readPPM_ppm_file by (unfold INT_MAX in *; lia).
  cbn [Z.eqb Pos.eqb]. unfold read_pixels.
  destruct (Z.ltb_spec y 0); [lia |].
  destruct (Z.eqb_spec y 0); [lia |].
  cbn. destruct (Z.ltb_spec INT_MAX 0); [unfold INT_MAX in *; lia |].
  reflexivity.
Qed.

(** X5. What [writePPM] writes, [readPPM] reads back.  For an image of
    positive dimensions whose pixel count, and three times whose width, an
    [int] holds, with a block of at least [x * y] pixels: [writePPM] writes
    a file, and [readPPM] decodes from its bytes an image of the same
    dimensions whose block is the first [x * y] pixels of the block
    written. *)
Theorem readPPM_writePPM (img : PPMImage) :
  0 < img_x img -> 0 < img_y img ->
  img_x img * img_y img <= INT_MAX -> 3 * img_x img <= INT_MAX ->
  img_x img * img_y img <= Z.of_nat (length (img_data img)) ->
  Forall pixel_ok (take (Z.to_nat (img_x img * img_y img)) (img_data img)) ->
  exists s,
    writePPM_bytes img = Some s /\
    readPPM_bytes s =
      Decoded {| img_x := img_x img; img_y := img_y img;
                 img_data := take (Z.to_nat (img_x img * img_y img)) (img_data img) |}.
Proof.
  intros Hx Hy Hxy H3 Hlen Hok.
  eexists. split.
  - unfold writePPM_bytes. rewrite fwrite_pixels_rows by assumption. reflexivity.
  - apply readPPM_written; try assumption. rewrite length_take. lia.
Qed.

(** The 2x2 image written and read back. *)
Lemma readPPM_writePPM_example :
  exists s, writePPM_bytes corners_2x2 = Some s /\
            readPPM_bytes s = Decoded corners_2x2.
Proof.
  refine (readPPM_writePPM corners_2x2 _ _ _ _ _ _); cbn; unfold INT_MAX; try lia.
  repeat (constructor; [repeat split; cbn; lia |]). constructor.
Defined.

(** X6. [readPPM] accepts the maximum 255 and no other: on a file with the
    layout of [writePPM], dimensions that an [int] holds and any other
    maximum, 65535 for instance, it leaves the program by [exit(1)],
    whatever the data. *)
Theorem readPPM_maxval (x y maxval : Z) (data : list byte) :
  0 <= x <= INT_MAX -> 0 <= y <= INT_MAX -> 0 <= maxval <= INT_MAX ->
  maxval <> 255 ->
  readPPM_bytes (ppm_file x y maxval data) = Exit1.
Proof.
  intros Hx Hy Hm Hne. rewrite readPPM_ppm_file by assumption.
  destruct (Z.eqb_spec maxval 255); [contradiction | reflexivity].
Qed.

Lemma readPPM_maxval_example :
  readPPM_bytes (ppm_file 1 1 65535 ["001"%byte; "002"%byte; "003"%byte;
                                     "004"%byte; "005"%byte; "006"%byte]) = Exit1.
Proof.
  apply readPPM_maxval; unfold INT_MAX; lia.
Defined.

(** X7. The pixel data.  On a file with the layout of [writePPM], positive
    dimensions and the maximum 255: with fewer than [3 * x * y] bytes of data
    [readPPM] leaves the program by [exit(1)]; with that many or more it
    returns the image of the first [3 * x * y] bytes, three to a pixel, each
    channel a byte, and ignores what follows them. *)
Theorem readPPM_data (x y : Z) (data extra : list byte) :
  0 < x -> 0 < y -> x * y <= INT_MAX -> 3 * x <= INT_MAX ->
  (Z.of_nat (length data) < 3 * x * y ->
   readPPM_bytes (ppm_file x y 255 data) = Exit1) /\
  (Z.of_nat (length data) = 3 * x * y ->
   readPPM_bytes (ppm_file x y 255 (data ++ extra)) =
     Decoded {| img_x := x; img_y := y; img_data := pixels_of_bytes data |} /\
   Z.of_nat (length (pixels_of_bytes data)) = x * y /\
   Forall pixel_ok (pixels_of_bytes data)).
Proof.
  intros Hx Hy Hxy H3.
  assert (Hi : 0 <= x <= INT_MAX /\ 0 <= y <= INT_MAX) by nia.
  split.
  - intros Hshort. rewrite readPPM_ppm_file by (unfold INT_MAX in *; lia).
    cbn [Z.eqb Pos.eqb]. rewrite read_pixels_rows by assumption.
    destruct (Z.ltb_spec (Z.of_nat (length data)) (3 * x * y)); [reflexivity | lia].
  - intros Hfull. split; [| split].
    + rewrite readPPM_ppm_file by (unfold INT_MAX in *; lia).
      cbn [Z.eqb Pos.eqb]. rewrite read_pixels_rows by assumption.
      rewrite length_app.
      destruct (Z.ltb_spec (Z.of_nat (length data + length extra)) (3 * x * y));
        [lia |].
      rewrite take_app_length' by lia. reflexivity.
    + assert (Hlen : forall n s, length s = (3 * n)%nat ->
                length (pixels_of_bytes s) = n).
      { clear. induction n as [| n IH]; intros s Hs.
        - destruct s; [reflexivity | discriminate].
        - destruct s as [| r [| g [| b s]]]; cbn in Hs; try lia.
          cbn. rewrite IH by lia. reflexivity. }
      rewrite (Hlen (Z.to_nat (x * y))) by lia. lia.
    + apply pixels_of_bytes_ok.
Qed.

Lemma readPPM_data_example :
  readPPM_bytes (ppm_file 1 2 255 ["001"%byte; "002"%byte; "003"%byte;
                                   "004"%byte; "005"%byte]) = Exit1 /\
  readPPM_bytes (ppm_file 1 2 255 (["001"%byte; "002"%byte; "003"%byte;
                                    "004"%byte; "005"%byte; "006"%byte]
                                   ++ ["007"%byte])) =
    Decoded {| img_x := 1; img_y := 2; img_data := [rgb 1 2 3; rgb 4 5 6] |}.
Proof.
  split.
  - refine (proj1 (readPPM_data 1 2 _ [] _ _ _ _) _); cbn; unfold INT_MAX; lia.
  - refine (proj1 (proj2 (readPPM_data 1 2 _ _ _ _ _ _) _));
      cbn; unfold INT_MAX; lia.
Defined.

(** X8. Files on which [readPPM] does not end.  The two loops that skip to
    the end of a line compare what [getc] returns with the newline only, and
    at the end of the file it returns [EOF] for ever: a comment that no
    newline ends, and a header with nothing or with text without a newline
    after the maximum (a file that ends after [255]), keep [readPPM] in its
    loop. *)
Theorem readPPM_hangs (x y : Z) (text : list byte) :
  no_newline text ->
  readPPM_bytes (ppm_magic ++ hash :: text) = Hangs /\
  (0 <= x <= INT_MAX -> 0 <= y <= INT_MAX -> no_digit_ahead text ->
   readPPM_bytes (ppm_magic ++ print_int x ++ [space] ++ print_int y ++ [newline]
                  ++ print_int 255 ++ text) = Hangs).
Proof.
  intros Htext. split.
  - rewrite readPPM_magic. unfold read_header. cbn [skip_comments].
    change (Byte.eqb hash hash) with true. cbv iota.
    rewrite skip_comment_no_newline by exact Htext. reflexivity.
  - intros Hx Hy Hd. rewrite readPPM_magic.
    rewrite read_header_fields; try assumption; [| unfold INT_MAX; lia].
    cbn [Z.eqb Pos.eqb]. rewrite skip_line_no_newline by exact Htext.
    reflexivity.
Qed.

(** A file that ends in a comment, and a header that ends after the
    maximum. *)
Lemma readPPM_hangs_example :
  readPPM_bytes (ppm_magic ++ hash :: list_byte_of_string " no end") = Hangs /\
  readPPM_bytes (ppm_magic ++ print_int 640 ++ [space] ++ print_int 480 ++ [newline]
                 ++ print_int 255 ++ []) = Hangs.
Proof.
  destruct (readPPM_hangs 640 480 (list_byte_of_string " no end")) as [H1 _].
  { repeat constructor. }
  destruct (readPPM_hangs 640 480 []) as [_ H2].
  { constructor. }
  split; [exact H1 |]. apply H2; [unfold INT_MAX; lia .. | exact I].
Defined.

Lemma fgets_two (n : nat) (s : list byte) :
  let buff := (fgets (S (S n)) s).1 ++ ["000"%byte] in
  (exists b0 b1 tl, buff = b0 :: b1 :: tl /\
     (b0 = "P"%byte -> b1 = "6"%byte -> exists rest, s = "P"%byte :: "6"%byte :: rest))
  \/ buff = ["000"%byte].
Proof.
  destruct s as [| b0 s]; [right; reflexivity |]. left. cbn [fgets].
  destruct (Byte.eqb b0 newline) eqn:E0.
  - exists b0, "000"%byte, []. split; [reflexivity |].
    intros -> _. discriminate E0.
  - destruct s as [| b1 s].
    + exists b0, "000"%byte, []. split; [reflexivity |]. intros _ H. discriminate H.
    + cbn [fgets]. destruct (Byte.eqb b1 newline).
      * exists b0, b1, ["000"%byte]. split; [reflexivity |]. intros -> ->. eauto.
      * destruct (fgets n s) as [l r]. exists b0, b1, (l ++ ["000"%byte]).
        split; [reflexivity |]. intros -> ->. eauto.
Qed.

(** X9. The format line.  [readPPM] leaves the program by [exit(1)] on every
    file that does not begin with the two bytes [P6]; and of the first line
    it looks at these two bytes only: whatever follows them up to the
    newline (252 bytes at most, so that the buffer of 256 holds the line) is
    dropped, and the dimensions are read from the lines below.  A header
    written on one line, as the format allows, is therefore not read: the
    file [P6 1 1 255] with three bytes of data after the newline is
    rejected. *)
Theorem readPPM_format (s junk rest : list byte) :
  ((forall tl, s <> "P"%byte :: "6"%byte :: tl) -> readPPM_bytes s = Exit1) /\
  (no_newline junk -> (length junk <= 252)%nat ->
   readPPM_bytes ("P"%byte :: "6"%byte :: junk ++ newline :: rest) =
     readPPM_bytes (ppm_magic ++ rest)) /\
  readPPM_bytes (list_byte_of_string "P6 1 1 255" ++ newline
                 :: list_byte_of_string "abc") = Exit1.
Proof.
  split; [| split].
  - intros Hs. unfold readPPM_bytes.
    pose proof (fgets_two 253 s) as Hb. cbv zeta in Hb.
    destruct (fgets 255 s) as [buff r]. cbn [fst] in Hb.
    destruct Hb as [(b0 & b1 & tl & -> & Hb) | ->]; [| reflexivity].
    destruct (Byte.eqb b0 "P"%byte) eqn:E0; [| reflexivity].
    destruct (Byte.eqb b1 "6"%byte) eqn:E1; [| reflexivity].
    apply Byte.byte_dec_bl in E0, E1.
    destruct (Hb E0 E1) as [tl' ->]. exfalso. exact (Hs tl' eq_refl).
  - intros Hjunk Hlen. rewrite readPPM_magic. unfold readPPM_bytes.
    change ("P"%byte :: "6"%byte :: junk ++ newline :: rest)
      with (("P"%byte :: "6"%byte :: junk) ++ newline :: rest).
    rewrite (fgets_line 255 ("P"%byte :: "6"%byte :: junk) rest);
      [reflexivity | repeat constructor; exact Hjunk | cbn; lia].
  - vm_compute. reflexivity.
Qed.

(** A file that begins with [P5], and a first line with text after [P6]. *)
Lemma readPPM_format_example :
  readPPM_bytes (list_byte_of_string "P5 and more") = Exit1 /\
  readPPM_bytes ("P"%byte :: "6"%byte :: list_byte_of_string " 2 2 255"
                 ++ newline :: ppm_creator) =
    readPPM_bytes (ppm_magic ++ ppm_creator).
Proof.
  split.
  - refine (proj1 (readPPM_format _ [] []) _). intros tl H. discriminate H.
  - refine (proj1 (proj2 (readPPM_format [] _ _)) _ _).
    + repeat constructor.
    + cbn. lia.
Defined.

(** X10. Images without pixels.  [writePPM] writes an image of width 0, or
    of height 0, as a header without data.  With the height 0 [readPPM] reads
    it back, as an image with an empty block; with the width 0 and a height
    that is not 0 it leaves the program by [exit(1)], because [fread] returns
    0 for rows of size 0 and [readPPM] compares that with the height. *)
Theorem readPPM_no_pixels (img : PPMImage) :
  (img_x img = 0 -> 0 < img_y img <= INT_MAX ->
   exists s, writePPM_bytes img = Some s /\ readPPM_bytes s = Exit1) /\
  (img_y img = 0 -> 0 <= 3 * img_x img <= INT_MAX ->
   exists s, writePPM_bytes img = Some s /\
             readPPM_bytes s =
               Decoded {| img_x := img_x img; img_y := 0; img_data := [] |}).
Proof.
  split.
  - intros Hx Hy. exists (ppm_file 0 (img_y img) 255 []). split.
    + unfold writePPM_bytes, fwrite_pixels. rewrite Hx. reflexivity.
    + apply readPPM_zero_width. exact Hy.
  - intros Hy Hx. exists (ppm_file (img_x img) 0 255 []). split.
    + unfold writePPM_bytes, fwrite_pixels. rewrite Hy.
      destruct (Z.ltb_spec (3 * img_x img) INT_MIN); [unfold INT_MIN in *; lia |].
      destruct (Z.ltb_spec INT_MAX (3 * img_x img)); [lia |].
      cbn [orb]. rewrite orb_true_r. reflexivity.
    + rewrite readPPM_ppm_file by (unfold INT_MAX in *; lia).
      cbn [Z.eqb Pos.eqb]. unfold read_pixels.
      destruct (Z.ltb_spec (img_x img) 0); [lia |].
      rewrite Z.mul_0_r. cbn [Z.ltb Z.compare orb].
      destruct (Z.ltb_spec INT_MAX 0); [unfold INT_MAX in *; lia |].
      destruct (Z.ltb_spec INT_MAX (3 * img_x img)); [lia |].
      cbn [orb]. rewrite orb_true_r. reflexivity.
Qed.

(** An image 0 wide and 3 high, and one 3 wide and 0 high. *)
Lemma readPPM_no_pixels_example :
  (exists s, writePPM_bytes {| img_x := 0; img_y := 3; img_data := [] |} = Some s /\
             readPPM_bytes s = Exit1) /\
  (exists s, writePPM_bytes {| img_x := 3; img_y := 0; img_data := [] |} = Some s /\
             readPPM_bytes s = Decoded {| img_x := 3; img_y := 0; img_data := [] |}).
Proof.
  split.
  - refine (proj1 (readPPM_no_pixels _) _ _); cbn; unfold INT_MAX; lia.
  - refine (proj2 (readPPM_no_pixels {| img_x := 3; img_y := 0; img_data := [] |}) _ _);
      cbn; unfold INT_MAX; lia.
Defined.

Lemma skip_comment_line (text rest : list byte) :
  no_newline text ->
  skip_comments true (text ++ newline :: rest) = skip_comments false rest.
Proof.
  induction 1 as [| b l Hb _ IH]; [reflexivity |].
  cbn [app skip_comments]. rewrite Hb. exact IH.
Qed.

Lemma skip_comment_lines (lines : list (list byte)) (rest : list byte) :
  Forall no_newline lines ->
  skip_comments false (comment_lines lines ++ rest) = skip_comments false rest.
Proof.
  induction 1 as [| text lines Htext _ IH]; [reflexivity |].
  unfold comment_lines. cbn [fmap list_fmap concat].
  rewrite <- !app_assoc. cbn [app skip_comments].
  change (Byte.eqb hash hash) with true. cbv iota.
  rewrite <- app_assoc. cbn [app].
  rewrite (skip_comment_line text _ Htext). exact IH.
Qed.

(** X11. Comments.  Below the format line [readPPM] skips any number of
    comment lines, whatever their text, and reads the header after them; a
    comment further down it does not accept: with a comment between the
    dimensions and the maximum, where the format allows one, it leaves the
    program by [exit(1)]. *)
Theorem readPPM_comments (lines : list (list byte)) (rest text : list byte)
    (x y : Z) :
  Forall no_newline lines ->
  readPPM_bytes (ppm_magic ++ comment_lines lines ++ rest) =
    readPPM_bytes (ppm_magic ++ rest) /\
  (0 <= x <= INT_MAX -> 0 <= y <= INT_MAX ->
   readPPM_bytes (ppm_magic ++ print_int x ++ [space] ++ print_int y ++ [newline]
                  ++ hash :: text) = Exit1).
Proof.
  intros Hlines. split.
  - rewrite !readPPM_magic. unfold read_header.
    rewrite skip_comment_lines by exact Hlines. reflexivity.
  - intros Hx Hy. rewrite readPPM_magic. unfold read_header.
    rewrite skip_comments_digit by (apply print_int_head; exact Hx).
    cbn [app].
    pose proof (scan_int_print [] x (space :: print_int y ++ newline :: hash :: text)
                  ltac:(constructor) Hx (no_digit_ahead_space _)) as Ex.
    cbn [app] in Ex. rewrite Ex.
    pose proof (scan_int_print [space] y (newline :: hash :: text)
                  ltac:(repeat constructor) Hy (no_digit_ahead_newline _)) as Ey.
    cbn [app] in Ey. rewrite Ey.
    reflexivity.
Qed.

(** Two comment lines above the header of the 2x2 image, and one inside. *)
Lemma readPPM_comments_example :
  readPPM_bytes (ppm_magic
                 ++ comment_lines [list_byte_of_string " one"; list_byte_of_string "# two"]
                 ++ print_int 2 ++ [space] ++ print_int 2 ++ [newline])
    = readPPM_bytes (ppm_magic ++ print_int 2 ++ [space] ++ print_int 2 ++ [newline]) /\
  readPPM_bytes (ppm_magic ++ print_int 2 ++ [space] ++ print_int 2 ++ [newline]
                 ++ hash :: list_byte_of_string " max") = Exit1.
Proof.
  destruct (readPPM_comments
              [list_byte_of_string " one"; list_byte_of_string "# two"]
              (print_int 2 ++ [space] ++ print_int 2 ++ [newline])
              (list_byte_of_string " max") 2 2) as [H1 H2].
  { repeat constructor. }
  split; [exact H1 |]. apply H2; unfold INT_MAX; lia.
Defined.

(* ===================================================================== *)
(** ** The images that [readPPM] returns *)
(* ===================================================================== *)

Lemma length_pixels_of_bytes (n : nat) (s : list byte) :
  length s = (3 * n)%nat -> length (pixels_of_bytes s) = n.
Proof.
  revert s. induction n as [| n IH]; intros s Hs.
  - destruct s; [reflexivity | discriminate].
  - destruct s as [| r [| g [| b s]]]; cbn in Hs; try lia.
    cbn. rewrite IH by lia. reflexivity.
Qed.

Lemma read_pixels_decoded (x y : Z) (s : list byte) (img : PPMImage) :
  read_pixels x y s = Decoded img ->
  img_x img = x /\ img_y img = y /\
  0 <= x /\ 0 <= y /\ x * y <= INT_MAX /\ 3 * x <= INT_MAX /\
  Z.of_nat (length (img_data img)) = x * y /\
  Forall pixel_ok (img_data img).
Proof.
  unfold read_pixels.
  destruct (Z.ltb_spec x 0); [discriminate |].
  destruct (Z.ltb_spec y 0); [discriminate |].
  destruct (Z.ltb_spec INT_MAX (x * y)); [discriminate |].
  destruct (Z.ltb_spec INT_MAX (3 * x)); [discriminate |]. cbn [orb].
  destruct (Z.eqb_spec x 0) as [-> | Hx0]; cbn [orb].
  - destruct (Z.eqb_spec y 0) as [-> | Hy0]; [| discriminate].
    intros [= <-]. cbn. repeat split; try lia. constructor.
  - destruct (Z.eqb_spec y 0) as [-> | Hy0].
    + intros [= <-]. cbn. repeat split; try lia. constructor.
    + destruct (Z.ltb_spec (Z.of_nat (length s)) (3 * x * y)); [discriminate |].
      intros [= <-]. cbn [img_x img_y img_data]. repeat split; try lia.
      * rewrite (length_pixels_of_bytes (Z.to_nat (x * y)));
          [nia | rewrite length_take; nia].
      * apply pixels_of_bytes_ok.
Qed.

Lemma readPPM_bytes_decoded (s : list byte) (img : PPMImage) :
  readPPM_bytes s = Decoded img ->
  exists x y data, read_pixels x y data = Decoded img.
Proof.
  unfold readPPM_bytes. destruct (fgets 255 s) as [buff r].
  destruct (buff ++ ["000"%byte]) as [| b0 [| b1 tl]]; try discriminate.
  destruct (negb (Byte.eqb b0 "P"%byte) || negb (Byte.eqb b1 "6"%byte));
    [discriminate |].
  unfold read_header.
  destruct (skip_comments false r) as [r0 |]; [| discriminate].
  destruct (scan_int r0) as [x r1 | |]; try discriminate.
  destruct (scan_int r1) as [y r2 | |]; try discriminate.
  destruct (scan_int r2) as [m r3 | |]; try discriminate.
  destruct (negb (m =? 255)); [discriminate |].
  destruct (skip_line r3) as [data |]; [| discriminate].
  eauto.
Qed.



(* ===================================================================== *)
(** ** The driver on a file system *)
(* ===================================================================== *)

Section DriverFilesFacts.
Context {D : Type} `{Double D}.
Variable junk_x junk_y : Z.
Variable junk_pixel : nat -> PPMPixel.
Variable atof : string -> D.
Variable writable : string -> bool.

(** X13. A run in place.  With the same path for the input and the output,
    and arguments that pass the checks, the program removes the file before
    it opens it for reading: it leaves by [exit(1)], and the file is gone,
    whatever it held. *)
Theorem main_files_in_place (fs : files) (prog factor file : string) :
  negb (String.eqb factor "2x") && d_leb (atof factor) (d_of_Z 0) = false ->
  main_files junk_x junk_y junk_pixel atof writable fs [prog; factor; file; file]
    = Exits 1 (delete file fs) /\
  delete file fs !! file = None.
Proof.
  intros Hacc. split; [| apply lookup_delete_eq].
  unfold main_files. rewrite Hacc.
  unfold readPPM. rewrite lookup_delete_eq. reflexivity.
Qed.


End DriverFilesFacts.

(** A run in place on a file system with one image. *)
Lemma main_files_in_place_example :
  let fs : files := {[ "a.ppm"%string := ppm_file 1 1 255 (list_byte_of_string "abc") ]} in
  main_files 0 0 (fun _ => rgb 0 0 0) (fun _ => 2%float) (fun _ => true) fs
    ["prog"; "2.0"; "a.ppm"; "a.ppm"]%string = Exits 1 (delete "a.ppm"%string fs) /\
  delete "a.ppm"%string fs !! "a.ppm"%string = None.
Proof.
  intros fs.
  exact (main_files_in_place 0 0 (fun _ => rgb 0 0 0) (fun _ => 2%float)
           (fun _ => true) fs "prog" "2.0" "a.ppm" eq_refl).
Defined.

(** The pixels of the box image are bytes. *)
Lemma box_of_ok (i : PPMImage) (x y : Z) :
  image_ok i -> 0 <= x < img_x i / 2 -> 0 <= y < img_y i / 2 ->
  pixel_ok (box_of i x y).
Proof.
  intros Hok Hx Hy.
  pose proof (half_dims i (proj1 Hok)) as (? & ? & ? & ? & ? & ? & ?).
  destruct (pixel_of_ok i (2 * x) (2 * y) Hok) as (? & ? & ?); [lia | lia |].
  destruct (pixel_of_ok i (2 * x + 1) (2 * y) Hok) as (? & ? & ?); [lia | lia |].
  destruct (pixel_of_ok i (2 * x) (2 * y + 1) Hok) as (? & ? & ?); [lia | lia |].
  destruct (pixel_of_ok i (2 * x + 1) (2 * y + 1) Hok) as (? & ? & ?); [lia | lia |].
  unfold box_of, box_pixel, pixel_ok, channel_ok. cbn [red green blue].
  repeat split;
    match goal with
    | |- context [quarter_sum ?a ?b ?c ?e] =>
        destruct (box_channel_quarter_sum a b c e) as (_ & _ & _ & _ & ?);
        [assumption .. | lia]
    end.
Qed.

Lemma box_image_ok (i : PPMImage) :
  image_ok i ->
  Z.of_nat (length (img_data (box_image i))) = img_x i / 2 * (img_y i / 2) /\
  Forall pixel_ok (img_data (box_image i)).
Proof.
  intros Hok.
  pose proof (half_dims i (proj1 Hok)) as (? & ? & ? & Hdw & Hdh & ? & ?).
  unfold box_image. cbn [img_data]. split.
  - rewrite length_fmap, length_seqZ. nia.
  - apply Forall_fmap, Forall_forall. intros j Hj. apply elem_of_seqZ in Hj.
    cbn. assert (0 < img_x i / 2) by nia.
    apply box_of_ok; [exact Hok | apply Z.mod_pos_bound; lia |].
    split; [apply Z.div_pos; lia | apply Z.div_lt_upper_bound; nia].
Qed.

(** The block that [resize2] fills, up to the pixel count, is the block of
    the box image. *)
Lemma box_pixels_take (i : PPMImage) (pixels : list PPMPixel) :
  0 <= img_x i / 2 -> 0 <= img_y i / 2 ->
  (forall x y, 0 <= x < img_x i / 2 -> 0 <= y < img_y i / 2 ->
     pixels !! Z.to_nat (x + img_x i / 2 * y) = Some (box_of i x y)) ->
  img_x i / 2 * (img_y i / 2) <= Z.of_nat (length pixels) /\
  take (Z.to_nat (img_x i / 2 * (img_y i / 2))) pixels = img_data (box_image i).
Proof.
  set (dw := img_x i / 2). set (dh := img_y i / 2). intros Hdw Hdh Hpx.
  assert (Hj : forall j, 0 <= j < dw * dh ->
            pixels !! Z.to_nat j = Some (box_of i (j mod dw) (j / dw))).
  { intros j Hj. assert (0 < dw) by nia.
    rewrite <- (Hpx (j mod dw) (j / dw)).
    - f_equal. f_equal. pose proof (Z.div_mod j dw). lia.
    - apply Z.mod_pos_bound. lia.
    - split; [apply Z.div_pos; lia | apply Z.div_lt_upper_bound; nia]. }
  assert (Hlen : dw * dh <= Z.of_nat (length pixels)).
  { destruct (Z.eq_dec (dw * dh) 0) as [-> | Hne]; [lia |].
    pose proof (Hj (dw * dh - 1) ltac:(nia)) as Hlast.
    apply lookup_lt_Some in Hlast. lia. }
  split; [exact Hlen |].
  unfold box_image. cbn [img_data]. fold dw dh.
  apply list_eq. intros k.
  destruct (decide (k < Z.to_nat (dw * dh))%nat) as [Hk | Hk].
  - rewrite lookup_take_lt by exact Hk.
    rewrite list_lookup_fmap, (lookup_seqZ_lt _ _ k) by lia.
    rewrite Z.add_0_l. cbn [fmap option_fmap option_map].
    rewrite <- (Hj (Z.of_nat k)) by lia. rewrite Nat2Z.id. reflexivity.
  - rewrite lookup_take_ge by lia.
    rewrite list_lookup_fmap, lookup_seqZ_ge by lia. reflexivity.
Qed.

(** The resampling step of [main] for the factor [2x], in binary64. *)
Lemma resample_2x (junk_x junk_y : Z) (junk_pixel : nat -> PPMPixel)
    (scale : float) (img : PPMImage) :
  image_ok img ->
  exists pixels h',
    resample junk_x junk_y junk_pixel "2x" scale img ∅ =
      Some ({| img_x := img_x img / 2; img_y := img_y img / 2;
               img_data := pixels |}, h') /\
    img_x img / 2 * (img_y img / 2) <= Z.of_nat (length pixels) /\
    take (Z.to_nat (img_x img / 2 * (img_y img / 2))) pixels =
      img_data (box_image img).
Proof.
  intros Hok.
  set (s := fresh (dom (∅ : heap))).
  set (h0 := <[s := img]> (∅ : heap)).
  assert (Hs : h0 !! s = Some img) by apply lookup_insert_eq.
  destruct (resize2_run_binary64 junk_x junk_y junk_pixel h0 s img Hs Hok)
    as (dst & pixels & Hrun & _ & Hpx).
  pose proof (half_dims img (proj1 Hok)) as (_ & _ & _ & Hdw & Hdh & _).
  destruct (box_pixels_take img pixels Hdw Hdh Hpx) as [Hlen Htake].
  exists pixels, (with_image h0 dst (img_x img / 2) (img_y img / 2) pixels).
  split; [| split; assumption].
  unfold resample. rewrite bind_run.
  destruct (alloc_run img ∅) as [-> _]. fold s h0.
  rewrite bind_run. cbn [String.eqb Ascii.eqb Bool.eqb]. rewrite Hrun.
  unfold deref, with_image. rewrite lookup_insert_eq. reflexivity.
Qed.

(** X15. The quick downsample from file to file, in binary64.  With an input
    file that [readPPM] decodes to an image at least 2 by 2, an output path
    other than the input that can be opened for writing, and the factor
    [2x], the program exits with 0; it leaves every file but the output as it
    was, and the output is a file that [readPPM] decodes to the box image of
    the input: half the dimensions, and each channel the sum of the quarters
    of the four source samples. *)
Theorem main_files_2x (junk_x junk_y : Z) (junk_pixel : nat -> PPMPixel)
    (atof : string -> float) (writable : string -> bool)
    (fs : files) (prog infile outfile : string) (s : list byte) (img : PPMImage) :
  infile <> outfile ->
  fs !! infile = Some s ->
  readPPM_bytes s = Decoded img ->
  2 <= img_x img -> 2 <= img_y img ->
  writable outfile = true ->
  exists s',
    main_files junk_x junk_y junk_pixel atof writable fs
      [prog; "2x"%string; infile; outfile] = Exits 0 (<[outfile := s']> fs) /\
    readPPM_bytes s' = Decoded (box_image img).
Proof.
  intros Hne Hin Hdec Hx Hy Hw.
  destruct (readPPM_bytes_decoded s img Hdec) as (x & y & data & Hd).
  destruct (read_pixels_decoded x y data img Hd)
    as (Ex & Ey & _ & _ & Hxy & H3 & Hlen & Hpix).
  subst x y.
  assert (Hok : image_ok img).
  { split; [split; try lia; assumption | exact Hpix]. }
  destruct (resample_2x junk_x junk_y junk_pixel (atof "2x"%string) img Hok)
    as (pixels & h' & Hres & Hcap & Htake).
  pose proof (half_dims img (proj1 Hok)) as (_ & _ & _ & Hdw & Hdh & Hdw2 & Hdh2).
  destruct (box_image_ok img Hok) as [Hblen Hbok].
  assert (Hdw1 : 1 <= img_x img / 2) by (Z.to_euclidean_division_equations; lia).
  assert (Hdh1 : 1 <= img_y img / 2) by (Z.to_euclidean_division_equations; lia).
  exists (ppm_file (img_x img / 2) (img_y img / 2) 255
            (bytes_of_pixels (img_data (box_image img)))).
  split.
  - unfold main_files. cbn [String.eqb Ascii.eqb Bool.eqb negb andb].
    unfold readPPM. rewrite lookup_delete_ne by congruence. rewrite Hin, Hdec, Hres, Hw.
    unfold writePPM, writePPM_bytes.
    assert (H3' : 3 * (img_x img / 2) <= INT_MAX) by lia.
    rewrite fwrite_pixels_rows by (cbn [img_x img_y img_data]; lia).
    cbn [img_x img_y img_data]. rewrite Htake. cbn [fmap option_fmap option_map mbind option_bind].
    rewrite insert_delete_eq. reflexivity.
  - assert (Hbxy : img_x img / 2 * (img_y img / 2) <= INT_MAX) by nia.
    rewrite readPPM_written by (try assumption; lia). reflexivity.
Qed.

(** The 2x2 image, downsampled from [in.ppm] to [out.ppm]. *)
Lemma main_files_2x_example :
  let s := ppm_file 2 2 255 (bytes_of_pixels (img_data corners_2x2)) in
  let fs : files := {[ "in.ppm"%string := s ]} in
  exists s',
    main_files 0 0 (fun _ => rgb 0 0 0) (fun _ => 0%float) (fun _ => true) fs
      ["prog"; "2x"; "in.ppm"; "out.ppm"]%string
      = Exits 0 (<["out.ppm"%string := s']> fs) /\
    readPPM_bytes s' = Decoded (box_image corners_2x2).
Proof.
  intros s fs.
  refine (main_files_2x 0 0 (fun _ => rgb 0 0 0) (fun _ => 0%float) (fun _ => true)
            fs "prog" "in.ppm" "out.ppm" s corners_2x2 _ _ _ _ _ _).
  - discriminate.
  - reflexivity.
  - vm_compute. reflexivity.
  - cbn. lia.
  - cbn. lia.
  - reflexivity.
Defined.

(** X16. The quick downsample of an image one pixel wide, in binary64.  With
    an input file that [readPPM] decodes to an image of width 1 and height
    at least 2, the program exits with 0 and writes an output of width 0,
    which [readPPM] does not accept: the program cannot read the file that
    it has written. *)
Theorem main_files_2x_narrow (junk_x junk_y : Z) (junk_pixel : nat -> PPMPixel)
    (atof : string -> float) (writable : string -> bool)
    (fs : files) (prog infile outfile : string) (s : list byte) (img : PPMImage) :
  infile <> outfile ->
  fs !! infile = Some s ->
  readPPM_bytes s = Decoded img ->
  img_x img = 1 -> 2 <= img_y img ->
  writable outfile = true ->
  exists fs',
    main_files junk_x junk_y junk_pixel atof writable fs
      [prog; "2x"%string; infile; outfile] = Exits 0 fs' /\
    fs' !! outfile = Some (ppm_file 0 (img_y img / 2) 255 []) /\
    readPPM fs' outfile = Exit1.
Proof.
  intros Hne Hin Hdec Hx Hy Hw.
  destruct (readPPM_bytes_decoded s img Hdec) as (x & y & data & Hd).
  destruct (read_pixels_decoded x y data img Hd)
    as (Ex & Ey & _ & _ & Hxy & H3 & Hlen & Hpix).
  subst x y.
  assert (Hok : image_ok img).
  { split; [split; try lia; assumption | exact Hpix]. }
  destruct (resample_2x junk_x junk_y junk_pixel (atof "2x"%string) img Hok)
    as (pixels & h' & Hres & Hcap & Htake).
  rewrite Hx in Hres. change (1 / 2) with 0 in Hres.
  assert (Hdh : 0 < img_y img / 2 <= INT_MAX).
  { unfold INT_MAX in *. Z.to_euclidean_division_equations. lia. }
  exists (<[outfile := ppm_file 0 (img_y img / 2) 255 []]> fs).
  split; [| split].
  - unfold main_files. cbn [String.eqb Ascii.eqb Bool.eqb negb andb].
    unfold readPPM. rewrite lookup_delete_ne by congruence. rewrite Hin, Hdec, Hres, Hw.
    assert (Hfw : fwrite_pixels {| img_x := 0; img_y := img_y img / 2;
                                   img_data := pixels |} = Some []) by reflexivity.
    unfold writePPM, writePPM_bytes. rewrite Hfw.
    cbn [fmap option_fmap option_map mbind option_bind img_x img_y].
    rewrite insert_delete_eq. reflexivity.
  - apply lookup_insert_eq.
  - unfold readPPM. rewrite lookup_insert_eq. apply readPPM_zero_width. exact Hdh.
Qed.

(** A column of two pixels, downsampled from [in.ppm] to [out.ppm]. *)
Lemma main_files_2x_narrow_example :
  let column := {| img_x := 1; img_y := 2; img_data := [rgb 1 2 3; rgb 4 5 6] |} in
  let s := ppm_file 1 2 255 (bytes_of_pixels (img_data column)) in
  let fs : files := {[ "in.ppm"%string := s ]} in
  exists fs',
    main_files 0 0 (fun _ => rgb 0 0 0) (fun _ => 0%float) (fun _ => true) fs
      ["prog"; "2x"; "in.ppm"; "out.ppm"]%string = Exits 0 fs' /\
    fs' !! "out.ppm"%string = Some (ppm_file 0 1 255 []) /\
    readPPM fs' "out.ppm"%string = Exit1.
Proof.
  intros column s fs.
  refine (main_files_2x_narrow 0 0 (fun _ => rgb 0 0 0) (fun _ => 0%float)
            (fun _ => true) fs "prog" "in.ppm" "out.ppm" s column _ _ _ _ _ _).
  - discriminate.
  - reflexivity.
  - vm_compute. reflexivity.
  - reflexivity.
  - cbn. lia.
  - reflexivity.
Defined.

(* ===================================================================== *)
(** ** The 2x box downsample: rounding, odd edges and the allocation *)
(* ===================================================================== *)

Lemma quarter_sum_mean (a b c d : Z) :
  0 <= a -> 0 <= b -> 0 <= c -> 0 <= d ->
  quarter_sum a b c d <= (a + b + c + d) / 4 <= quarter_sum a b c d + 3.
Proof.
  intros Ha Hb Hc Hd. unfold quarter_sum.
  Z.to_euclidean_division_equations. lia.
Qed.

Lemma quarter_sum_flat (c : Z) : quarter_sum c c c c = c - c mod 4.
Proof.
  unfold quarter_sum. Z.to_euclidean_division_equations. lia.
Qed.

Lemma pixel_of_flat (i : PPMImage) (p : PPMPixel) (x y : Z) :
  buffer_ok i -> Forall (eq p) (img_data i) ->
  0 <= x < img_x i -> 0 <= y < img_y i -> pixel_of i x y = p.
Proof.
  intros Hbuf Hall Hx Hy.
  pose proof (pixel_at_pixel_of i x y Hbuf Hx Hy) as Hp.
  unfold pixel_at in Hp. symmetry. exact (Forall_lookup_1 _ _ _ _ Hall Hp).
Qed.

(** X17. The 2x box downsample rounds down, in binary64 as over any
    arithmetic of the size.  On every decoded image each channel [v] of each
    pixel of the result is at most the mean of the four source samples,
    rounded down, and less than it by 3 at most; and on an image in which
    every pixel is [p] each channel [c] of [p] comes out as [c - c mod 4]:
    the result is as flat as the source, and darker unless [c] is a multiple
    of 4. *)
Theorem resize2_rounds_down (junk_x junk_y : Z) (junk_pixel : nat -> PPMPixel)
    (h : heap) (src : ptr) (simg : PPMImage) :
  h !! src = Some simg ->
  image_ok simg ->
  exists dst dimg h',
    resize2 (D:=float) junk_x junk_y junk_pixel src h = Some (dst, h') /\
    h' !! dst = Some dimg /\
    (forall x y, 0 <= x < img_x dimg -> 0 <= y < img_y dimg ->
       exists a b c e q,
         pixel_at simg (2 * x) (2 * y) = Some a /\
         pixel_at simg (2 * x + 1) (2 * y) = Some b /\
         pixel_at simg (2 * x) (2 * y + 1) = Some c /\
         pixel_at simg (2 * x + 1) (2 * y + 1) = Some e /\
         pixel_at dimg x y = Some q /\
         red q <= (red a + red b + red c + red e) / 4 <= red q + 3 /\
         green q <= (green a + green b + green c + green e) / 4 <= green q + 3 /\
         blue q <= (blue a + blue b + blue c + blue e) / 4 <= blue q + 3) /\
    (forall p, Forall (eq p) (img_data simg) ->
       forall x y, 0 <= x < img_x dimg -> 0 <= y < img_y dimg ->
         pixel_at dimg x y =
           Some {| red := red p - red p mod 4;
                   green := green p - green p mod 4;
                   blue := blue p - blue p mod 4 |}).
Proof.
  intros Hsrc Hok.
  destruct (resize2_run_binary64 junk_x junk_y junk_pixel h src simg Hsrc Hok)
    as (dst & pixels & Hrun & _ & Hpx).
  pose proof (half_dims simg (proj1 Hok)) as (? & ? & ? & ? & ? & ? & ?).
  eexists dst, _, _. split; [exact Hrun |].
  split; [apply lookup_insert_eq |]. cbn [img_x img_y]. split.
  - intros x y Hx Hy.
    destruct (source_quad simg x y (proj1 Hok) Hx Hy) as (Ha & Hb & Hc & Hd).
    eexists _, _, _, _, _. repeat (split; [eassumption |]).
    split; [unfold pixel_at; cbn [img_x img_data]; exact (Hpx x y Hx Hy) |].
    destruct (pixel_of_ok simg (2 * x) (2 * y) Hok) as ([] & [] & []); [lia | lia |].
    destruct (pixel_of_ok simg (2 * x + 1) (2 * y) Hok) as ([] & [] & []); [lia | lia |].
    destruct (pixel_of_ok simg (2 * x) (2 * y + 1) Hok) as ([] & [] & []); [lia | lia |].
    destruct (pixel_of_ok simg (2 * x + 1) (2 * y + 1) Hok) as ([] & [] & []);
      [lia | lia |].
    unfold box_of, box_pixel. cbn [red green blue].
    repeat split; apply quarter_sum_mean; assumption.
  - intros p Hall x y Hx Hy.
    unfold pixel_at. cbn [img_x img_data]. rewrite (Hpx x y Hx Hy).
    unfold box_of.
    rewrite !(pixel_of_flat simg p) by (try assumption; try exact (proj1 Hok); lia).
    unfold box_pixel. rewrite !quarter_sum_flat. reflexivity.
Qed.

(** The uniform 4x4 image: 200 and 100 are kept, 50 becomes 48. *)
Lemma resize2_rounds_down_example :
  exists dst dimg h',
    resize2 (D:=float) 0 0 (fun _ => rgb 0 0 0) 0%nat {[ 0%nat := uniform_4x4 ]}
      = Some (dst, h') /\
    h' !! dst = Some dimg /\
    forall x y, 0 <= x < img_x dimg -> 0 <= y < img_y dimg ->
      pixel_at dimg x y = Some (rgb 200 100 48).
Proof.
  destruct (resize2_rounds_down 0 0 (fun _ => rgb 0 0 0) {[ 0%nat := uniform_4x4 ]}
              0%nat uniform_4x4 uniform_heap_lookup uniform_4x4_ok)
    as (dst & dimg & h' & Hrun & Hdst & _ & Hflat).
  exists dst, dimg, h'. split; [exact Hrun |]. split; [exact Hdst |].
  exact (Hflat (rgb 200 100 50) ltac:(cbn; repeat constructor)).
Defined.

(** X18. The 2x box downsample does not look at the last column of a source
    of odd width, nor at the last row of a source of odd height: in
    binary64, two decoded images of the same dimensions that agree at the
    coordinates below [2 * floor(width/2)] and [2 * floor(height/2)] give
    results that agree in their dimensions and at every pixel. *)
Theorem resize2_ignores_odd_edge (junk_x junk_y : Z) (junk_pixel : nat -> PPMPixel)
    (h1 h2 : heap) (src1 src2 : ptr) (i1 i2 : PPMImage) :
  h1 !! src1 = Some i1 -> h2 !! src2 = Some i2 ->
  image_ok i1 -> image_ok i2 ->
  img_x i1 = img_x i2 -> img_y i1 = img_y i2 ->
  (forall x y, 0 <= x < 2 * (img_x i1 / 2) -> 0 <= y < 2 * (img_y i1 / 2) ->
     pixel_at i1 x y = pixel_at i2 x y) ->
  exists dst1 d1 h1' dst2 d2 h2',
    resize2 (D:=float) junk_x junk_y junk_pixel src1 h1 = Some (dst1, h1') /\
    h1' !! dst1 = Some d1 /\
    resize2 (D:=float) junk_x junk_y junk_pixel src2 h2 = Some (dst2, h2') /\
    h2' !! dst2 = Some d2 /\
    img_x d1 = img_x d2 /\ img_y d1 = img_y d2 /\
    forall x y, 0 <= x < img_x d1 -> 0 <= y < img_y d1 ->
      is_Some (pixel_at d1 x y) /\ pixel_at d1 x y = pixel_at d2 x y.
Proof.
  intros Hs1 Hs2 Hok1 Hok2 Ex Ey Hagree.
  destruct (resize2_run_binary64 junk_x junk_y junk_pixel h1 src1 i1 Hs1 Hok1)
    as (dst1 & px1 & Hrun1 & _ & Hpx1).
  destruct (resize2_run_binary64 junk_x junk_y junk_pixel h2 src2 i2 Hs2 Hok2)
    as (dst2 & px2 & Hrun2 & _ & Hpx2).
  eexists dst1, _, _, dst2, _, _.
  split; [exact Hrun1 |]. split; [apply lookup_insert_eq |].
  split; [exact Hrun2 |]. split; [apply lookup_insert_eq |].
  cbn [img_x img_y]. split; [congruence |]. split; [congruence |].
  intros x y Hx Hy. unfold pixel_at. cbn [img_x img_data].
  rewrite (Hpx1 x y Hx Hy). split; [eauto |].
  rewrite (Hpx2 x y) by (rewrite <- ?Ex, <- ?Ey; assumption).
  f_equal. unfold box_of, pixel_of.
  rewrite !Hagree by lia. reflexivity.
Qed.

(** Two 3x3 images that differ in the last column and the last row only. *)
Lemma resize2_ignores_odd_edge_example :
  let i1 := {| img_x := 3; img_y := 3; img_data := replicate 9 (rgb 8 8 8) |} in
  let i2 := {| img_x := 3; img_y := 3;
               img_data := [rgb 8 8 8; rgb 8 8 8; rgb 1 2 3;
                            rgb 8 8 8; rgb 8 8 8; rgb 4 5 6;
                            rgb 7 8 9; rgb 0 0 0; rgb 255 255 255] |} in
  exists dst1 d1 h1' dst2 d2 h2',
    resize2 (D:=float) 0 0 (fun _ => rgb 0 0 0) 0%nat {[ 0%nat := i1 ]}
      = Some (dst1, h1') /\
    h1' !! dst1 = Some d1 /\
    resize2 (D:=float) 0 0 (fun _ => rgb 0 0 0) 0%nat {[ 0%nat := i2 ]}
      = Some (dst2, h2') /\
    h2' !! dst2 = Some d2 /\
    img_x d1 = img_x d2 /\ img_y d1 = img_y d2 /\
    forall x y, 0 <= x < img_x d1 -> 0 <= y < img_y d1 ->
      is_Some (pixel_at d1 x y) /\ pixel_at d1 x y = pixel_at d2 x y.
Proof.
  intros i1 i2.
  refine (resize2_ignores_odd_edge 0 0 (fun _ => rgb 0 0 0)
            {[ 0%nat := i1 ]} {[ 0%nat := i2 ]} 0%nat 0%nat i1 i2 _ _ _ _ _ _ _).
  - reflexivity.
  - reflexivity.
  - split; [split; cbn; unfold INT_MAX; lia |].
    cbn. repeat (constructor; [repeat split; cbn; lia |]). constructor.
  - split; [split; cbn; unfold INT_MAX; lia |].
    cbn. repeat (constructor; [repeat split; cbn; lia |]). constructor.
  - reflexivity.
  - reflexivity.
  - cbn [img_x img_y i1]. change (3 / 2) with 1. intros x y Hx Hy.
    assert (Hxy : (x = 0 \/ x = 1) /\ (y = 0 \/ y = 1)) by lia.
    destruct Hxy as [[-> | ->] [-> | ->]]; reflexivity.
Defined.

(** X19. The block of [init_destination_image] for the quick downsample, in
    binary64.  For every source whose pixel count an [int] holds, the call
    with the scale 0.5 returns a pointer that was not in use, to an image
    whose dimensions are not set and whose block has room for
    [floor(width/2) * floor(height/2)] pixels at least: the size
    [x*(0.5+.1)*y*(0.5+.5)*3], as rounded at each product and cut to a whole
    number of bytes, is never short.  The objects of the heap are kept. *)
Theorem init_destination_image_half (junk_x junk_y : Z)
    (junk_pixel : nat -> PPMPixel) (h : heap) (src : ptr) (simg : PPMImage) :
  h !! src = Some simg ->
  buffer_ok simg ->
  exists n : nat,
    init_destination_image (D:=float) junk_x junk_y junk_pixel src (d_lit 1 2) h =
      Some (fresh (dom h),
            <[fresh (dom h) := {| img_x := junk_x; img_y := junk_y;
                                  img_data := map junk_pixel (seq 0 n) |}]> h) /\
    h !! fresh (dom h) = None /\
    img_x simg / 2 * (img_y simg / 2) <= Z.of_nat n.
Proof.
  intros Hsrc [Hx Hy Hint _].
  destruct (destination_fits_binary64 (img_x simg) (img_y simg) Hx Hy Hint)
    as (n & Hn & Hfit).
  exists (Z.to_nat (n / sizeof_PPMPixel)). split; [| split].
  - unfold init_destination_image.
    rewrite bind_run, (get_x_run _ _ _ Hsrc).
    rewrite bind_run, (get_y_run _ _ _ Hsrc).
    rewrite bind_run, Hn. reflexivity.
  - apply not_elem_of_dom, is_fresh.
  - lia.
Qed.

(** The block for the uniform 4x4 image: 9 pixels for a result of 4. *)
Lemma init_destination_image_half_example :
  exists n : nat,
    init_destination_image (D:=float) 0 0 (fun _ => rgb 0 0 0) 0%nat (d_lit 1 2)
      {[ 0%nat := uniform_4x4 ]} =
      Some (fresh (dom ({[ 0%nat := uniform_4x4 ]} : heap)),
            <[fresh (dom ({[ 0%nat := uniform_4x4 ]} : heap)) :=
                {| img_x := 0; img_y := 0;
                   img_data := map (fun _ => rgb 0 0 0) (seq 0 n) |}]>
              {[ 0%nat := uniform_4x4 ]}) /\
    ({[ 0%nat := uniform_4x4 ]} : heap)
      !! fresh (dom ({[ 0%nat := uniform_4x4 ]} : heap)) = None /\
    img_x uniform_4x4 / 2 * (img_y uniform_4x4 / 2) <= Z.of_nat n.
Proof.
  exact (init_destination_image_half 0 0 (fun _ => rgb 0 0 0)
           {[ 0%nat := uniform_4x4 ]} 0%nat uniform_4x4 uniform_heap_lookup
           (proj1 uniform_4x4_ok)).
Defined.

(* ===================================================================== *)
(** ** The first and the only pixel of a row, in binary64 *)
(* ===================================================================== *)

Lemma float_of_Z_positive (z : Z) :
  0 < z <= INT_MAX ->
  exists m e, Prim2SF (float_of_Z z) = S754_finite false m e.
Proof.
  intros Hz. unfold INT_MAX in Hz.
  destruct (float_of_Z_exact z) as (m & e & Hf & _); [| eauto].
  change (2 ^ 53) with 9007199254740992. change (2 ^ 31 - 1) with 2147483647 in Hz.
  lia.
Qed.

(** The coordinate of the first pixel of a destination row or column of at
    least two pixels. *)
Lemma first_coordinate (dw sx : Z) :
  2 <= dw <= INT_MAX -> 0 < sx <= INT_MAX ->
  normalized (D:=float) 0 dw = 0%float /\
  sample_coord (normalized (D:=float) 0 dw) sx = (-0.5)%float.
Proof.
  intros Hdw Hsx.
  assert (Hu : normalized (D:=float) 0 dw = 0%float).
  { unfold normalized. rewrite int32_id by (unfold INT_MIN, INT_MAX in *; lia).
    destruct (float_of_Z_positive (dw - 1)) as (m & e & Hf); [lia |].
    apply Prim2SF_inj. cbn [d_div d_of_Z float_Double].
    rewrite div_spec, Hf. reflexivity. }
  split; [exact Hu |].
  rewrite Hu. unfold sample_coord.
  destruct (float_of_Z_positive sx Hsx) as (m & e & Hf).
  assert (Hp : (0 * float_of_Z sx)%float = 0%float).
  { apply Prim2SF_inj. rewrite mul_spec, Hf. reflexivity. }
  cbn [d_mul d_sub d_of_Z float_Double]. rewrite Hp. reflexivity.
Qed.

(** X20. The first pixel of every row and column, in binary64.  For every
    destination at least two pixels wide and every source width, the
    normalized coordinate of the column 0 is 0, the source coordinate is
    -0.5, the base index [(int)x] is 0, where the floor is -1, and the
    offset is 0.5; and the same for the rows.  The first pixel of the
    destination is therefore never read off the first pixel of the source:
    [sample_bicubic] interpolates it half way between the pixels 0 and 1,
    around the anchor (0,0). *)
Theorem first_pixel_anchor (h : heap) (src : ptr) (simg : PPMImage) (dw dh : Z) :
  h !! src = Some simg ->
  0 < img_x simg <= INT_MAX -> 0 < img_y simg <= INT_MAX ->
  2 <= dw <= INT_MAX -> 2 <= dh <= INT_MAX ->
  let x := sample_coord (normalized (D:=float) 0 dw) (img_x simg) in
  x = (-0.5)%float /\
  sample_int x = Some 0 /\
  d_floor x = (-1)%float /\
  sample_fract x = 0.5%float /\
  sample_bicubic src (normalized (D:=float) 0 dw) (normalized (D:=float) 0 dh) h =
    bicubic_at src 0 0.5%float 0 0.5%float h.
Proof.
  intros Hsrc Hsx Hsy Hdw Hdh x.
  destruct (first_coordinate dw (img_x simg) Hdw Hsx) as [_ Hx].
  destruct (first_coordinate dh (img_y simg) Hdh Hsy) as [_ Hy].
  unfold x. rewrite Hx.
  split; [reflexivity |]. split; [reflexivity |].
  split; [reflexivity |]. split; [reflexivity |].
  unfold sample_bicubic.
  rewrite bind_run, (get_x_run _ _ _ Hsrc). rewrite Hx.
  rewrite bind_run. change (sample_int (-0.5)%float) with (Some 0). cbn [lift].
  rewrite bind_run, (get_y_run _ _ _ Hsrc). rewrite Hy.
  rewrite bind_run. change (sample_int (-0.5)%float) with (Some 0). cbn [lift].
  reflexivity.
Qed.

(** The 2x2 image resized to 5 by 3: the first pixel is (127,127,63), not
    the (0,0,0) of the source. *)
Lemma first_pixel_anchor_example :
  let h : heap := {[ 0%nat := corners_2x2 ]} in
  sample_bicubic 0%nat (normalized (D:=float) 0 5) (normalized (D:=float) 0 3) h =
    Some ((127, 127, 63), h).
Proof.
  intros h.
  assert (Hsx : 0 < img_x corners_2x2 <= INT_MAX) by (cbn; unfold INT_MAX; lia).
  assert (Hsy : 0 < img_y corners_2x2 <= INT_MAX) by (cbn; unfold INT_MAX; lia).
  assert (Hdw : 2 <= 5 <= INT_MAX) by (unfold INT_MAX; lia).
  assert (Hdh : 2 <= 3 <= INT_MAX) by (unfold INT_MAX; lia).
  destruct (first_pixel_anchor h 0%nat corners_2x2 5 3 eq_refl Hsx Hsy Hdw Hdh)
    as (_ & _ & _ & _ & Hs).
  rewrite Hs. vm_compute. reflexivity.
Defined.

Lemma sample_coord_nan (size : Z) :
  sample_int (sample_coord (D:=float) nan size) = None.
Proof.
  unfold sample_int, d_cast, sample_coord.
  cbn [d_mul d_sub d_of_Z d_trunc float_Double]. unfold float_trunc.
  rewrite sub_spec, mul_spec. reflexivity.
Qed.

(** [resize_image] with a scaled dimension of 1. *)
Lemma resize_image_single_run (h : heap) (src dst : ptr) (simg dimg : PPMImage)
    (scale : float) (dw dh : Z) :
  h !! src = Some simg ->
  h !! dst = Some dimg ->
  scaled_size (img_x simg) scale = Some dw ->
  scaled_size (img_y simg) scale = Some dh ->
  (dw = 1 /\ 1 <= dh) \/ (1 <= dw /\ dh = 1) ->
  resize_image src dst scale h = None.
Proof.
  intros Hsrc Hdst Hdw Hdh Hone.
  assert (Hs : forall hp u v x y,
            (x = 0 /\ dw = 1 /\ u = normalized (D:=float) x dw) \/
            (y = 0 /\ dh = 1 /\ v = normalized (D:=float) y dh) ->
            sample_bicubic src u v hp = None).
  { intros hp u v x y Hcase. unfold sample_bicubic.
    rewrite bind_run. destruct (get_x src hp) as [[sx hp1] |]; [| reflexivity].
    rewrite bind_run. unfold lift at 1.
    destruct Hcase as [(-> & -> & ->) | (-> & -> & ->)].
    - change (normalized (D:=float) 0 1) with nan.
      rewrite sample_coord_nan. reflexivity.
    - destruct (sample_int (sample_coord u sx)) as [xint |]; [| reflexivity].
      rewrite bind_run. destruct (get_y src hp1) as [[sy hp2] |]; [| reflexivity].
      rewrite bind_run. change (normalized (D:=float) 0 1) with nan.
      rewrite sample_coord_nan. reflexivity. }
  assert (Hfirst : forall n (body : Z -> M unit) hp,
            1 <= n -> body 0 hp = None -> for_upto n body hp = None).
  { intros n body hp Hn Hb. unfold for_upto. rewrite seqZ_cons by lia.
    cbn [for_each]. rewrite bind_run, Hb. reflexivity. }
  assert (Hdw1 : 1 <= dw) by lia. assert (Hdh1 : 1 <= dh) by lia.
  unfold resize_image.
  rewrite bind_run, (get_x_run _ _ _ Hsrc).
  rewrite bind_run, Hdw. cbn [lift].
  rewrite bind_run, (set_x_run _ _ _ _ Hdst).
  set (d1 := {| img_x := dw; img_y := img_y dimg; img_data := img_data dimg |}).
  set (h1 := with_image h dst dw (img_y dimg) (img_data dimg)).
  assert (Hd1 : h1 !! dst = Some d1) by apply lookup_insert_eq.
  assert (Hsrc1 : exists s1, h1 !! src = Some s1 /\ img_y s1 = img_y simg).
  { destruct (decide (dst = src)) as [<- | Hne].
    - exists d1. split; [exact Hd1 |].
      rewrite Hsrc in Hdst. injection Hdst as ->. reflexivity.
    - unfold h1, with_image. rewrite lookup_insert_ne by exact Hne. eauto. }
  destruct Hsrc1 as (s1 & Hs1 & Ey).
  rewrite bind_run, (get_y_run _ _ _ Hs1), Ey.
  rewrite bind_run, Hdh. cbn [lift].
  rewrite bind_run, (set_y_run _ _ _ _ Hd1). cbn [img_x img_data d1].
  set (h2 := with_image h1 dst dw dh (img_data dimg)).
  assert (Hd2 : h2 !! dst = Some {| img_x := dw; img_y := dh;
                                    img_data := img_data dimg |})
    by apply lookup_insert_eq.
  rewrite bind_run, (get_y_run _ _ _ Hd2). cbn [img_y].
  apply Hfirst; [exact Hdh1 |].
  rewrite bind_run, (get_y_run _ _ _ Hd2). cbn [img_y].
  rewrite bind_run, (get_x_run _ _ _ Hd2). cbn [img_x].
  apply Hfirst; [exact Hdw1 |].
  rewrite bind_run, (get_x_run _ _ _ Hd2). cbn [img_x].
  rewrite bind_run.
  rewrite (Hs h2 _ _ 0 0); [reflexivity |].
  destruct Hone as [[-> _] | [_ ->]]; [left | right]; auto.
Qed.

(** X21. A destination one pixel wide or one pixel high, in binary64.
    Whatever the source and the scale, when one of the scaled dimensions is
    1 and the other is at least 1, the normalized coordinate of the only
    pixel of that row or column is [0.0 / 0.0], a NaN, the cast [(int)x] in
    [sample_bicubic] has no defined value, and [resize_image] has no defined
    result: no dimension of 1 is special-cased. *)
Theorem resize_image_single (h : heap) (src dst : ptr) (simg dimg : PPMImage)
    (scale : float) (dw dh : Z) :
  h !! src = Some simg ->
  h !! dst = Some dimg ->
  scaled_size (img_x simg) scale = Some dw ->
  scaled_size (img_y simg) scale = Some dh ->
  (dw = 1 /\ 1 <= dh) \/ (1 <= dw /\ dh = 1) ->
  resize_image src dst scale h = None.
Proof.
  intros Hsrc Hdst Hdw Hdh Hone.
  exact (resize_image_single_run h src dst simg dimg scale dw dh Hsrc Hdst Hdw Hdh Hone).
Qed.

(** A 4x4 image resized by 0.25, to a single pixel. *)
Lemma resize_image_single_example :
  let h : heap :=
    {[ 0%nat := uniform_4x4;
       1%nat := {| img_x := 0; img_y := 0;
                   img_data := replicate 9 (rgb 0 0 0) |} ]} in
  resize_image 0%nat 1%nat 0.25%float h = None.
Proof.
  intros h.
  refine (resize_image_single h 0%nat 1%nat uniform_4x4 _ 0.25%float 1 1
            eq_refl eq_refl _ _ _).
  - vm_compute. reflexivity.
  - vm_compute. reflexivity.
  - left. lia.
Defined.

(* ===================================================================== *)
(** ** The bicubic path over the reals: every access is defined *)
(* ===================================================================== *)

Section RealPath.
Local Open Scope R_scope.







End RealPath.



(** The resampling step of [main] for a scale that gives a dimension of 1. *)
Lemma resample_single (junk_x junk_y : Z) (junk_pixel : nat -> PPMPixel)
    (factor : string) (scale : float) (img : PPMImage) (dw dh : Z) :
  String.eqb factor "2x" = false ->
  scaled_size (img_x img) scale = Some dw ->
  scaled_size (img_y img) scale = Some dh ->
  (dw = 1 /\ 1 <= dh) \/ (1 <= dw /\ dh = 1) ->
  resample junk_x junk_y junk_pixel factor scale img ∅ = None.
Proof.
  intros Hfactor Hdw Hdh Hone.
  unfold resample. rewrite bind_run.
  destruct (alloc_run img ∅) as [-> _].
  set (s := fresh (dom (∅ : heap))). set (h0 := <[s := img]> (∅ : heap)).
  assert (Hs0 : h0 !! s = Some img) by apply lookup_insert_eq.
  rewrite bind_run, Hfactor. rewrite bind_run.
  destruct (init_destination_image junk_x junk_y junk_pixel s scale h0)
    as [[d h1] |] eqn:Hinit; [| reflexivity].
  destruct (init_destination_image_run _ _ _ _ _ _ _ _ Hinit)
    as (simg & n & Hsrc & _ & Hd & Hh1).
  assert (Hne : d <> s).
  { intros Heq. apply (is_fresh (dom h0)). rewrite <- Hd, Heq.
    apply elem_of_dom. eauto. }
  assert (Hs1 : h1 !! s = Some img).
  { rewrite Hh1, lookup_insert_ne by exact Hne. exact Hs0. }
  assert (Hd1 : is_Some (h1 !! d)) by (rewrite Hh1, lookup_insert_eq; eauto).
  destruct Hd1 as [dimg Hd1].
  rewrite bind_run.
  rewrite (resize_image_single_run h1 s d img dimg scale dw dh Hs1 Hd1 Hdw Hdh Hone).
  reflexivity.
Qed.

(** X23. A resize to a single row or column, from file to file, in
    binary64.  With an input file that [readPPM] decodes and a scale that
    passes the check and gives a destination one pixel wide or one pixel
    high, the behaviour of the program is undefined: after it has removed
    the output and read the input, [resize_image] computes the coordinate
    [0.0 / 0.0] and casts the NaN to [int]. *)
Theorem main_files_single (junk_x junk_y : Z) (junk_pixel : nat -> PPMPixel)
    (atof : string -> float) (writable : string -> bool)
    (fs : files) (prog factor infile outfile : string) (s : list byte)
    (img : PPMImage) (dw dh : Z) :
  infile <> outfile ->
  fs !! infile = Some s ->
  readPPM_bytes s = Decoded img ->
  String.eqb factor "2x" = false ->
  d_leb (atof factor) (d_of_Z 0) = false ->
  scaled_size (img_x img) (atof factor) = Some dw ->
  scaled_size (img_y img) (atof factor) = Some dh ->
  (dw = 1 /\ 1 <= dh) \/ (1 <= dw /\ dh = 1) ->
  main_files junk_x junk_y junk_pixel atof writable fs
    [prog; factor; infile; outfile] = Undef.
Proof.
  intros Hne Hin Hdec Hfactor Hpos Hdw Hdh Hone.
  unfold main_files. rewrite Hfactor, Hpos. cbn [negb andb].
  unfold readPPM. rewrite lookup_delete_ne by congruence. rewrite Hin, Hdec.
  rewrite (resample_single junk_x junk_y junk_pixel factor (atof factor) img dw dh
             Hfactor Hdw Hdh Hone).
  reflexivity.
Qed.

(** A 4x4 image and the scale 0.25. *)
Lemma main_files_single_example :
  let s := ppm_file 4 4 255 (bytes_of_pixels (img_data uniform_4x4)) in
  let fs : files := {[ "in.ppm"%string := s ]} in
  main_files 0 0 (fun _ => rgb 0 0 0) (fun _ => 0.25%float) (fun _ => true) fs
    ["prog"; "0.25"; "in.ppm"; "out.ppm"]%string = Undef.
Proof.
  intros s fs.
  refine (main_files_single 0 0 (fun _ => rgb 0 0 0) (fun _ => 0.25%float)
            (fun _ => true) fs "prog" "0.25" "in.ppm" "out.ppm" s uniform_4x4 1 1
            _ _ _ _ _ _ _ _).
  - discriminate.
  - reflexivity.
  - vm_compute. reflexivity.
  - reflexivity.
  - reflexivity.
  - vm_compute. reflexivity.
  - vm_compute. reflexivity.
  - left. lia.
Defined.

(* ===================================================================== *)
(** ** PPM files: other layouts, and sizes that [int] does not hold *)
(* ===================================================================== *)

Lemma skip_comments_white (w rest : list byte) :
  white w -> (exists d tl, rest = d :: tl /\ isdigit d = true) ->
  skip_comments false (w ++ rest) = Some (w ++ rest).
Proof.
  intros Hw Hrest. destruct Hw as [| b w Hb Hw].
  - apply skip_comments_digit. exact Hrest.
  - cbn [app skip_comments].
    assert (Hh : Byte.eqb b hash = false).
    { destruct b; try discriminate Hb; reflexivity. }
    rewrite Hh. reflexivity.
Qed.

(** X24. The layouts that [readPPM] reads.  Below the format line the three
    numbers of the header may be laid out with any white space (spaces,
    tabs, newlines, ...) in front of each of them, and after the maximum 255
    everything up to the next newline is skipped, whatever it is: the result
    is that of [fread] on the bytes after that newline. *)
Theorem readPPM_layout (w0 w1 w2 text data : list byte) (x y : Z) :
  white w0 -> white w1 -> white w2 ->
  w1 <> [] -> w2 <> [] ->
  no_newline text -> no_digit_ahead text ->
  0 <= x <= INT_MAX -> 0 <= y <= INT_MAX ->
  readPPM_bytes (ppm_magic ++ w0 ++ print_int x ++ w1 ++ print_int y ++ w2
                 ++ print_int 255 ++ text ++ newline :: data) =
    read_pixels x y data.
Proof.
  intros Hw0 Hw1 Hw2 Hn1 Hn2 Htext Hdigit Hx Hy.
  assert (Hhead : forall w rest, white w -> w <> [] -> no_digit_ahead (w ++ rest)).
  { intros w rest Hw Hne. destruct Hw as [| b w Hb Hw]; [contradiction |].
    cbn. destruct b; try discriminate Hb; reflexivity. }
  assert (Htail : no_digit_ahead (text ++ newline :: data)).
  { destruct text as [| b text]; [reflexivity | exact Hdigit]. }
  rewrite readPPM_magic. unfold read_header.
  rewrite skip_comments_white by (try assumption; apply print_int_head; exact Hx).
  rewrite (scan_int_print w0 x) by (try assumption; apply Hhead; assumption).
  rewrite (scan_int_print w1 y) by (try assumption; apply Hhead; assumption).
  rewrite (scan_int_print w2 255) by (try assumption; unfold INT_MAX; lia).
  cbn [Z.eqb Pos.eqb negb]. rewrite skip_line_app by exact Htext. reflexivity.
Qed.

(** The header of a 1x1 image on lines of its own, with tabs, and text
    after the maximum. *)
Lemma readPPM_layout_example :
  readPPM_bytes (ppm_magic ++ [newline] ++ print_int 1 ++ [newline; "009"%byte]
                 ++ print_int 1 ++ [space; space] ++ print_int 255
                 ++ list_byte_of_string " max" ++ newline :: list_byte_of_string "abc")
    = Decoded {| img_x := 1; img_y := 1; img_data := [rgb 97 98 99] |}.
Proof.
  rewrite (readPPM_layout [newline] [newline; "009"%byte] [space; space]
             (list_byte_of_string " max") (list_byte_of_string "abc") 1 1).
  - reflexivity.
  - repeat constructor.
  - repeat constructor.
  - repeat constructor.
  - discriminate.
  - discriminate.
  - repeat constructor.
  - reflexivity.
  - unfold INT_MAX. lia.
  - unfold INT_MAX. lia.
Defined.

(** X25. Sizes that [int] does not hold.  [readPPM] does not check the
    dimensions that it reads: when each of them is a value of [int] but their
    product, the operand of [malloc], or three times the width, the operand
    of [fread], is not, the multiplication in [int] overflows and the
    behaviour is undefined, whatever the data; a header [65536 65536] is
    such a file. *)
Theorem readPPM_size_overflow (x y : Z) (data : list byte) :
  0 <= x <= INT_MAX -> 0 <= y <= INT_MAX ->
  INT_MAX < x * y \/ INT_MAX < 3 * x ->
  readPPM_bytes (ppm_file x y 255 data) = Undefined.
Proof.
  intros Hx Hy Hover. rewrite readPPM_ppm_file by (unfold INT_MAX in *; lia).
  cbn [Z.eqb Pos.eqb]. unfold read_pixels.
  destruct (Z.ltb_spec x 0); [lia |]. destruct (Z.ltb_spec y 0); [lia |].
  cbn [orb].
  destruct (Z.ltb_spec INT_MAX (x * y)); [reflexivity |].
  destruct (Z.ltb_spec INT_MAX (3 * x)); [reflexivity | lia].
Qed.

Lemma readPPM_size_overflow_example :
  readPPM_bytes (ppm_file 65536 65536 255 []) = Undefined.
Proof.
  apply readPPM_size_overflow; unfold INT_MAX; lia.
Defined.
